(** * ReqDBContentCreator: the importers of [reqdbcontentcreator/sources.py]

    A shallow embedding of the importers and of the BSI Grundschutz parser,
    with the properties of the specification stated over it.

    Conventions of the embedding.
    - A Python [str] is a list of code points ([N]); literals are written
      [u "text"], code points outside ASCII are written as numbers.
    - A Python [dict] is an association list in insertion order.
    - A raised exception is a value of [exn]; code that can raise returns
      [result].
    - The remote client, the session lists of [Rollback] and the sequence of
      remote calls are one explicit state threaded through the importers. *)

From Stdlib Require Import String Ascii.
From Stdlib Require Import List Bool Arith NArith ZArith Lia.
From Stdlib Require DecimalNat.
Import ListNotations.

Set Implicit Arguments.
Set Warnings "-register-all".

(** ** Python strings *)

Module Str.

Definition char := N.
Definition str := list char.

Definition ch (a : ascii) : char := N_of_ascii a.
Definition u (s : string) : str := map N_of_ascii (list_ascii_of_string s).

Fixpoint eqb (a b : str) : bool :=
  match a, b with
  | [], [] => true
  | x :: a', y :: b' => N.eqb x y && eqb a' b'
  | _, _ => false
  end.

(** [s.startswith(p)] *)
Fixpoint startswith (s p : str) : bool :=
  match p, s with
  | [], _ => true
  | x :: p', y :: s' => N.eqb x y && startswith s' p'
  | _ :: _, [] => false
  end.

(** [s.endswith(p)] *)
Definition endswith (s p : str) : bool := startswith (rev s) (rev p).

(** [sub in s] *)
Fixpoint contains (s sub : str) : bool :=
  startswith s sub
  || match s with [] => false | _ :: s' => contains s' sub end.

(** [maxsplit] and [count] arguments: [None] is "no limit". *)
Definition allowed (limit : option nat) : bool :=
  match limit with Some O => false | _ => true end.

Definition used (limit : option nat) : option nat :=
  match limit with Some n => Some (pred n) | None => None end.

Definition cons_hd (c : char) (l : list str) : list str :=
  match l with
  | h :: t => (c :: h) :: t
  | [] => [[c]]
  end.

(** [s.split(sep, maxsplit)] for a non-empty [sep]: the occurrences of [sep]
    are found from the left and do not overlap; [skip] counts the characters
    of a separator still to be passed over. *)
Fixpoint split_aux (sep : str) (maxsplit : option nat) (skip : nat) (s : str)
  : list str :=
  match s with
  | [] => [[]]
  | c :: s' =>
      match skip with
      | S k => split_aux sep maxsplit k s'
      | O =>
          if allowed maxsplit && startswith s sep
          then [] :: split_aux sep (used maxsplit) (length sep - 1) s'
          else cons_hd c (split_aux sep maxsplit 0 s')
      end
  end.

Definition split (s sep : str) : list str := split_aux sep None 0 s.
Definition split_max (s sep : str) (maxsplit : nat) : list str :=
  split_aux sep (Some maxsplit) 0 s.

(** [sep.join(l)] *)
Fixpoint join (sep : str) (l : list str) : str :=
  match l with
  | [] => []
  | [x] => x
  | x :: rest => x ++ sep ++ join sep rest
  end.

Definition is_sign (c : char) : bool :=
  N.eqb c (ch "+") || N.eqb c (ch "-").

(** [s.zfill(width)]: zeros go after a leading sign. *)
Definition zfill (s : str) (width : nat) : str :=
  if width <=? length s then s
  else
    let fill := repeat (ch "0") (width - length s) in
    match s with
    | c :: rest => if is_sign c then c :: fill ++ rest else fill ++ s
    | [] => fill
    end.

(** [str.isspace] on one character (the whitespace table of CPython). *)
Definition isspace (c : char) : bool :=
  ((9 <=? c) && (c <=? 13) || (28 <=? c) && (c <=? 32)
   || (c =? 133) || (c =? 160) || (c =? 5760)
   || (8192 <=? c) && (c <=? 8202) || (c =? 8232) || (c =? 8233)
   || (c =? 8239) || (c =? 8287) || (c =? 12288))%N.

Fixpoint lstrip (s : str) : str :=
  match s with
  | c :: s' => if isspace c then lstrip s' else s
  | [] => []
  end.

Definition rstrip (s : str) : str := rev (lstrip (rev s)).
Definition strip (s : str) : str := rstrip (lstrip s).

(** [s.replace(old, new, count)] for a non-empty [old]. *)
Fixpoint replace_aux (old new : str) (count : option nat) (skip : nat) (s : str)
  : str :=
  match s with
  | [] => []
  | c :: s' =>
      match skip with
      | S k => replace_aux old new count k s'
      | O =>
          if allowed count && startswith s old
          then new ++ replace_aux old new (used count) (length old - 1) s'
          else c :: replace_aux old new count 0 s'
      end
  end.

(** With an empty [old] Python puts [new] before every character and at the end. *)
Fixpoint interleave (new : str) (count : option nat) (s : str) : str :=
  if allowed count
  then new ++ match s with
              | [] => []
              | c :: s' => c :: interleave new (used count) s'
              end
  else s.

Definition replace_count (s old new : str) (count : option nat) : str :=
  match old with
  | [] => interleave new count s
  | _ :: _ => replace_aux old new count 0 s
  end.

Definition replace (s old new : str) : str := replace_count s old new None.

(** [str(n)] for a non-negative integer. *)
Fixpoint of_uint (d : Decimal.uint) : str :=
  match d with
  | Decimal.Nil => []
  | Decimal.D0 d' => ch "0" :: of_uint d'
  | Decimal.D1 d' => ch "1" :: of_uint d'
  | Decimal.D2 d' => ch "2" :: of_uint d'
  | Decimal.D3 d' => ch "3" :: of_uint d'
  | Decimal.D4 d' => ch "4" :: of_uint d'
  | Decimal.D5 d' => ch "5" :: of_uint d'
  | Decimal.D6 d' => ch "6" :: of_uint d'
  | Decimal.D7 d' => ch "7" :: of_uint d'
  | Decimal.D8 d' => ch "8" :: of_uint d'
  | Decimal.D9 d' => ch "9" :: of_uint d'
  end.

Definition of_nat (n : nat) : str := of_uint (Nat.to_uint n).

(** The format specification [:02] of an f-string on a non-negative integer:
    the decimal digits, filled with zeros on the left up to width 2. *)
Definition format_02 (n : nat) : str :=
  let d := of_nat n in
  repeat (ch "0") (2 - length d) ++ d.

End Str.

Import Str.

(** ** Exceptions and results *)

Inductive exn : Type :=
| IndexError
| KeyError
| ValueError
| TypeError
| AttributeError
| NameError
| RuntimeError
| FileNotFoundError
| BadZipFile
| RemoteError
| SystemExit (code : option Z).

(** [except Exception] does not catch [SystemExit]. *)
Definition is_Exception (e : exn) : bool :=
  match e with
  | SystemExit _ => false
  | _ => true
  end.

Inductive result (A : Type) : Type :=
| Ok (a : A)
| Raise (e : exn).

Arguments Ok {A} a.
Arguments Raise {A} e.

Definition rbind {A B} (r : result A) (f : A -> result B) : result B :=
  match r with
  | Ok a => f a
  | Raise e => Raise e
  end.

Notation "'let*' x ':=' e 'in' k" := (rbind e (fun x => k))
  (at level 10, x pattern, e at level 100, k at level 200).

(** [l[i]] on a list *)
Definition subscript {A} (l : list A) (i : nat) : result A :=
  match nth_error l i with
  | Some a => Ok a
  | None => Raise IndexError
  end.

(** A [for] loop whose body updates an accumulator and may raise. *)
Fixpoint rfold {A S} (body : S -> A -> result S) (l : list A) (s : S)
  : result S :=
  match l with
  | [] => Ok s
  | a :: l' => let* s' := body s a in rfold body l' s'
  end.

(** ** Python dictionaries *)

Module Dict.

Definition dict (V : Type) := list (str * V).

Fixpoint get {V} (d : dict V) (k : str) : option V :=
  match d with
  | [] => None
  | (k', v) :: d' => if Str.eqb k' k then Some v else get d' k
  end.

(** [k in d] *)
Definition mem {V} (d : dict V) (k : str) : bool :=
  match get d k with Some _ => true | None => false end.

(** [d[k] = v]: an existing key keeps its place, a new key goes last. *)
Fixpoint set {V} (d : dict V) (k : str) (v : V) : dict V :=
  match d with
  | [] => [(k, v)]
  | (k', v') :: d' =>
      if Str.eqb k' k then (k', v) :: d' else (k', v') :: set d' k v
  end.

(** [d[k]] *)
Definition item {V} (d : dict V) (k : str) : result V :=
  match get d k with
  | Some v => Ok v
  | None => Raise KeyError
  end.

(** An assignment below [d[k]]: [d[k]] is read, changed in place by [f]. *)
Definition update {V} (d : dict V) (k : str) (f : V -> result V)
  : result (dict V) :=
  let* v := item d k in
  let* v' := f v in
  Ok (set d k v').

End Dict.

Import Dict.

(** ** Regular expressions of [re], as far as the importers use them *)

Module Re.

(** One-character patterns: a literal, [.] and [\d]. *)
Inductive atom : Type :=
| Chr (c : char)
| Dot
| Class (p : char -> bool).

Inductive re : Type :=
| Eps
| Atom (a : atom)
| Seq (r1 r2 : re)
| Alt (r1 r2 : re)
| Star (greedy : bool) (a : atom)
| Plus (greedy : bool) (a : atom)
| Group (n : nat) (r : re).

Definition accepts (a : atom) (c : char) : bool :=
  match a with
  | Chr c' => N.eqb c c'
  | Dot => negb (N.eqb c 10)
  | Class p => p c
  end.

Definition groups := list (nat * str).

Section Matcher.
Context {X : Type}.

  (** Greedy repetition: the longest run first, then shorter ones. *)
Fixpoint star_greedy (a : atom) (s : str) (k : str -> option X) : option X :=
    match s with
    | c :: s' =>
        if accepts a c
        then match star_greedy a s' k with
             | Some x => Some x
             | None => k s
             end
        else k s
    | [] => k s
    end.

  (** Lazy repetition: the empty run first, then longer ones. *)
Fixpoint star_lazy (a : atom) (s : str) (k : str -> option X) : option X :=
    match k s with
    | Some x => Some x
    | None =>
        match s with
        | c :: s' => if accepts a c then star_lazy a s' k else None
        | [] => None
        end
    end.

Definition star (greedy : bool) :=
    if greedy then star_greedy else star_lazy.

  (** Backtracking matcher in continuation-passing style: [k] is given the
      rest of the subject and the groups captured so far. *)
Fixpoint run (r : re) (s : str) (g : groups)
           (k : str -> groups -> option X) : option X :=
    match r with
    | Eps => k s g
    | Atom a =>
        match s with
        | c :: s' => if accepts a c then k s' g else None
        | [] => None
        end
    | Seq r1 r2 => run r1 s g (fun s' g' => run r2 s' g' k)
    | Alt r1 r2 =>
        match run r1 s g k with
        | Some x => Some x
        | None => run r2 s g k
        end
    | Star greedy a => star greedy a s (fun s' => k s' g)
    | Plus greedy a =>
        match s with
        | c :: s' =>
            if accepts a c then star greedy a s' (fun s'' => k s'' g) else None
        | [] => None
        end
    | Group n r' =>
        run r' s g
            (fun s' g' => k s' ((n, firstn (length s - length s') s) :: g'))
    end.
End Matcher.

(** [re.match(r, s)]: anchored at the start only. *)
Definition match_ (r : re) (s : str) : option groups :=
  run r s [] (fun _ g => Some g).

(** [m.group(n)] *)
Fixpoint group (g : groups) (n : nat) : option str :=
  match g with
  | [] => None
  | (n', v) :: g' => if Nat.eqb n' n then Some v else group g' n
  end.

(** Length of the match of [r] at the start of [s]. *)
Definition match_length (r : re) (s : str) : option nat :=
  run r s [] (fun s' _ => Some (length s - length s')).

(** [re.sub(r, repl, s)] for a pattern that matches no empty string. *)
Fixpoint sub_aux (r : re) (repl : str) (skip : nat) (s : str) : str :=
  match s with
  | [] => []
  | c :: s' =>
      match skip with
      | S k => sub_aux r repl k s'
      | O =>
          match match_length r s with
          | Some (S n) => repl ++ sub_aux r repl n s'
          | _ => c :: sub_aux r repl 0 s'
          end
      end
  end.

Definition sub (r : re) (repl s : str) : str := sub_aux r repl 0 s.

(** A pattern without special characters. *)
Fixpoint lits (s : str) : re :=
  match s with
  | [] => Eps
  | c :: s' => Seq (Atom (Chr c)) (lits s')
  end.

End Re.

(** ** Key normalization

    The idiom ['.'.join([n.zfill(2) for n in key.split('.')])], which the
    importers apply to the dotted codes of their sources. *)
Definition zeroPadKey (key : str) : str :=
  join (u ".") (map (fun n => zfill n 2) (split key (u "."))).

(** [m.group(n)] on what [re.match] returned: [None] has no attribute
    [group]. *)
Definition m_group (m : option Re.groups) (n : nat) : result str :=
  match m with
  | None => Raise AttributeError
  | Some g =>
      match Re.group g n with
      | Some v => Ok v
      | None => Raise IndexError
      end
  end.

(** ** The BSI Grundschutz document *)

Module BSI.

(** A [title] child of an element: its [.text], the text before its first
    child element ([None] when there is none), and the text that follows
    inside it, that of inline markup and of what comes after it. *)
Record Title : Type := mkTitle {
  text : option str;
  inline : str
}.

(** ["".join(title.itertext())] *)
Definition itertext (t : Title) : str :=
  match text t with
  | Some s => s ++ inline t
  | None => inline t
  end.

(** A [section] (or [chapter]) element of the DocBook tree as the parser sees
    it: its [title] children, what [pypandoc.convert_text] makes of the
    element, and its child [section] elements, all in document order. *)
Inductive Element : Type :=
| Elem (titles : list Title) (pandoc : str) (sections : list Element).

Definition titles (e : Element) : list Title :=
  match e with Elem t _ _ => t end.
Definition pandoc (e : Element) : str :=
  match e with Elem _ p _ => p end.
Definition sections (e : Element) : list Element :=
  match e with Elem _ _ l => l end.

(** [e.find("./ns:title", namespaces).text]: [find] gives the first [title]
    child, or [None], which has no attribute [text]. *)
Definition title_text (e : Element) : result (option str) :=
  match titles e with
  | t :: _ => Ok (text t)
  | [] => Raise AttributeError
  end.

(** [e.find("./ns:title", namespaces).text] as the object of a method call:
    [None] has no methods. *)
Definition title_line (e : Element) : result str :=
  let* t := title_text e in
  match t with
  | Some s => Ok s
  | None => Raise AttributeError
  end.

(** The predicate [[ns:title='t']] of [findall]: some [title] child has
    the joined text [t]. *)
Definition has_title (t : str) (e : Element) : bool :=
  existsb (fun child => Str.eqb (itertext child) t) (titles e).

(** [e.findall("./ns:section[ns:title='t']/ns:section", namespaces)] *)
Definition titled_subsections (t : str) (e : Element) : list Element :=
  flat_map sections (filter (has_title t) (sections e)).

Definition Gefaehrdungslage : str := u "Gef" ++ [228%N] ++ u "hrdungslage".
Definition Anforderungen : str := u "Anforderungen".

Definition newline : char := 10%N.

(** [convertXMLDescriptionToMD] *)
Definition convertXMLDescriptionToMD (XMLDescription : Element) : result str :=
  let* rest := subscript (split_max (pandoc XMLDescription)
                                    [newline; newline] 1) 1 in
  Ok (strip rest).

(** The title of a threat is the [.text] of its heading as it is, [None]
    included. *)
Record Threat : Type := mkThreat {
  threat_title : option str;
  threat_description : str
}.

Record Requirement : Type := mkRequirement {
  requirement_title : str;
  requirement_tag : option str;
  requirement_description : str
}.

Record Topic : Type := mkTopic {
  topic_title : str;
  threats : dict Threat;
  requirements : dict Requirement
}.

Record BuildingBlock : Type := mkBuildingBlock {
  block_title : str;
  children : dict Topic
}.

(** [tagRe = re.compile(r".*\((B|S|H)\).*")] *)
Definition tagRe : Re.re :=
  Re.Seq (Re.Star true Re.Dot)
    (Re.Seq (Re.Atom (Re.Chr (ch "(")))
       (Re.Seq (Re.Group 1
                  (Re.Alt (Re.Atom (Re.Chr (ch "B")))
                     (Re.Alt (Re.Atom (Re.Chr (ch "S")))
                             (Re.Atom (Re.Chr (ch "H"))))))
          (Re.Seq (Re.Atom (Re.Chr (ch ")"))) (Re.Star true Re.Dot)))).

(** [buildingBlocks[c]["children"][t] = topic] *)
Definition set_topic (buildingBlocks : dict BuildingBlock) (c t : str)
           (topic : Topic) : result (dict BuildingBlock) :=
  update buildingBlocks c (fun b =>
    Ok (mkBuildingBlock (block_title b) (set (children b) t topic))).

(** [buildingBlocks[c]["children"][t]["threats"][k] = threat] *)
Definition set_threat (buildingBlocks : dict BuildingBlock) (c t k : str)
           (threat : Threat) : result (dict BuildingBlock) :=
  update buildingBlocks c (fun b =>
    let* children' := update (children b) t (fun topic =>
      Ok (mkTopic (topic_title topic) (set (threats topic) k threat)
                  (requirements topic))) in
    Ok (mkBuildingBlock (block_title b) children')).

(** [buildingBlocks[c]["children"][t]["requirements"][k] = requirement] *)
Definition set_requirement (buildingBlocks : dict BuildingBlock) (c t k : str)
           (requirement : Requirement) : result (dict BuildingBlock) :=
  update buildingBlocks c (fun b =>
    let* children' := update (children b) t (fun topic =>
      Ok (mkTopic (topic_title topic) (threats topic)
                  (set (requirements topic) k requirement))) in
    Ok (mkBuildingBlock (block_title b) children')).

(** [f"{topicKey}.G{threatIndex:02}"] *)
Definition threatKey (topicKey : str) (threatIndex : nat) : str :=
  topicKey ++ u ".G" ++ format_02 threatIndex.

(** The loop over [threatSections]; the state is the dictionary and
    [threatIndex]. *)
Definition readThreat (chapterKey topicKey : str)
           (st : dict BuildingBlock * nat) (th : Element)
  : result (dict BuildingBlock * nat) :=
  let '(buildingBlocks, threatIndex) := st in
  let* titleLine := title_text th in
  let* description := convertXMLDescriptionToMD th in
  let* buildingBlocks' :=
    set_threat buildingBlocks chapterKey topicKey
               (threatKey topicKey threatIndex)
               (mkThreat titleLine description) in
  Ok (buildingBlocks', threatIndex + 1).

(** The known defect of the source document and its correction. *)
Definition malformedCode : str := u "OPS.2.3A22".
Definition correctedCode : str := u "OPS.2.3.A22".

(** Lines 992 to 994: the requirement key of a requirement code. *)
Definition requirementKey (code : str) : result str :=
  let titleKeySplit := split_max code (u ".A") 1 in
  let* head := subscript titleKeySplit 0 in
  let* number := subscript titleKeySplit 1 in
  Ok (zeroPadKey (join (u ".A") [head; zfill number 2])).

(** Lines 995 and 996: [tagMatch.group(1) if tagMatch is not None else None] *)
Definition requirementTag (requirementTitle : str) : option str :=
  let tagMatch := Re.match_ tagRe requirementTitle in
  match tagMatch with
  | Some g => Re.group g 1
  | None => None
  end.

(** The body of the loop over [requirementSections]. *)
Definition readRequirement (chapterKey topicKey : str)
           (buildingBlocks : dict BuildingBlock) (r : Element)
  : result (dict BuildingBlock) :=
  let* text := title_line r in
  let titleLine := split_max text (u " ") 1 in
  let* code := subscript titleLine 0 in
  let code := if Str.eqb code malformedCode then correctedCode else code in
  let* requirement := requirementKey code in
  let* requirementTitle := subscript titleLine 1 in
  let tag := requirementTag requirementTitle in
  let* description := convertXMLDescriptionToMD r in
  set_requirement buildingBlocks chapterKey topicKey requirement
                  (mkRequirement requirementTitle tag description).

(** The body of the loop over the [section] children of a chapter. *)
Definition readTopic (chapterKey : str) (buildingBlocks : dict BuildingBlock)
           (t : Element) : result (dict BuildingBlock) :=
  let* text := title_line t in
  let topicTitleLine := split_max text (u " ") 1 in
  let* rawKey := subscript topicTitleLine 0 in
  let topicKey := zeroPadKey rawKey in
  let* topicTitle := subscript topicTitleLine 1 in
  let* buildingBlocks :=
    set_topic buildingBlocks chapterKey topicKey (mkTopic topicTitle [] []) in
  let threatSections := titled_subsections Gefaehrdungslage t in
  let* st := rfold (readThreat chapterKey topicKey) threatSections
                   (buildingBlocks, 1) in
  let requirementSections :=
    flat_map sections (titled_subsections Anforderungen t) in
  rfold (readRequirement chapterKey topicKey) requirementSections (fst st).

(** The body of the loop over the chapters. *)
Definition readChapter (buildingBlocks : dict BuildingBlock) (e : Element)
  : result (dict BuildingBlock) :=
  let* text := title_line e in
  let chapterTitle := split_max text (u " ") 1 in
  let* blockTitle := subscript chapterTitle 1 in
  let* chapterKey := subscript chapterTitle 0 in
  let buildingBlocks :=
    set buildingBlocks chapterKey (mkBuildingBlock blockTitle []) in
  rfold (readTopic chapterKey) (sections e) buildingBlocks.

Definition readBSIBuildingBlocks (topicsET : list Element)
  : result (dict BuildingBlock) :=
  rfold readChapter topicsET [].

End BSI.

(** ** The remote repository, its client and the session lists *)

Module ReqDB.

Inductive Kind : Type :=
| KTag | KTopic | KRequirement | KExtraType | KExtraEntry | KCatalogue.

Definition Kind_eqb (a b : Kind) : bool :=
  match a, b with
  | KTag, KTag | KTopic, KTopic | KRequirement, KRequirement
  | KExtraType, KExtraType | KExtraEntry, KExtraEntry
  | KCatalogue, KCatalogue => true
  | _, _ => false
  end.

(** What [client.X.add] returns: the object with the identifier the
    repository gave it. *)
Record Obj (B : Type) : Type := mkObj { id : nat; body : B }.
Arguments mkObj {B} id body.
Arguments id {B} o.
Arguments body {B} o.

(** The classes of [reqdb.models], as records of what a call passes; an
    argument the call leaves out is [None]. The title of a requirement is
    an option because the writer of the threats passes the [.text] of a
    heading, which may be [None]. *)
Record Tag : Type := mkTag { name : str }.

Inductive Topic : Type :=
| mkTopic (key title description : str) (parent : option (Obj Topic)).

Definition topic_key (t : Topic) := match t with mkTopic k _ _ _ => k end.
Definition topic_title (t : Topic) := match t with mkTopic _ x _ _ => x end.
Definition topic_description (t : Topic) :=
  match t with mkTopic _ _ d _ => d end.
Definition topic_parent (t : Topic) := match t with mkTopic _ _ _ p => p end.

Record Requirement : Type := mkRequirement {
  req_key : str;
  req_title : option str;
  req_description : str;
  req_parent : Obj Topic;
  req_tags : list (option (Obj Tag));
  req_visible : option bool
}.

Record ExtraType : Type := mkExtraType {
  et_title : str;
  et_extraType : nat;
  et_description : str
}.

Record ExtraEntry : Type := mkExtraEntry {
  ee_content : str;
  ee_extraTypeId : nat;
  ee_requirementId : nat
}.

Record Catalogue : Type := mkCatalogue {
  cat_title : str;
  cat_description : str;
  cat_topics : list (Obj Topic)
}.

Inductive Model : Type :=
| MTag (m : Tag)
| MTopic (m : Topic)
| MRequirement (m : Requirement)
| MExtraType (m : ExtraType)
| MExtraEntry (m : ExtraEntry)
| MCatalogue (m : Catalogue).

Definition kind_of (m : Model) : Kind :=
  match m with
  | MTag _ => KTag
  | MTopic _ => KTopic
  | MRequirement _ => KRequirement
  | MExtraType _ => KExtraType
  | MExtraEntry _ => KExtraEntry
  | MCatalogue _ => KCatalogue
  end.

(** Modelled from the spec: the class [Rollback] of
    [reqdbcontentcreator/rollback.py], which is not among the sources. The
    session owns one ordered list of identifiers per kind. *)
Record Rollback : Type := mkRollback {
  tags : list nat;
  topics : list nat;
  requirements : list nat;
  extraTypes : list nat;
  extraEntries : list nat;
  catalogues : list nat
}.

Definition recorded (rb : Rollback) (k : Kind) : list nat :=
  match k with
  | KTag => tags rb
  | KTopic => topics rb
  | KRequirement => requirements rb
  | KExtraType => extraTypes rb
  | KExtraEntry => extraEntries rb
  | KCatalogue => catalogues rb
  end.

Definition record_id (rb : Rollback) (k : Kind) (i : nat) : Rollback :=
  match k with
  | KTag =>
      mkRollback (tags rb ++ [i]) (topics rb) (requirements rb)
                 (extraTypes rb) (extraEntries rb) (catalogues rb)
  | KTopic =>
      mkRollback (tags rb) (topics rb ++ [i]) (requirements rb)
                 (extraTypes rb) (extraEntries rb) (catalogues rb)
  | KRequirement =>
      mkRollback (tags rb) (topics rb) (requirements rb ++ [i])
                 (extraTypes rb) (extraEntries rb) (catalogues rb)
  | KExtraType =>
      mkRollback (tags rb) (topics rb) (requirements rb)
                 (extraTypes rb ++ [i]) (extraEntries rb) (catalogues rb)
  | KExtraEntry =>
      mkRollback (tags rb) (topics rb) (requirements rb)
                 (extraTypes rb) (extraEntries rb ++ [i]) (catalogues rb)
  | KCatalogue =>
      mkRollback (tags rb) (topics rb) (requirements rb)
                 (extraTypes rb) (extraEntries rb) (catalogues rb ++ [i])
  end.

(** The remote calls and list appends of a run, in the order they happen. *)
Inductive Event : Type :=
| Create (i : nat) (m : Model)
| Append (k : Kind) (i : nat)
| Delete (k : Kind) (i : nat) (done : bool).

(** The state of a run: the entities the repository holds, the next
    identifier of each kind, how many more [add] calls the repository accepts
    before it rejects one ([None]: it rejects none), the session lists and
    the events so far. *)
Record State : Type := mkState {
  entities : list (nat * Model);
  next_id : Kind -> nat;
  fail_after : option nat;
  rollback : Rollback;
  trace : list Event
}.

Definition M (A : Type) : Type := State -> result A * State.

Definition ret {A} (a : A) : M A := fun st => (Ok a, st).
Definition raise {A} (e : exn) : M A := fun st => (Raise e, st).
Definition lift {A} (r : result A) : M A := fun st => (r, st).

Definition bind {A B} (m : M A) (f : A -> M B) : M B :=
  fun st =>
    match m st with
    | (Ok a, st') => f a st'
    | (Raise e, st') => (Raise e, st')
    end.

Notation "x <- m ;; k" := (bind m (fun x => k))
  (at level 100, m at next level, right associativity).
Notation "m ;; k" := (bind m (fun _ => k))
  (at level 100, right associativity).

(** [try: body except Exception as e: handler(e)] *)
Definition try_except {A} (body : M A) (handler : exn -> M A) : M A :=
  fun st =>
    match body st with
    | (Raise e, st') =>
        if is_Exception e then handler e st' else (Raise e, st')
    | done => done
    end.

Fixpoint foldM {A S} (body : S -> A -> M S) (l : list A) (s : S) : M S :=
  match l with
  | [] => ret s
  | a :: l' => s' <- body s a ;; foldM body l' s'
  end.

(** A [for] loop without a variable of its own to carry. *)
Definition forM {A} (l : list A) (body : A -> M unit) : M unit :=
  foldM (fun _ a => body a) l tt.

Definition bump (next : Kind -> nat) (k : Kind) : Kind -> nat :=
  fun k' => if Kind_eqb k k' then S (next k') else next k'.

(** [client.X.add(model)] on the wire. *)
Definition add (m : Model) : M nat :=
  fun st =>
    match fail_after st with
    | Some O => (Raise RemoteError, st)
    | budget =>
        let i := next_id st (kind_of m) in
        (Ok i,
         mkState (entities st ++ [(i, m)]) (bump (next_id st) (kind_of m))
                 (used budget) (rollback st) (trace st ++ [Create i m]))
    end.

Definition add_obj {B} (inj : B -> Model) (b : B) : M (Obj B) :=
  i <- add (inj b) ;; ret (mkObj i b).

Definition Tags_add := add_obj MTag.
Definition Topics_add := add_obj MTopic.
Definition Requirements_add := add_obj MRequirement.
Definition ExtraTypes_add := add_obj MExtraType.
Definition ExtraEntries_add := add_obj MExtraEntry.
Definition Catalogues_add := add_obj MCatalogue.

(** [Rollback.<list of k>.append(i)] *)
Definition append (k : Kind) (i : nat) : M unit :=
  fun st =>
    (Ok tt,
     mkState (entities st) (next_id st) (fail_after st)
             (record_id (rollback st) k i) (trace st ++ [Append k i])).

Definition is_entity (k : Kind) (i : nat) (e : nat * Model) : bool :=
  Kind_eqb (kind_of (snd e)) k && Nat.eqb (fst e) i.

(** [client.X.delete(i)]: the repository rejects the identifier of an entity
    it does not hold. *)
Definition delete (k : Kind) (i : nat) : M unit :=
  fun st =>
    if existsb (is_entity k i) (entities st)
    then (Ok tt,
          mkState (filter (fun e => negb (is_entity k i e)) (entities st))
                  (next_id st) (fail_after st) (rollback st)
                  (trace st ++ [Delete k i true]))
    else (Raise RemoteError,
          mkState (entities st) (next_id st) (fail_after st) (rollback st)
                  (trace st ++ [Delete k i false])).

(** Modelled from the spec: compensation deletes one kind after the other;
    a delete that fails is logged and skipped. *)
Definition rollbackKind (k : Kind) : M unit :=
  fun st =>
    forM (recorded (rollback st) k)
         (fun i => try_except (delete k i) (fun _ => ret tt)) st.

(** Modelled from the spec: [Rollback.rollbackAll] of
    [reqdbcontentcreator/rollback.py], which is not among the sources. It
    issues a delete for every recorded identifier, in the order requirements
    and extra entries, topics, tags and extra types, catalogues. *)
Definition rollbackAll : M unit :=
  rollbackKind KRequirement ;;
  rollbackKind KExtraEntry ;;
  rollbackKind KTopic ;;
  rollbackKind KTag ;;
  rollbackKind KExtraType ;;
  rollbackKind KCatalogue.

(** [sys.exit(arg)]; [sys.exit()] passes [None]. *)
Definition sys_exit {A} (arg : option Z) : M A := raise (SystemExit arg).

(** [panic]: roll back, then [sys.exit()]. *)
Definition panic {A} (e : exn) : M A :=
  rollbackAll ;; sys_exit None.

(** The exit status of the interpreter for the way a run ended: 0 after a
    normal end and after [sys.exit()] or [sys.exit(None)], the argument after
    [sys.exit(n)], 1 after an exception nobody caught. *)
Definition exit_status {A} (r : result A) : Z :=
  match r with
  | Ok _ => 0
  | Raise (SystemExit None) => 0
  | Raise (SystemExit (Some n)) => n
  | Raise _ => 1
  end.

Definition count (k : Kind) (st : State) : nat :=
  length (filter (fun e => Kind_eqb (kind_of (snd e)) k) (entities st)).

Definition no_rollback : Rollback := mkRollback [] [] [] [] [] [].

(** An empty repository at the start of a session. *)
Definition start (budget : option nat) : State :=
  mkState [] (fun _ => 1) budget no_rollback [].

End ReqDB.

(** ** The importers *)

Module Sources.

Import ReqDB.

(** *** OWASP ASVS *)

Record AsvsItemL3 : Type := mkAsvsItemL3 {
  l3_Shortcode : str;
  l3_Description : str;
  l3_L1_Required : bool;
  l3_L2_Required : bool;
  l3_L3_Required : bool;
  l3_CWE : list nat;
  l3_NIST : list str
}.

Record AsvsItemL2 : Type := mkAsvsItemL2 {
  l2_Shortcode : str;
  l2_Name : str;
  l2_Items : list AsvsItemL3
}.

Record AsvsItemL1 : Type := mkAsvsItemL1 {
  l1_Shortcode : str;
  l1_ShortName : str;
  l1_Name : str;
  l1_Items : list AsvsItemL2
}.

Record AsvsData : Type := mkAsvsData {
  asvs_Name : str;
  asvs_ShortName : str;
  asvs_Description : str;
  asvs_Requirements : list AsvsItemL1
}.

(** The first [try] block of [asvs]. *)
Definition asvs_setup
  : M (Obj Tag * Obj Tag * Obj Tag * Obj ExtraType * Obj ExtraType) :=
  l1 <- Tags_add (mkTag (u "Level 1")) ;;
  append KTag (id l1) ;;
  l2 <- Tags_add (mkTag (u "Level 2")) ;;
  append KTag (id l2) ;;
  l3 <- Tags_add (mkTag (u "Level 3")) ;;
  append KTag (id l3) ;;
  nist <- ExtraTypes_add
            (mkExtraType (u "NIST Ref") 3 (u "NIST Reference")) ;;
  append KExtraType (id nist) ;;
  cve <- ExtraTypes_add (mkExtraType (u "CVE Ref") 3 (u "CVE Reference")) ;;
  append KExtraType (id cve) ;;
  ret (l1, l2, l3, nist, cve).

Definition asvs_itemL3 (l1 l2 l3 : Obj Tag) (nist cve : Obj ExtraType)
           (itemL2 : AsvsItemL2) (parentL2 : Obj Topic) (itemL3 : AsvsItemL3)
  : M unit :=
  let t := [] in
  let t := if l3_L1_Required itemL3 then t ++ [Some l1] else t in
  let t := if l3_L2_Required itemL3 then t ++ [Some l2] else t in
  let t := if l3_L3_Required itemL3 then t ++ [Some l3] else t in
  requirement <- Requirements_add
    (mkRequirement
       (u "V" ++ zeroPadKey (tl (l3_Shortcode itemL3)))
       (Some (l2_Name itemL2))
       (l3_Description itemL3)
       parentL2
       t
       (Some (negb (contains (l3_Description itemL3) (u "[DELETED,"))))) ;;
  append KRequirement (id requirement) ;;
  (match l3_CWE itemL3 with
   | [] => ret tt
   | _ :: _ =>
       _ <- ExtraEntries_add
              (mkExtraEntry (join (u ";") (map of_nat (l3_CWE itemL3)))
                            (id cve) (id requirement)) ;;
       ret tt
   end) ;;
  (match l3_NIST itemL3 with
   | [] => ret tt
   | _ :: _ =>
       _ <- ExtraEntries_add
              (mkExtraEntry (join (u ";") (l3_NIST itemL3))
                            (id nist) (id requirement)) ;;
       ret tt
   end).

Definition asvs_itemL2 (l1 l2 l3 : Obj Tag) (nist cve : Obj ExtraType)
           (parentL1 : Obj Topic) (itemL2 : AsvsItemL2) : M unit :=
  parentL2 <- Topics_add
    (mkTopic (u "V" ++ zeroPadKey (tl (l2_Shortcode itemL2)))
             (l2_Name itemL2) (l2_Name itemL2) (Some parentL1)) ;;
  append KTopic (id parentL2) ;;
  forM (l2_Items itemL2) (asvs_itemL3 l1 l2 l3 nist cve itemL2 parentL2).

Definition asvs_itemL1 (l1 l2 l3 : Obj Tag) (nist cve : Obj ExtraType)
           (rootTopics : list (Obj Topic)) (itemL1 : AsvsItemL1)
  : M (list (Obj Topic)) :=
  parentL1 <- Topics_add
    (mkTopic (u "V" ++ zfill (tl (l1_Shortcode itemL1)) 2)
             (l1_ShortName itemL1) (l1_Name itemL1) None) ;;
  append KTopic (id parentL1) ;;
  let rootTopics := rootTopics ++ [parentL1] in
  forM (l1_Items itemL1) (asvs_itemL2 l1 l2 l3 nist cve parentL1) ;;
  ret rootTopics.

(** The second [try] block of [asvs]. *)
Definition asvs_upload (asvsData : AsvsData) (l1 l2 l3 : Obj Tag)
           (nist cve : Obj ExtraType) : M unit :=
  rootTopics <- foldM (asvs_itemL1 l1 l2 l3 nist cve)
                      (asvs_Requirements asvsData) [] ;;
  catalogue <- Catalogues_add
    (mkCatalogue
       (asvs_Name asvsData ++ u " (" ++ asvs_ShortName asvsData ++ u ")")
       (asvs_Description asvsData)
       rootTopics) ;;
  ret tt.

Definition asvs (asvsData : AsvsData) : M unit :=
  setup <- try_except asvs_setup panic ;;
  let '(l1, l2, l3, nist, cve) := setup in
  try_except (asvs_upload asvsData l1 l2 l3 nist cve) panic.

(** *** NIST CSF *)

Record NistRow : Type := mkNistRow {
  nist_Function : str;
  nist_Category : str;
  nist_Subcategory : str;
  nist_ImplementationExamples : str
}.

Record NistRequirement : Type := mkNistRequirement {
  nr_title : str;
  nr_description : str
}.

Record NistCategory : Type := mkNistCategory {
  nc_title : str;
  nc_description : str;
  nc_requirements : dict NistRequirement
}.

Record NistFunction : Type := mkNistFunction {
  nf_title : str;
  nf_description : str;
  nf_children : dict NistCategory
}.

(** [r"(.+) \((.+)\)"] *)
Definition nameRe : Re.re :=
  Re.Seq (Re.Group 1 (Re.Plus true Re.Dot))
    (Re.Seq (Re.lits (u " ("))
       (Re.Seq (Re.Group 2 (Re.Plus true Re.Dot))
               (Re.Atom (Re.Chr (ch ")"))))).

(** A local variable that may not have been assigned yet. *)
Definition bound (v : option str) : result str :=
  match v with
  | Some x => Ok x
  | None => Raise NameError
  end.

(** [a, b = l] *)
Definition unpack2 (l : list str) : result (str * str) :=
  match l with
  | [a; b] => Ok (a, b)
  | _ => Raise ValueError
  end.

Section Nistcsf.

  (** Which characters [\d] accepts is a matter of the Unicode tables of the
      interpreter. *)
Variable isdecimal : char -> bool.

  (** [r"Ex\d:"] *)
Definition exampleRe : Re.re :=
    Re.Seq (Re.lits (u "Ex"))
      (Re.Seq (Re.Atom (Re.Class isdecimal)) (Re.Atom (Re.Chr (ch ":")))).

  (** The body of the loop over the rows; the state is [o] and the variables
      [function] and [category]. *)
Definition nistcsf_row
             (st : dict NistFunction * option str * option str)
             (row : NistRow)
    : result (dict NistFunction * option str * option str) :=
    let '(o, function, category) := st in
    let* (o, function) :=
      if negb (Str.eqb (nist_Function row) [])
      then
        let functionSplit := split_max (nist_Function row) (u ":") 1 in
        let* head := subscript functionSplit 0 in
        let m := Re.match_ nameRe head in
        let* function := m_group m 2 in
        let* title := m_group m 1 in
        if negb (mem o function)
        then
          let* description := subscript functionSplit 1 in
          Ok (set o function (mkNistFunction title (strip description) []),
              Some function)
        else Ok (o, Some function)
      else Ok (o, function) in
    let* (o, category) :=
      if negb (Str.eqb (nist_Category row) [])
      then
        let* (categoryTitle, description) :=
          unpack2 (split_max (nist_Category row) (u ":") 1) in
        let m := Re.match_ nameRe categoryTitle in
        let* category := m_group m 2 in
        let* title := m_group m 1 in
        if negb (mem o category)
        then
          let* f := bound function in
          let* o' := update o f (fun entry =>
            Ok (mkNistFunction (nf_title entry) (nf_description entry)
                  (set (nf_children entry) category
                       (mkNistCategory title (strip description) [])))) in
          Ok (o', Some category)
        else Ok (o, Some category)
      else Ok (o, category) in
    if negb (Str.eqb (nist_Subcategory row) [])
    then
      let* head := subscript (split_max (nist_Subcategory row) (u ":") 1) 0 in
      let* f := bound function in
      let* fentry := item o f in
      let* c := bound category in
      let* centry := item (nf_children fentry) c in
      if negb (mem (nc_requirements centry) head)
      then
        let* (requirement, title) :=
          unpack2 (split_max (nist_Subcategory row) (u ":") 1) in
        let title := if startswith title (u " [Withdrawn")
                     then nist_Subcategory row else title in
        let* o' := update o f (fun fe =>
          let* children' := update (nf_children fe) c (fun ce =>
            Ok (mkNistCategory (nc_title ce) (nc_description ce)
                  (set (nc_requirements ce) requirement
                     (mkNistRequirement (strip title)
                        (Re.sub exampleRe (u "*")
                                (nist_ImplementationExamples row)))))) in
          Ok (mkNistFunction (nf_title fe) (nf_description fe) children')) in
        Ok (o', function, category)
      else Ok (o, function, category)
    else Ok (o, function, category).

Definition nistcsf_read (data : list NistRow)
    : result (dict NistFunction) :=
    let* st := rfold nistcsf_row data ([], None, None) in
    Ok (fst (fst st)).

End Nistcsf.

Definition nistcsf_itemL3 (parentL2 : Obj Topic)
           (entry : str * NistRequirement) : M unit :=
  let '(l3Key, itemL3) := entry in
  requirement <- Requirements_add
    (mkRequirement l3Key (Some (nr_title itemL3)) (nr_description itemL3)
       parentL2
       [] (Some (negb (contains (nr_title itemL3) (u "[Withdrawn"))))) ;;
  append KTopic (id requirement).

Definition nistcsf_itemL2 (parentL1 : Obj Topic)
           (entry : str * NistCategory) : M unit :=
  let '(l2Key, itemL2) := entry in
  parentL2 <- Topics_add
    (mkTopic l2Key (nc_title itemL2) (nc_description itemL2)
             (Some parentL1)) ;;
  append KTopic (id parentL2) ;;
  forM (nc_requirements itemL2) (nistcsf_itemL3 parentL2).

Definition nistcsf_itemL1 (rootTopics : list (Obj Topic))
           (entry : str * NistFunction) : M (list (Obj Topic)) :=
  let '(l1Key, itemL1) := entry in
  parentL1 <- Topics_add
    (mkTopic l1Key (nf_title itemL1) (nf_description itemL1) None) ;;
  append KTopic (id parentL1) ;;
  let rootTopics := rootTopics ++ [parentL1] in
  forM (nf_children itemL1) (nistcsf_itemL2 parentL1) ;;
  ret rootTopics.

Definition nistcsf_catalogue_title : str :=
  u "NIST Cybersecurity Framework (CSF) 2.0".

Definition emDash : str := [8212%N].

Definition nistcsf_catalogue_description : str :=
  u "The NIST Cybersecurity Framework (CSF) 2.0 provides guidance to industry, government agencies, and other organizations to manage cybersecurity risks. It offers a taxonomy of high-level cybersecurity outcomes that can be used by any organization "
  ++ emDash ++ u " regardless of its size, sector, or maturity " ++ emDash
  ++ u " to better understand, assess, prioritize, and communicate its cybersecurity efforts. The CSF does not prescribe how outcomes should be achieved. Rather, it links to online resources that provide additional guidance on practices and controls that could be used to achieve those outcomes.".

Definition nistcsf_upload (o : dict NistFunction) : M unit :=
  rootTopics <- foldM nistcsf_itemL1 o [] ;;
  catalogue <- Catalogues_add
    (mkCatalogue nistcsf_catalogue_title nistcsf_catalogue_description
                 rootTopics) ;;
  ret tt.

Definition nistcsf (isdecimal : char -> bool) (data : list NistRow)
  : M unit :=
  o <- lift (nistcsf_read isdecimal data) ;;
  try_except (nistcsf_upload o) panic.

(** *** BSI C5 *)

Record C5Row : Type := mkC5Row {
  c5_Area : str;
  c5_ID : str;
  c5_Title : str;
  c5_BasicCriteria : str;
  c5_AdditionalCriteria : str;
  c5_AboutTheCriteria : str;
  c5_ComplementaryCustomerCriteria : str;
  c5_ContinuousAuditingFeasibility : str;
  c5_ContinuousAuditing : str
}.

Record C5Item : Type := mkC5Item {
  it_Title : str;
  it_BasicCriteria : str;
  it_AdditionalCriteria : str;
  it_AboutTheCriteria : str;
  it_ComplementaryCustomerCriteria : str;
  it_ContinuousAuditingFeasibility : str;
  it_ContinuousAuditing : str
}.

Definition bullet : str := [8226%N].
Definition leftQuote : str := [8220%N].
Definition rightQuote : str := [8221%N].
Definition quote : str := [34%N].

(** [.replace("•", star).replace("“", '"').replace("”", '"')] *)
Definition plainText (star cell : str) : str :=
  replace (replace (replace cell bullet star) leftQuote quote)
          rightQuote quote.

(** The body of the loop over the rows. *)
Definition bsic5_row (o : dict (dict C5Item)) (row : C5Row)
  : result (dict (dict C5Item)) :=
  let o := if negb (mem o (c5_Area row)) then set o (c5_Area row) [] else o in
  update o (c5_Area row) (fun area =>
    Ok (set area (c5_ID row)
          (mkC5Item
             (c5_Title row)
             (plainText (u "*") (c5_BasicCriteria row))
             (plainText (u "* ") (c5_AdditionalCriteria row))
             (plainText (u "*") (c5_AboutTheCriteria row))
             (plainText (u "*") (c5_ComplementaryCustomerCriteria row))
             (plainText (u "*") (c5_ContinuousAuditingFeasibility row))
             (plainText (u "*") (c5_ContinuousAuditing row))))).

Definition bsic5_read (data : list C5Row) : result (dict (dict C5Item)) :=
  rfold bsic5_row data [].

(** [topicRe = re.compile(r"(.*?) \((.*?)\)")] *)
Definition topicRe : Re.re :=
  Re.Seq (Re.Group 1 (Re.Star false Re.Dot))
    (Re.Seq (Re.lits (u " ("))
       (Re.Seq (Re.Group 2 (Re.Star false Re.Dot))
               (Re.Atom (Re.Chr (ch ")"))))).

Definition bsic5_item (ac si1 si2 si3 si4 : Obj ExtraType)
           (parent : Obj Topic) (entry : str * C5Item) : M unit :=
  let '(ki, i) := entry in
  requirement <- Requirements_add
    (mkRequirement ki (Some (it_Title i)) (it_BasicCriteria i) parent []
                   None) ;;
  append KTopic (id requirement) ;;
  _ <- ExtraEntries_add
         (mkExtraEntry (it_AdditionalCriteria i) (id ac) (id requirement)) ;;
  _ <- ExtraEntries_add
         (mkExtraEntry (it_AboutTheCriteria i) (id si1) (id requirement)) ;;
  _ <- ExtraEntries_add
         (mkExtraEntry (it_ComplementaryCustomerCriteria i) (id si2)
                       (id requirement)) ;;
  _ <- ExtraEntries_add
         (mkExtraEntry (it_ContinuousAuditingFeasibility i) (id si3)
                       (id requirement)) ;;
  _ <- ExtraEntries_add
         (mkExtraEntry (it_ContinuousAuditing i) (id si4) (id requirement)) ;;
  ret tt.

Definition bsic5_area (ac si1 si2 si3 si4 : Obj ExtraType)
           (rootTopics : list (Obj Topic)) (entry : str * dict C5Item)
  : M (list (Obj Topic)) :=
  let '(k, v) := entry in
  let kMatch := Re.match_ topicRe k in
  group2 <- lift (m_group kMatch 2) ;;
  group1 <- lift (m_group kMatch 1) ;;
  parent <- Topics_add (mkTopic (u "C5-" ++ group2) group1 (u "-") None) ;;
  append KTopic (id parent) ;;
  let rootTopics := rootTopics ++ [parent] in
  forM v (bsic5_item ac si1 si2 si3 si4 parent) ;;
  ret rootTopics.

Definition bsic5_catalogue_title : str :=
  u "Cloud Computing Compliance Criteria Catalogue (C5:2020 Criteria)".

Definition bsic5_catalogue_description : str :=
  u "The C5 (Cloud Computing Compliance Criteria Catalogue) criteria catalogue specifies minimum requirements for secure cloud computing and is primarily intended for professional cloud providers, their auditors and customers.".

(** The [try] block of [bsic5]. *)
Definition bsic5_upload (o : dict (dict C5Item)) : M unit :=
  ac <- ExtraTypes_add (mkExtraType (u "Additional Criteria") 1 (u "-")) ;;
  append KExtraType (id ac) ;;
  si1 <- ExtraTypes_add
    (mkExtraType (u "Supplementary Information - About the Criteria")
                 1 (u "-")) ;;
  append KExtraType (id si1) ;;
  si2 <- ExtraTypes_add
    (mkExtraType
       (u "Supplementary Information - Complementary Customer Criteria")
       1 (u "-")) ;;
  append KExtraType (id si2) ;;
  si3 <- ExtraTypes_add
    (mkExtraType
       (u "Supplementary Information - Notes on Continuous Auditing - Feasibility")
       3 (u "-")) ;;
  append KExtraType (id si3) ;;
  si4 <- ExtraTypes_add
    (mkExtraType
       (u "Supplementary Information - Notes on Continuous Auditing")
       1 (u "-")) ;;
  append KExtraType (id si4) ;;
  rootTopics <- foldM (bsic5_area ac si1 si2 si3 si4) o [] ;;
  catalogue <- Catalogues_add
    (mkCatalogue bsic5_catalogue_title bsic5_catalogue_description
                 rootTopics) ;;
  ret tt.

Definition bsic5 (data : list C5Row) : M unit :=
  o <- lift (bsic5_read data) ;;
  try_except (bsic5_upload o) panic.

(** *** OWASP SAMM *)

Record SammRow : Type := mkSammRow {
  samm_ID : str;
  samm_BusinessFunction : str;
  samm_SecurityPractice : str;
  samm_Activity : str;
  samm_Maturity : str;
  samm_Question : str;
  samm_Guidance : str
}.

Record SammRequirement : Type := mkSammRequirement {
  sr_title : str;
  sr_description : str;
  sr_tag : str
}.

Record SammL3 : Type := mkSammL3 {
  s3_title : str;
  s3_requirements : dict SammRequirement
}.

Record SammL2 : Type := mkSammL2 {
  s2_title : str;
  s2_topics : dict SammL3
}.

Record SammL1 : Type := mkSammL1 {
  s1_title : str;
  s1_topics : dict SammL2
}.

(** [o[k1]["topics"][k2] = f(o[k1]["topics"][k2])] and the like, one level
    at a time. *)
Definition samm_in_L1 (o : dict SammL1) (k1 : str)
           (f : dict SammL2 -> result (dict SammL2)) : result (dict SammL1) :=
  update o k1 (fun e =>
    let* t := f (s1_topics e) in Ok (mkSammL1 (s1_title e) t)).

Definition samm_in_L2 (o : dict SammL1) (k1 k2 : str)
           (f : dict SammL3 -> result (dict SammL3)) : result (dict SammL1) :=
  samm_in_L1 o k1 (fun topics =>
    update topics k2 (fun e =>
      let* t := f (s2_topics e) in Ok (mkSammL2 (s2_title e) t))).

Definition samm_in_L3 (o : dict SammL1) (k1 k2 k3 : str)
           (f : dict SammRequirement -> result (dict SammRequirement))
  : result (dict SammL1) :=
  samm_in_L2 o k1 k2 (fun topics =>
    update topics k3 (fun e =>
      let* r := f (s3_requirements e) in Ok (mkSammL3 (s3_title e) r))).

(** The body of the loop over the rows. *)
Definition samm_row (o : dict SammL1) (row : SammRow)
  : result (dict SammL1) :=
  let ids := split (samm_ID row) (u "-") in
  let* ids0 := subscript ids 0 in
  let o := if negb (mem o ids0)
           then set o ids0 (mkSammL1 (samm_BusinessFunction row) [])
           else o in
  let* ids1 := subscript ids 1 in
  let k2 := ids0 ++ u "-" ++ ids1 in
  let* l1 := item o ids0 in
  let* o :=
    if negb (mem (s1_topics l1) k2)
    then samm_in_L1 o ids0 (fun topics =>
           Ok (set topics k2 (mkSammL2 (samm_SecurityPractice row) [])))
    else Ok o in
  let* ids2 := subscript ids 2 in
  let k3 := ids0 ++ u "-" ++ ids1 ++ u "-" ++ ids2 in
  let* l1 := item o ids0 in
  let* l2 := item (s1_topics l1) k2 in
  let* o :=
    if negb (mem (s2_topics l2) k3)
    then samm_in_L2 o ids0 k2 (fun topics =>
           Ok (set topics k3 (mkSammL3 (samm_Activity row) [])))
    else Ok o in
  samm_in_L3 o ids0 k2 k3 (fun reqs =>
    Ok (set reqs (samm_ID row)
            (mkSammRequirement (samm_Question row) (samm_Guidance row)
                               (samm_Maturity row)))).

Definition samm_read (data : list SammRow) : result (dict SammL1) :=
  rfold samm_row data [].

Definition samm_itemL4 (maturity : dict (Obj Tag)) (parentL3 : Obj Topic)
           (entry : str * SammRequirement) : M unit :=
  let '(keyL4, itemL4) := entry in
  tag <- lift (item maturity (sr_tag itemL4)) ;;
  requirement <- Requirements_add
    (mkRequirement keyL4 (Some (sr_title itemL4)) (sr_description itemL4)
                   parentL3
                   [Some tag] None) ;;
  append KRequirement (id requirement).

Definition samm_itemL3 (maturity : dict (Obj Tag)) (parentL2 : Obj Topic)
           (entry : str * SammL3) : M unit :=
  let '(keyL3, itemL3) := entry in
  parentL3 <- Topics_add
    (mkTopic keyL3 (s3_title itemL3) (u "-") (Some parentL2)) ;;
  append KTopic (id parentL3) ;;
  forM (s3_requirements itemL3) (samm_itemL4 maturity parentL3).

Definition samm_itemL2 (maturity : dict (Obj Tag)) (parentL1 : Obj Topic)
           (entry : str * SammL2) : M unit :=
  let '(keyL2, itemL2) := entry in
  parentL2 <- Topics_add
    (mkTopic keyL2 (s2_title itemL2) (u "-") (Some parentL1)) ;;
  append KTopic (id parentL2) ;;
  forM (s2_topics itemL2) (samm_itemL3 maturity parentL2).

Definition samm_itemL1 (maturity : dict (Obj Tag))
           (rootTopics : list (Obj Topic)) (entry : str * SammL1)
  : M (list (Obj Topic)) :=
  let '(keyL1, itemL1) := entry in
  parentL1 <- Topics_add (mkTopic keyL1 (s1_title itemL1) (u "-") None) ;;
  append KTopic (id parentL1) ;;
  let rootTopics := rootTopics ++ [parentL1] in
  forM (s1_topics itemL1) (samm_itemL2 maturity parentL1) ;;
  ret rootTopics.

Definition samm_catalogue_title : str :=
  u "Software Assurance Maturity Model (SAMM)".

Definition samm_catalogue_description : str :=
  u "SAMM provides an effective and measurable way for all types of organizations to analyze and improve their software security posture.".

(** The [try] block of [samm]. *)
Definition samm_upload (o : dict SammL1) : M unit :=
  let maturity : dict (Obj Tag) := [] in
  m1 <- Tags_add (mkTag (u "Maturity 1")) ;;
  let maturity := set maturity (u "1") m1 in
  append KTag (id m1) ;;
  m2 <- Tags_add (mkTag (u "Maturity 2")) ;;
  let maturity := set maturity (u "2") m2 in
  append KTag (id m2) ;;
  m3 <- Tags_add (mkTag (u "Maturity 3")) ;;
  let maturity := set maturity (u "3") m3 in
  append KTag (id m3) ;;
  rootTopics <- foldM (samm_itemL1 maturity) o [] ;;
  catalogue <- Catalogues_add
    (mkCatalogue samm_catalogue_title samm_catalogue_description
                 rootTopics) ;;
  ret tt.

Definition samm (data : list SammRow) : M unit :=
  o <- lift (samm_read data) ;;
  try_except (samm_upload o) panic.

(** *** CSA CCM *)

(** What [json.load] returned, as the [try] block reads it: each subscript
    gives its value or raises, [KeyError] on an object without the key and
    [TypeError] on a value that is no object; [ccm_domains] and
    [domain_controls] are what the [for] loops iterate over, or what the
    subscript or the iteration raises. A value that is there is a string. *)
Record CcmControl : Type := mkCcmControl {
  control_id : result str;
  control_title : result str;
  control_specification : result str
}.

Record CcmDomain : Type := mkCcmDomain {
  domain_id : result str;
  domain_title : result str;
  domain_controls : result (list CcmControl)
}.

Record Ccm : Type := mkCcm {
  ccm_name : result str;
  ccm_version : result str;
  ccm_url : result str;
  ccm_domains : result (list CcmDomain)
}.

(** A member of the downloaded archive: its name and what [zip.open] and
    [json.load] make of it, the document or the exception one of them
    raises ([RuntimeError] on an encrypted member, [BadZipFile] on a wrong
    checksum, [ValueError] on content that is no JSON). *)
Definition ZipMember : Type := (str * result Ccm)%type.

(** What [ZipFile] makes of the downloaded content: the members, or
    [BadZipFile]. *)
Definition Archive : Type := result (list ZipMember).

Definition primaryDataset : str := u "/CCM/primary-dataset.json".

(** The loop over [zip.namelist()]. *)
Definition csaccm_path (names : list str) : option str :=
  fold_left (fun path name =>
               if endswith name primaryDataset then Some name else path)
            names None.

(** [zip.open(path)] and [json.load]; of two members of one name the archive
    gives the later one. *)
Definition csaccm_load (zip : list ZipMember) (path : str) : result Ccm :=
  match find (fun member => Str.eqb (fst member) path) (rev zip) with
  | Some (_, loaded) => loaded
  | None => Raise KeyError
  end.

(** The [with] block of [csaccm]. *)
Definition csaccm_read (archive : Archive) : result Ccm :=
  let* zip := archive in
  match csaccm_path (map fst zip) with
  | None => Raise FileNotFoundError
  | Some path => csaccm_load zip path
  end.

Definition csaccm_control (parentL1 : Obj Topic) (control : CcmControl)
  : M unit :=
  key <- lift (control_id control) ;;
  title <- lift (control_title control) ;;
  description <- lift (control_specification control) ;;
  requirement <- Requirements_add
    (mkRequirement key (Some title) description parentL1 [] None) ;;
  append KRequirement (id requirement).

Definition csaccm_domain (rootTopics : list (Obj Topic)) (domain : CcmDomain)
  : M (list (Obj Topic)) :=
  key <- lift (domain_id domain) ;;
  title <- lift (domain_title domain) ;;
  parentL1 <- Topics_add (mkTopic key title (u "-") None) ;;
  append KTopic (id parentL1) ;;
  let rootTopics := rootTopics ++ [parentL1] in
  controls <- lift (domain_controls domain) ;;
  forM controls (csaccm_control parentL1) ;;
  ret rootTopics.

(** The [try] block of [csaccm]; each of the two f-strings of the catalogue
    reads [ccm['name']] and [ccm['version']]. *)
Definition csaccm_upload (ccm : Ccm) : M unit :=
  domains <- lift (ccm_domains ccm) ;;
  rootTopics <- foldM csaccm_domain domains [] ;;
  name <- lift (ccm_name ccm) ;;
  version <- lift (ccm_version ccm) ;;
  name' <- lift (ccm_name ccm) ;;
  version' <- lift (ccm_version ccm) ;;
  url <- lift (ccm_url ccm) ;;
  catalogue <- Catalogues_add
    (mkCatalogue
       (name ++ u " (" ++ version ++ u ")")
       (name' ++ u ", Version " ++ version' ++ u ". See " ++ url)
       rootTopics) ;;
  ret tt.

(** [csaccm] has the handler of [panic] written out in its [except]. *)
Definition csaccm (archive : Archive) : M unit :=
  ccm <- lift (csaccm_read archive) ;;
  try_except (csaccm_upload ccm) (fun e => rollbackAll ;; sys_exit None).

(** *** CIS Controls *)

Record CisRow : Type := mkCisRow {
  cis_Control : str;
  cis_Safeguard : str;
  cis_AssetType : str;
  cis_SecurityFunction : str;
  cis_Title : str;
  cis_Description : str;
  cis_IG1 : str;
  cis_IG2 : str;
  cis_IG3 : str
}.

Record CisRequirement : Type := mkCisRequirement {
  cr_title : str;
  cr_description : str;
  cr_asset : str;
  cr_function : str;
  cr_level : list str
}.

Record CisDomain : Type := mkCisDomain {
  cd_title : str;
  cd_description : str;
  cd_requirements : dict CisRequirement
}.

(** The dictionaries [assets] and [functions] hold [None] until the tags
    exist. *)
Definition TagTable : Type := dict (option (Obj Tag)).

(** The body of the loop over the rows; the state is [o], [assets] and
    [functions]. *)
Definition ciscontrols_row (st : dict CisDomain * TagTable * TagTable)
           (row : CisRow) : result (dict CisDomain * TagTable * TagTable) :=
  let '(o, assets, functions) := st in
  if Str.eqb (cis_Safeguard row) []
  then
    Ok (set o (u "CIS-" ++ cis_Control row)
            (mkCisDomain (cis_Title row) (cis_Description row) []),
        assets, functions)
  else
    let assets :=
      if negb (Str.eqb (cis_AssetType row) [])
         && negb (mem assets (cis_AssetType row))
      then set assets (cis_AssetType row) None
      else assets in
    let functions :=
      if negb (Str.eqb (cis_SecurityFunction row) [])
         && negb (mem assets (cis_SecurityFunction row))
      then set functions (cis_SecurityFunction row) None
      else functions in
    let level := [] in
    let level := if Str.eqb (cis_IG1 row) (u "x")
                 then level ++ [u "IG1"] else level in
    let level := if Str.eqb (cis_IG2 row) (u "x")
                 then level ++ [u "IG2"] else level in
    let level := if Str.eqb (cis_IG3 row) (u "x")
                 then level ++ [u "IG3"] else level in
    let* o' := update o (u "CIS-" ++ cis_Control row) (fun domain =>
      Ok (mkCisDomain (cd_title domain) (cd_description domain)
            (set (cd_requirements domain)
               (u "CIS-" ++ replace (cis_Safeguard row) (u ",") (u "."))
               (mkCisRequirement (cis_Title row) (cis_Description row)
                  (cis_AssetType row) (cis_SecurityFunction row) level)))) in
    Ok (o', assets, functions).

Definition ciscontrols_read (data : list CisRow)
  : result (dict CisDomain * TagTable * TagTable) :=
  rfold ciscontrols_row data ([], [], []).

(** [for k in table: table[k] = client.Tags.add(...)], with the append. *)
Definition ciscontrols_tag (table : TagTable) (k : str) : M TagTable :=
  tag <- Tags_add (mkTag k) ;;
  let table := set table k (Some tag) in
  append KTag (id tag) ;;
  ret table.

(** [for i in requirement["level"]: tags.append(igs[i])] *)
Definition ciscontrols_levels (igs : dict (Obj Tag))
           (tags : list (option (Obj Tag))) (level : list str)
  : result (list (option (Obj Tag))) :=
  rfold (fun tags i => let* tag := item igs i in Ok (tags ++ [Some tag]))
        level tags.

Definition ciscontrols_requirement (igs : dict (Obj Tag))
           (assets functions : TagTable) (parentL1 : Obj Topic)
           (entry : str * CisRequirement) : M unit :=
  let '(requirementKey, requirement) := entry in
  let tags := [] in
  function <- lift (item functions (cr_function requirement)) ;;
  let tags := tags ++ [function] in
  asset <- lift (item assets (cr_asset requirement)) ;;
  let tags := tags ++ [asset] in
  tags <- lift (ciscontrols_levels igs tags (cr_level requirement)) ;;
  requirement <- Requirements_add
    (mkRequirement requirementKey (Some (cr_title requirement))
                   (cr_description requirement) parentL1 tags None) ;;
  append KRequirement (id requirement).

Definition ciscontrols_domain (igs : dict (Obj Tag))
           (assets functions : TagTable) (rootTopics : list (Obj Topic))
           (entry : str * CisDomain) : M (list (Obj Topic)) :=
  let '(domainKey, domain) := entry in
  parentL1 <- Topics_add
    (mkTopic domainKey (cd_title domain) (cd_description domain) None) ;;
  append KTopic (id parentL1) ;;
  let rootTopics := rootTopics ++ [parentL1] in
  forM (cd_requirements domain)
       (ciscontrols_requirement igs assets functions parentL1) ;;
  ret rootTopics.

Definition ciscontrols_catalogue_title : str := u "CIS Controls Version 8".

Definition ciscontrols_catalogue_description : str :=
  u "The CIS Critical Security Controls (CIS Controls) are a prioritized set of Safeguards to mitigate the most prevalent cyber-attacks against systems and networks. They are mapped to and referenced by multiple legal, regulatory, and policy frameworks.".

(** The [try] block of [ciscontrols]; after the third tag it is the
    identifier of [igs["IG2"]] that the source appends. *)
Definition ciscontrols_upload (o : dict CisDomain) (assets functions : TagTable)
  : M unit :=
  let igs : dict (Obj Tag) := [] in
  ig1 <- Tags_add (mkTag (u "IG1")) ;;
  let igs := set igs (u "IG1") ig1 in
  recorded1 <- lift (item igs (u "IG1")) ;;
  append KTag (id recorded1) ;;
  ig2 <- Tags_add (mkTag (u "IG2")) ;;
  let igs := set igs (u "IG2") ig2 in
  recorded2 <- lift (item igs (u "IG2")) ;;
  append KTag (id recorded2) ;;
  ig3 <- Tags_add (mkTag (u "IG3")) ;;
  let igs := set igs (u "IG3") ig3 in
  recorded3 <- lift (item igs (u "IG2")) ;;
  append KTag (id recorded3) ;;
  assets <- foldM ciscontrols_tag (map fst assets) assets ;;
  functions <- foldM ciscontrols_tag (map fst functions) functions ;;
  rootTopics <- foldM (ciscontrols_domain igs assets functions) o [] ;;
  catalogue <- Catalogues_add
    (mkCatalogue ciscontrols_catalogue_title
                 ciscontrols_catalogue_description rootTopics) ;;
  ret tt.

Definition ciscontrols (data : list CisRow) : M unit :=
  parsed <- lift (ciscontrols_read data) ;;
  let '(o, assets, functions) := parsed in
  try_except (ciscontrols_upload o assets functions) panic.

(** *** BSI Grundschutz *)

Definition ae : str := [228%N].
Definition oe : str := [246%N].

Definition superseded : str := u "ENTFALLEN (".

(** [tags[requirement["tag"]] if requirement["tag"] is not None else None] *)
Definition bsi_tag (tags : dict (Obj Tag)) (tag : option str)
  : result (option (Obj Tag)) :=
  match tag with
  | Some t => let* x := item tags t in Ok (Some x)
  | None => Ok None
  end.

Definition writeBSIRequirement (tags : dict (Obj Tag))
           (parentTopic : Obj Topic) (entry : str * BSI.Requirement)
  : M unit :=
  let '(requirementKey, requirement) := entry in
  tag <- lift (bsi_tag tags (BSI.requirement_tag requirement)) ;;
  requirementReturn <- Requirements_add
    (mkRequirement requirementKey
       (Some (BSI.requirement_title requirement))
       (BSI.requirement_description requirement)
       parentTopic
       [tag]
       (Some (if startswith (BSI.requirement_title requirement) superseded
              then false else true))) ;;
  append KRequirement (id requirementReturn).

Definition writeBSITopic (tags : dict (Obj Tag))
           (buildingBlockRoot : Obj Topic) (entry : str * BSI.Topic)
  : M unit :=
  let '(topicKey, topic) := entry in
  parentTopic <- Topics_add
    (mkTopic topicKey (BSI.topic_title topic) [] (Some buildingBlockRoot)) ;;
  append KTopic (id parentTopic) ;;
  forM (BSI.requirements topic) (writeBSIRequirement tags parentTopic).

Definition writeBSIBuildingBlock (tags : dict (Obj Tag))
           (buildingBlockRoots : list (Obj Topic))
           (entry : str * BSI.BuildingBlock) : M (list (Obj Topic)) :=
  let '(buildingBlockKey, buildingBlock) := entry in
  buildingBlockRoot <- Topics_add
    (mkTopic buildingBlockKey (BSI.block_title buildingBlock) [] None) ;;
  append KTopic (id buildingBlockRoot) ;;
  let buildingBlockRoots := buildingBlockRoots ++ [buildingBlockRoot] in
  forM (BSI.children buildingBlock) (writeBSITopic tags buildingBlockRoot) ;;
  ret buildingBlockRoots.

Definition writeBSIRequirements (buildingBlocks : dict BSI.BuildingBlock)
  : M unit :=
  let tags : dict (Obj Tag) := [] in
  b <- Tags_add (mkTag (u "Basis")) ;;
  let tags := set tags (u "B") b in
  append KTag (id b) ;;
  s <- Tags_add (mkTag (u "Standard")) ;;
  let tags := set tags (u "S") s in
  append KTag (id s) ;;
  h <- Tags_add (mkTag (u "Erh" ++ oe ++ u "ht")) ;;
  let tags := set tags (u "H") h in
  append KTag (id h) ;;
  buildingBlockRoots <- foldM (writeBSIBuildingBlock tags) buildingBlocks [] ;;
  catalogue <- Catalogues_add
    (mkCatalogue (u "BSI Grundschutz Bausteine (2023)")
       (u "Anforderungsbausteine des BSI Grundschutzes (2023)")
       buildingBlockRoots) ;;
  append KCatalogue (id catalogue).

Definition Gefaehrdungen : str := u "Gef" ++ ae ++ u "hrdungen".

(** The body of the loop over the elemental threats; [elementalThreats] is
    the dictionary the source fills and does not read. *)
Definition writeElementalThreat (elementalTag : Obj Tag)
           (elementalRoot : Obj Topic) (elementalThreats : dict BSI.Threat)
           (e : BSI.Element) : M (dict BSI.Threat) :=
  text <- lift (BSI.title_line e) ;;
  let titleLine :=
    split_max (replace_count text (u "G ") (u "G") (Some 1)) (u " ") 1 in
  key <- lift (subscript titleLine 0) ;;
  title <- lift (subscript titleLine 1) ;;
  description <- lift (BSI.convertXMLDescriptionToMD e) ;;
  requirement <- Requirements_add
    (mkRequirement key (Some title) description elementalRoot
                   [Some elementalTag]
                   None) ;;
  append KRequirement (id requirement) ;;
  description' <- lift (BSI.convertXMLDescriptionToMD e) ;;
  ret (set elementalThreats key (BSI.mkThreat (Some title) description')).

Definition writeBSIThreat (topicTag : Obj Tag) (parentTopic : Obj Topic)
           (entry : str * BSI.Threat) : M unit :=
  let '(threatKey, threat) := entry in
  requirement <- Requirements_add
    (mkRequirement threatKey (BSI.threat_title threat)
                   (BSI.threat_description threat) parentTopic
                   [Some topicTag] None) ;;
  append KRequirement (id requirement).

Definition writeBSIThreatTopic (topicTag : Obj Tag)
           (buildingBlockRoot : Obj Topic) (entry : str * BSI.Topic)
  : M unit :=
  let '(topicKey, topic) := entry in
  parentTopic <- Topics_add
    (mkTopic (topicKey ++ u ".G")
             (BSI.topic_title topic ++ u " " ++ Gefaehrdungen) []
             (Some buildingBlockRoot)) ;;
  append KTopic (id parentTopic) ;;
  forM (BSI.threats topic) (writeBSIThreat topicTag parentTopic).

Definition writeBSIThreatBlock (topicTag : Obj Tag)
           (buildingBlockRoots : list (Obj Topic))
           (entry : str * BSI.BuildingBlock) : M (list (Obj Topic)) :=
  let '(buildingBlockKey, buildingBlock) := entry in
  buildingBlockRoot <- Topics_add
    (mkTopic (buildingBlockKey ++ u " (G)")
             (BSI.block_title buildingBlock ++ u " " ++ Gefaehrdungen) []
             None) ;;
  append KTopic (id buildingBlockRoot) ;;
  let buildingBlockRoots := buildingBlockRoots ++ [buildingBlockRoot] in
  forM (BSI.children buildingBlock)
       (writeBSIThreatTopic topicTag buildingBlockRoot) ;;
  ret buildingBlockRoots.

Definition writeBSIGrundschutzThreats (elementalThreatsET : list BSI.Element)
           (buildingBlocks : dict BSI.BuildingBlock) : M unit :=
  elementalTag <- Tags_add (mkTag (u "Elementar")) ;;
  append KTag (id elementalTag) ;;
  topicTag <- Tags_add (mkTag (u "Themenspezifisch")) ;;
  append KTag (id topicTag) ;;
  elementalRoot <- Topics_add
    (mkTopic (u "EG") (u "Elementare " ++ Gefaehrdungen) [] None) ;;
  append KTopic (id elementalRoot) ;;
  elementalThreats <- foldM (writeElementalThreat elementalTag elementalRoot)
                            elementalThreatsET [] ;;
  buildingBlockRoots <- foldM (writeBSIThreatBlock topicTag)
                              buildingBlocks [] ;;
  catalogue <- Catalogues_add
    (mkCatalogue (u "BSI Grundschutz " ++ Gefaehrdungen ++ u " (2023)")
       (u "Elementare und themenspezifische " ++ Gefaehrdungen
          ++ u " aus dem BSI Grundschutz (2023)")
       (buildingBlockRoots ++ [elementalRoot])) ;;
  append KCatalogue (id catalogue).

(** [bsigrundschutz], from the two lists of elements that [root.findall]
    gives. *)
Definition bsigrundschutz (requirementChapters elementalThreats
                           : list BSI.Element) : M unit :=
  buildingBlocks <- lift (BSI.readBSIBuildingBlocks requirementChapters) ;;
  try_except
    (writeBSIRequirements buildingBlocks ;;
     writeBSIGrundschutzThreats elementalThreats buildingBlocks)
    panic.

(** *** One run of the program *)

(** What a run is started on: the importer and the material it reads. *)
Inductive Source : Type :=
| Asvs (asvsData : AsvsData)
| Nistcsf (data : list NistRow)
| Bsic5 (data : list C5Row)
| Samm (data : list SammRow)
| Csaccm (archive : Archive)
| Ciscontrols (data : list CisRow)
| Bsigrundschutz (requirementChapters elementalThreats : list BSI.Element).

Definition run (isdecimal : char -> bool) (src : Source) : M unit :=
  match src with
  | Asvs asvsData => asvs asvsData
  | Nistcsf data => nistcsf isdecimal data
  | Bsic5 data => bsic5 data
  | Samm data => samm data
  | Csaccm archive => csaccm archive
  | Ciscontrols data => ciscontrols data
  | Bsigrundschutz requirementChapters elementalThreats =>
      bsigrundschutz requirementChapters elementalThreats
  end.



End Sources.

(** * Properties *)

Import ReqDB Sources.

(** ** Vocabulary of the statements *)

Definition dot : char := ch ".".

(** A key is in normalized form when each of its dot-delimited segments has
    at least two characters. *)
Definition normalized (key : str) : Prop :=
  Forall (fun n => 2 <= length n) (split key (u ".")).

Definition space : char := ch " ".

(** [buildingBlocks[c]["children"][t]], if both keys are there. *)
Definition topic_of (buildingBlocks : dict BSI.BuildingBlock) (c t : str)
  : option BSI.Topic :=
  match get buildingBlocks c with
  | Some b => get (BSI.children b) t
  | None => None
  end.

Definition newline : char := BSI.newline.

(** The three classification letters. *)
Definition classification (x : char) : Prop :=
  x = ch "B" \/ x = ch "S" \/ x = ch "H".

(** The [title] children of an element with one title, of plain text. *)
Definition plain (heading : str) : list BSI.Title :=
  [BSI.mkTitle (Some heading) []].

(** The [title] children of an element whose heading, the [.text] of its
    first [title] child, is [heading], whatever inline markup follows in
    that child and whatever other [title] children come after it. *)
Definition headed (heading inline : str) (more : list BSI.Title)
  : list BSI.Title :=
  BSI.mkTitle (Some heading) inline :: more.

(** A chapter with one topic, one threat and one requirement whose title
    carries a classification. *)
Definition sampleBody : str := u "heading" ++ [newline; newline] ++ u "text".

Definition sampleChapter : BSI.Element :=
  BSI.Elem (plain (u "SYS IT-Systeme")) sampleBody
    [BSI.Elem (plain (u "SYS.1.1 Allgemeiner Server")) sampleBody
       [BSI.Elem (plain BSI.Gefaehrdungslage) sampleBody
          [BSI.Elem (plain (u "Datenverlust")) sampleBody []];
        BSI.Elem (plain BSI.Anforderungen) sampleBody
          [BSI.Elem (plain (u "Basis-Anforderungen")) sampleBody
             [BSI.Elem (plain (u "SYS.1.1.A1 Zugriffsschutz (B)"))
                       sampleBody []]]]].

(** Three threat sections, the second with a title that is all inline
    markup, and a dictionary in which their topic has just been entered. *)
Definition sampleThreats : list BSI.Element :=
  [BSI.Elem (plain (u "Datenverlust")) sampleBody [];
   BSI.Elem [BSI.mkTitle None (u "Stromausfall")] sampleBody [];
   BSI.Elem (plain (u "Fehlbedienung")) sampleBody []].

Definition sampleBlocks : dict BSI.BuildingBlock :=
  [(u "SYS",
    BSI.mkBuildingBlock (u "IT-Systeme")
      [(u "SYS.01.01", BSI.mkTopic (u "Allgemeiner Server") [] [])])].


(** Every create in [scope], which goes by the position of the create
    among the events and by what it sends, is at once followed by the
    append of the identifier it returned to the session's list of its
    kind. *)
Definition recorded_at_once (scope : nat -> Model -> bool) (tr : list Event)
  : Prop :=
  forall n i m,
    nth_error tr n = Some (Create i m) ->
    scope n m = true ->
    nth_error tr (S n) = Some (Append (kind_of m) i).

(** No identifier is appended to the list of a kind in [never]. *)
Definition never_appended (never : Kind -> bool) (tr : list Event) : Prop :=
  forall k i, In (Append k i) tr -> never k = false.

(** The events of a run that started when the trace had [n] events. *)
Definition since (n : nat) (st : State) : list Event := skipn n (trace st).

Definition every_create (n : nat) (m : Model) : bool := true.

(** The creates an importer records in the list of their own kind: all but
    those of extra entries, those of catalogues outside the BSI Grundschutz
    run, those of requirements in the NIST CSF and BSI C5 runs, and the
    fifth event of a CIS Controls run, which is the create of the tag
    [IG3]. *)
Definition own_list (src : Source) (n : nat) (m : Model) : bool :=
  match src, kind_of m with
  | _, KExtraEntry => false
  | Bsigrundschutz _ _, KCatalogue => true
  | _, KCatalogue => false
  | Nistcsf _, KRequirement => false
  | Bsic5 _, KRequirement => false
  | Ciscontrols _, KTag => negb (n =? 4)
  | _, _ => true
  end.

(** The kinds to whose list an importer appends nothing. *)
Definition no_list (src : Source) (k : Kind) : bool :=
  match src, k with
  | _, KExtraEntry => true
  | Bsigrundschutz _ _, KCatalogue => false
  | _, KCatalogue => true
  | _, _ => false
  end.

(** One ASVS chapter with one section and one requirement that has a CWE
    reference. *)
Definition sampleAsvs : AsvsData :=
  mkAsvsData (u "Application Security Verification Standard") (u "ASVS")
    (u "The OWASP ASVS")
    [mkAsvsItemL1 (u "V1") (u "Architecture") (u "Architecture, Design")
       [mkAsvsItemL2 (u "V1.1") (u "Secure Software Development Lifecycle")
          [mkAsvsItemL3 (u "V1.1.1") (u "Verify the use of a secure SDLC.")
                        false true true [1053] []]]].

(** The two properties of a trace together. *)
Definition law (scope : nat -> Model -> bool) (never : Kind -> bool)
           (tr : list Event) : Prop :=
  recorded_at_once scope tr /\ never_appended never tr.

(** An event that at position [pos] is no create in [scope] and no append
    to a list in [never]. *)
Definition harmless (scope : nat -> Model -> bool) (never : Kind -> bool)
           (pos : nat) (e : Event) : Prop :=
  match e with
  | Create _ m => scope pos m = false
  | Append k _ => never k = false
  | Delete _ _ _ => True
  end.

(** An event that is no append. *)
Definition appended_nothing (e : Event) : Prop :=
  match e with
  | Append _ _ => False
  | _ => True
  end.

(** The identifiers appended to the list of kind [k], in order. *)
Definition appended (k : Kind) (tr : list Event) : list nat :=
  flat_map (fun e => match e with
                     | Append k' i => if Kind_eqb k' k then [i] else []
                     | _ => []
                     end) tr.

(** The session lists are the lists [rb0] of the start with the appends
    since the [n]-th event. *)
Definition lists_follow (rb0 : Rollback) (n : nat) (st : State) : Prop :=
  forall k, recorded (rollback st) k
            = recorded rb0 k ++ appended k (since n st).

(** What a run keeps true of the events since the [n]-th, the first of the
    run. *)
Definition kept (scope : nat -> Model -> bool) (never : Kind -> bool)
           (rb0 : Rollback) (n : nat) (st : State) : Prop :=
  n <= length (trace st)
  /\ law scope never (since n st)
  /\ lists_follow rb0 n st.

(** A computation that leaves [P] true, however it ends. *)
Definition preserves (P : State -> Prop) {A} (m : M A) : Prop :=
  forall st, P st -> P (snd (m st)).

(** The creates of kind [k] among some events, in order. *)
Definition created (k : Kind) (tr : list Event) : list (nat * Model) :=
  flat_map (fun e => match e with
                     | Create i m => if Kind_eqb (kind_of m) k
                                     then [(i, m)] else []
                     | _ => []
                     end) tr.

(** The entities of kind [k] the repository holds. *)
Definition held (k : Kind) (st : State) : list (nat * Model) :=
  filter (fun e => Kind_eqb (kind_of (snd e)) k) (entities st).

(** A sheet of CIS Controls with one control and one safeguard. *)
Definition sampleCis : list CisRow :=
  [mkCisRow (u "1") [] [] []
            (u "Inventory and Control of Enterprise Assets")
            (u "Actively manage all enterprise assets.") [] [] [];
   mkCisRow (u "1") (u "1,1") (u "Devices") (u "Identify")
            (u "Establish and Maintain Detailed Enterprise Asset Inventory")
            (u "Establish and maintain an accurate inventory.")
            (u "x") (u "x") (u "x")].

(** The row of the example in the specification; the other cells of the
    sheet are arguments. *)
Definition exampleC5Row (basic additional about customer feasibility
                         auditing : str) : C5Row :=
  mkC5Row (u "A (A1)") (u "A1.1") (u "T") basic additional about customer
          feasibility auditing.

(** A sheet of the NIST CSF with one function, one category and one
    subcategory. *)
Definition sampleNist : list NistRow :=
  [mkNistRow (u "GOVERN (GV): The strategy is set")
             (u "Organizational Context (GV.OC): The circumstances are understood")
             (u "GV.OC-01: The mission is known")
             (u "Ex1: Share the mission")].

(** What [json.load] returns for the document [{}]: an object without any
    of the keys. *)
Definition emptyDocument : Ccm :=
  mkCcm (Raise KeyError) (Raise KeyError) (Raise KeyError) (Raise KeyError).


Definition noDigit (c : char) : bool := false.

(** The decimal digits of ASCII, which [\d] accepts whatever else it does. *)
Definition asciiDigit (c : char) : bool := ((48 <=? c) && (c <=? 57))%N.


(** The deletes among some events. *)
Definition deletes (tr : list Event) : list Event :=
  filter (fun e => match e with Delete _ _ _ => true | _ => false end) tr.

(** The requirements of a dictionary of building blocks, in the order of
    its loops. *)
Definition bsi_requirements (buildingBlocks : dict BSI.BuildingBlock)
  : list (str * BSI.Requirement) :=
  flat_map (fun b => flat_map (fun t => BSI.requirements (snd t))
                              (BSI.children (snd b)))
           buildingBlocks.

(** The tag of a requirement is absent or one of the letters the writer has
    a tag for. *)
Definition known_tag (entry : str * BSI.Requirement) : Prop :=
  match BSI.requirement_tag (snd entry) with
  | None => True
  | Some t => In t [u "B"; u "S"; u "H"]
  end.

(** The create [c] is the one [writeBSIRequirements] issues for the entry
    [entry] of a dictionary of requirements. *)
Definition written_as (entry : str * BSI.Requirement) (c : nat * Model)
  : Prop :=
  exists parent tag,
    snd c
    = MRequirement
        (mkRequirement (fst entry)
           (Some (BSI.requirement_title (snd entry)))
           (BSI.requirement_description (snd entry))
           parent [tag]
           (Some (negb (startswith (BSI.requirement_title (snd entry))
                                   superseded))))
    /\ (BSI.requirement_tag (snd entry) = None <-> tag = None).

(** On a repository that rejects nothing, [m] ends normally, the repository
    still rejects nothing, and the requirements [m] creates are those of
    [items], one create each, in order. *)
Definition writes {A} (m : M A) (st : State)
           (items : list (str * BSI.Requirement)) : Prop :=
  exists a st' evs,
    m st = (Ok a, st')
    /\ fail_after st' = None
    /\ trace st' = trace st ++ evs
    /\ Forall2 written_as items (created KRequirement evs).

(** A dictionary with one topic and two requirements, one of them
    superseded and without a classification. *)
Definition sampleWritten : dict BSI.BuildingBlock :=
  [(u "SYS",
    BSI.mkBuildingBlock (u "IT-Systeme")
      [(u "SYS.01.01",
        BSI.mkTopic (u "Allgemeiner Server") []
          [(u "SYS.01.01.A01",
            BSI.mkRequirement (u "Zugriffsschutz (B)") (Some (u "B"))
                              (u "text"));
           (u "SYS.01.01.A02",
            BSI.mkRequirement (u "ENTFALLEN (alt)") None (u "text"))])])].

(** A text that neither starts nor ends with a whitespace character. *)
Definition trimmed (s : str) : Prop :=
  match s with [] => True | c :: _ => isspace c = false end
  /\ match rev s with [] => True | c :: _ => isspace c = false end.

(** The tag of a stored requirement is absent or one of the three letters. *)
Definition classified (r : BSI.Requirement) : Prop :=
  match BSI.requirement_tag r with
  | None => True
  | Some t => In t [u "B"; u "S"; u "H"]
  end.

Definition classified_topic (t : BSI.Topic) : Prop :=
  Forall (fun e => classified (snd e)) (BSI.requirements t).

Definition classified_block (b : BSI.BuildingBlock) : Prop :=
  Forall (fun e => classified_topic (snd e)) (BSI.children b).

Definition classified_blocks (buildingBlocks : dict BSI.BuildingBlock) : Prop :=
  Forall (fun e => classified_block (snd e)) buildingBlocks.

(** What the parser makes of the sample chapter. *)
Definition sampleParsed : dict BSI.BuildingBlock :=
  match BSI.readBSIBuildingBlocks [sampleChapter] with
  | Ok buildingBlocks => buildingBlocks
  | Raise _ => []
  end.

(** The dictionary entry the BSI C5 importer makes of a row. *)
Definition c5_item (row : C5Row) : C5Item :=
  mkC5Item
    (c5_Title row)
    (plainText (u "*") (c5_BasicCriteria row))
    (plainText (u "* ") (c5_AdditionalCriteria row))
    (plainText (u "*") (c5_AboutTheCriteria row))
    (plainText (u "*") (c5_ComplementaryCustomerCriteria row))
    (plainText (u "*") (c5_ContinuousAuditingFeasibility row))
    (plainText (u "*") (c5_ContinuousAuditing row)).

(** [o[area][id]], if both keys are there. *)
Definition c5_lookup (o : dict (dict C5Item)) (area id : str)
  : option C5Item :=
  match get o area with
  | Some items => get items id
  | None => None
  end.

(** The row is the one of area [area] and identifier [id]. *)
Definition c5_row_of (area id : str) (row : C5Row) : bool :=
  Str.eqb (c5_Area row) area && Str.eqb (c5_ID row) id.

(** The number of parts of the ID of a SAMM row. *)
Definition samm_parts (row : SammRow) : nat :=
  length (split (samm_ID row) (u "-")).

(** Every safeguard row of the sheet [data] stands below a row of its
    control, a row with a blank safeguard cell and the same control number;
    the controls of [seen] count as read before the sheet. *)
Fixpoint cis_headed (seen : list str) (data : list CisRow) : bool :=
  match data with
  | [] => true
  | row :: data' =>
      if Str.eqb (cis_Safeguard row) []
      then cis_headed (cis_Control row :: seen) data'
      else existsb (fun c => Str.eqb c (cis_Control row)) seen
           && cis_headed seen data'
  end.

(** The order of Python on strings: by the first code point that differs,
    a proper prefix first. *)
Fixpoint str_lt (a b : str) : bool :=
  match a, b with
  | _, [] => false
  | [], _ :: _ => true
  | x :: a', y :: b' => (x <? y)%N || ((x =? y)%N && str_lt a' b')
  end.

(** The order of numberings such as 1.2.10: by the first number that
    differs, a proper prefix first. *)
Fixpoint numbering_lt (a b : list nat) : bool :=
  match a, b with
  | _, [] => false
  | [], _ :: _ => true
  | x :: a', y :: b' => (x <? y) || ((x =? y) && numbering_lt a' b')
  end.

(** The numbers [ns] in decimal with dots between them, the way the sources
    write a numbering. *)
Definition numbering (ns : list nat) : str := join (u ".") (map of_nat ns).

(** The object [o] is what a create among the events [tr] returned: the
    identifier the repository gave, with the body that was sent. *)
Definition returned {B} (inj : B -> Model) (tr : list Event) (o : Obj B)
  : Prop :=
  In (Create (id o) (inj (body o))) tr.

(** The same of an object that may be [None]. *)
Definition returned_if {B} (inj : B -> Model) (tr : list Event)
           (o : option (Obj B)) : Prop :=
  match o with
  | Some x => returned inj tr x
  | None => True
  end.

(** The identifier [i] is one that a create of kind [k] among [tr]
    returned. *)
Definition assigned (k : Kind) (tr : list Event) (i : nat) : Prop :=
  exists m, kind_of m = k /\ In (Create i m) tr.

(** Whatever the model [m] refers to was returned by a create among [tr]:
    the parent of a topic or of a requirement, the tags of a requirement,
    the extra type and the requirement of an extra entry, the topics of a
    catalogue. *)
Definition resolved (tr : list Event) (m : Model) : Prop :=
  match m with
  | MTag _ => True
  | MExtraType _ => True
  | MTopic t => returned_if MTopic tr (topic_parent t)
  | MRequirement r =>
      returned MTopic tr (req_parent r)
      /\ Forall (returned_if MTag tr) (req_tags r)
  | MExtraEntry e =>
      assigned KExtraType tr (ee_extraTypeId e)
      /\ assigned KRequirement tr (ee_requirementId e)
  | MCatalogue c => Forall (returned MTopic tr) (cat_topics c)
  end.

(** Every create among [tr] refers only to what the creates before it
    returned. *)
Definition well_referenced (tr : list Event) : Prop :=
  forall pre i m post, tr = pre ++ Create i m :: post -> resolved pre m.

(** The events since the [n]-th are well referenced. *)
Definition referenced (n : nat) (st : State) : Prop :=
  n <= length (trace st) /\ well_referenced (since n st).

(** From [st] to [st'] the trace has only grown. *)
Definition grows (n : nat) (st st' : State) : Prop :=
  exists evs, since n st' = since n st ++ evs.

(** A property of the events so far that later events do not undo. *)
Definition stable (F : list Event -> Prop) : Prop :=
  forall tr evs, F tr -> F (tr ++ evs).

(** From [st], the computation [m] leaves the events well referenced
    however it ends, only adds events, and returns values for which [Q]
    holds. *)
Definition sound (n : nat) {A} (st : State) (m : M A)
           (Q : A -> State -> Prop) : Prop :=
  referenced n (snd (m st))
  /\ grows n st (snd (m st))
  /\ forall a, fst (m st) = Ok a -> Q a (snd (m st)).

(** No value of the table is a tag yet. *)
Definition unfilled (table : TagTable) : Prop :=
  Forall (fun e => snd e = None) table.

(** A computation that, when it ends normally, has only added events, no
    delete among them. *)
Definition quiet {A} (m : M A) : Prop :=
  forall st a st',
    m st = (Ok a, st') ->
    exists evs, trace st' = trace st ++ evs /\ deletes evs = [].

(** A handler that does not return. *)
Definition fatal {A} (handler : exn -> M A) : Prop :=
  forall e st, exists e' st', handler e st = (Raise e', st').

(** The key of a created topic, with the key of its parent if it has one. *)
Definition topic_link (c : nat * Model) : option (str * option str) :=
  match snd c with
  | MTopic t =>
      Some (topic_key t,
            option_map (fun p => topic_key (body p)) (topic_parent t))
  | _ => None
  end.

(** The key of a created requirement, with the key of its parent. *)
Definition requirement_link (c : nat * Model) : option (str * str) :=
  match snd c with
  | MRequirement r => Some (req_key r, topic_key (body (req_parent r)))
  | _ => None
  end.

(** An object as the create that returned it. *)
Definition as_created {B} (inj : B -> Model) (o : Obj B) : nat * Model :=
  (id o, inj (body o)).

(** A dataset of the CSA CCM of the shape the importer expects: every
    value the [try] block asks for is there. *)
Record Control : Type := mkControl {
  the_control_id : str;
  the_control_title : str;
  the_control_specification : str
}.

Record Domain : Type := mkDomain {
  the_domain_id : str;
  the_domain_title : str;
  the_domain_controls : list Control
}.

Record Dataset : Type := mkDataset {
  the_name : str;
  the_version : str;
  the_url : str;
  the_domains : list Domain
}.

(** What [json.load] returns for such a dataset. *)
Definition control_of (c : Control) : CcmControl :=
  mkCcmControl (Ok (the_control_id c)) (Ok (the_control_title c))
               (Ok (the_control_specification c)).

Definition domain_of (d : Domain) : CcmDomain :=
  mkCcmDomain (Ok (the_domain_id d)) (Ok (the_domain_title d))
              (Ok (map control_of (the_domain_controls d))).

Definition ccm_of (ds : Dataset) : Ccm :=
  mkCcm (Ok (the_name ds)) (Ok (the_version ds)) (Ok (the_url ds))
        (Ok (map domain_of (the_domains ds))).

(** A dataset with two domains, the first with two controls. *)
Definition sampleCcm : Dataset :=
  mkDataset (u "Cloud Controls Matrix") (u "4.0.10")
    (u "https://example.org")
    [mkDomain (u "A&A") (u "Audit & Assurance")
       [mkControl (u "A&A-01") (u "Policy") (u "Establish policies.");
        mkControl (u "A&A-02") (u "Assessments") (u "Conduct them.")];
     mkDomain (u "AIS") (u "Application Security") []].

(** Since the [n]-th event no catalogue has been created. *)
Definition no_catalogue (n : nat) (st : State) : Prop :=
  n <= length (trace st) /\ created KCatalogue (since n st) = [].

(** A computation that creates a catalogue only to end normally. *)
Definition late (n : nat) {A} (m : M A) : Prop :=
  forall st,
    no_catalogue n st ->
    (exists a, fst (m st) = Ok a) \/ no_catalogue n (snd (m st)).

(** The importers that create one catalogue. *)
Definition one_catalogue (src : Source) : bool :=
  match src with
  | Bsigrundschutz _ _ => false
  | _ => true
  end.

(** A sheet of CIS Controls whose one safeguard has a blank Security
    Function cell. *)
Definition sampleCisBlank : list CisRow :=
  [mkCisRow (u "1") [] [] [] (u "Inventory") (u "Know the assets.") [] [] [];
   mkCisRow (u "1") (u "1,1") (u "Devices") [] (u "Establish")
            (u "Keep an inventory.") (u "x") (u "x") (u "x")].

(** ** Proofs *)

(** ** Strings *)

Lemma eqb_eq (a b : str) : Str.eqb a b = true <-> a = b.
Proof.
  revert b; induction a as [|x a IH]; intros [|y b]; simpl;
    try (split; [discriminate | discriminate]); try tauto.
  rewrite andb_true_iff, N.eqb_eq, IH.
  split; [intros [-> ->]; reflexivity | intros H; inversion H; auto].
Qed.

Lemma eqb_refl (a : str) : Str.eqb a a = true.
Proof. apply eqb_eq; reflexivity. Qed.

Lemma eqb_neq (a b : str) : Str.eqb a b = false <-> a <> b.
Proof.
  rewrite <- eqb_eq. destruct (Str.eqb a b); split; congruence.
Qed.

Lemma startswith_nil (s : str) : startswith s [] = true.
Proof. destruct s; reflexivity. Qed.

Section OneCharacterSeparator.

Variable c : char.

Lemma split_sep (s : str) : split (c :: s) [c] = [] :: split s [c].
  Proof.
    unfold split; simpl. rewrite N.eqb_refl, startswith_nil. reflexivity.
  Qed.

Lemma split_other (x : char) (s : str) :
    x <> c -> split (x :: s) [c] = cons_hd x (split s [c]).
  Proof.
    intros H. unfold split; simpl.
    destruct (N.eqb_spec c x); [congruence | reflexivity].
  Qed.

Lemma split_not_nil (s : str) : split s [c] <> [].
  Proof.
    destruct s as [|x s]; [discriminate|].
    destruct (N.eq_dec x c) as [->|H].
    - rewrite split_sep; discriminate.
    - rewrite split_other by assumption.
      destruct (split s [c]); discriminate.
  Qed.

Lemma split_free (x : str) : ~ In c x -> split x [c] = [x].
  Proof.
    induction x as [|a x IH]; intros H; [reflexivity|].
    rewrite split_other by (intros ->; apply H; left; reflexivity).
    rewrite IH by (intros H'; apply H; right; exact H').
    reflexivity.
  Qed.

Lemma split_app (x r : str) :
    ~ In c x -> split (x ++ c :: r) [c] = x :: split r [c].
  Proof.
    induction x as [|a x IH]; intros H; simpl.
    - apply split_sep.
    - rewrite split_other by (intros ->; apply H; left; reflexivity).
      rewrite IH by (intros H'; apply H; right; exact H').
      reflexivity.
  Qed.

Lemma split_pieces_free (s : str) : Forall (fun x => ~ In c x) (split s [c]).
  Proof.
    induction s as [|a s IH]; [repeat constructor; intros []|].
    destruct (N.eq_dec a c) as [->|H].
    - rewrite split_sep. constructor; [intros []|assumption].
    - rewrite split_other by assumption.
      destruct (split s [c]) as [|h t]; simpl.
      + repeat constructor. intros [E|[]]; congruence.
      + inversion IH; subst. constructor; [|assumption].
        intros [E|E]; [congruence|contradiction].
  Qed.

Lemma split_join (l : list str) :
    l <> [] -> Forall (fun x => ~ In c x) l -> split (join [c] l) [c] = l.
  Proof.
    induction l as [|x l IH]; intros Hne Hall; [congruence|].
    inversion Hall as [|? ? Hx Hl]; subst.
    destruct l as [|y l].
    - simpl. apply split_free; assumption.
    - change (join [c] (x :: y :: l)) with (x ++ c :: join [c] (y :: l)).
      rewrite split_app by assumption.
      rewrite IH by (assumption || discriminate). reflexivity.
  Qed.

End OneCharacterSeparator.

Lemma zfill_long (s : str) (w : nat) : w <= length s -> zfill s w = s.
Proof.
  intros H. unfold zfill.
  destruct (Nat.leb_spec w (length s)); [reflexivity | lia].
Qed.

Lemma zfill_length (s : str) (w : nat) : w <= length (zfill s w).
Proof.
  unfold zfill. destruct (Nat.leb_spec w (length s)) as [H|H]; [assumption|].
  destruct s as [|a s]; simpl.
  - rewrite repeat_length; lia.
  - destruct (is_sign a); simpl; rewrite length_app, repeat_length;
      simpl in *; lia.
Qed.

Lemma zfill_free (c : char) (s : str) (w : nat) :
  c <> ch "0" -> ~ In c s -> ~ In c (zfill s w).
Proof.
  intros Hc Hs. unfold zfill.
  destruct (w <=? length s); [assumption|].
  assert (Hfill : forall n, ~ In c (repeat (ch "0") n)).
  { intros n Hin. apply repeat_spec in Hin. congruence. }
  destruct s as [|a s]; [apply Hfill|].
  destruct (is_sign a).
  - intros [E|Hin]; [apply Hs; left; exact E|].
    apply in_app_or in Hin. destruct Hin as [Hin|Hin];
      [exact (Hfill _ Hin) | apply Hs; right; exact Hin].
  - intros Hin. apply in_app_or in Hin. destruct Hin as [Hin|Hin];
      [exact (Hfill _ Hin) | exact (Hs Hin)].
Qed.

(** ** Key normalization *)

Lemma zeroPadKey_pieces (key : str) :
  split (zeroPadKey key) (u ".") = map (fun n => zfill n 2) (split key (u ".")).
Proof.
  unfold zeroPadKey. change (u ".") with [dot].
  apply split_join.
  - pose proof (split_not_nil dot key) as H.
    destruct (split key [dot]); [congruence | discriminate].
  - pose proof (split_pieces_free dot key) as H.
    induction H as [|x l Hx Hl IH]; simpl; constructor; [|assumption].
    apply zfill_free; [discriminate | assumption].
Qed.

Lemma zeroPadKey_normalized (key : str) : normalized (zeroPadKey key).
Proof.
  unfold normalized. rewrite zeroPadKey_pieces.
  induction (split key (u ".")); simpl; constructor;
    [apply zfill_length | assumption].
Qed.

Lemma join_split (c : char) (s : str) : join [c] (split s [c]) = s.
Proof.
  induction s as [|a s IH]; [reflexivity|].
  destruct (N.eq_dec a c) as [->|H].
  - rewrite split_sep.
    pose proof (split_not_nil c s) as Hne.
    destruct (split s [c]) as [|h t] eqn:E; [congruence|].
    change (join [c] ([] :: h :: t)) with (c :: join [c] (h :: t)).
    rewrite IH. reflexivity.
  - rewrite split_other by assumption.
    pose proof (split_not_nil c s) as Hne.
    destruct (split s [c]) as [|h t] eqn:E; [congruence|].
    simpl. destruct t; simpl in *; rewrite <- IH; reflexivity.
Qed.

Lemma zeroPadKey_fixes_normalized (key : str) :
  normalized key -> zeroPadKey key = key.
Proof.
  unfold normalized, zeroPadKey. intros H.
  assert (E : map (fun n => zfill n 2) (split key (u ".")) = split key (u ".")).
  { induction H as [|x l Hx Hl IH]; simpl; [reflexivity|].
    rewrite zfill_long by assumption. rewrite IH. reflexivity. }
  rewrite E. apply (join_split dot).
Qed.

(** C9. Zero-padding each dot-delimited segment of a key to width 2 is
    idempotent: a key that is the result of the normalization, and more
    generally every key whose segments all have at least two characters, is
    returned unchanged. *)
Theorem zeroPadKey_idempotent :
  (forall key, zeroPadKey (zeroPadKey key) = zeroPadKey key)
  /\ (forall key, normalized key -> zeroPadKey key = key).
Proof.
  split.
  - intros key. apply zeroPadKey_fixes_normalized, zeroPadKey_normalized.
  - apply zeroPadKey_fixes_normalized.
Qed.

(** ** Dictionaries *)

Lemma get_set_same {V} (d : dict V) (k : str) (v : V) :
  get (set d k v) k = Some v.
Proof.
  induction d as [|[k' v'] d IH]; simpl.
  - rewrite eqb_refl. reflexivity.
  - destruct (Str.eqb k' k) eqn:E; simpl; rewrite E; [reflexivity | exact IH].
Qed.

Lemma get_set_other {V} (d : dict V) (k k' : str) (v : V) :
  k <> k' -> get (set d k v) k' = get d k'.
Proof.
  intros H. induction d as [|[k0 v0] d IH]; simpl.
  - destruct (Str.eqb k k') eqn:E; [apply eqb_eq in E; congruence | reflexivity].
  - destruct (Str.eqb k0 k) eqn:E; simpl.
    + apply eqb_eq in E; subst k0.
      destruct (Str.eqb k k') eqn:E'; [apply eqb_eq in E'; congruence|].
      reflexivity.
    + destruct (Str.eqb k0 k'); [reflexivity | exact IH].
Qed.

Lemma set_fresh {V} (d : dict V) (k : str) (v : V) :
  get d k = None -> set d k v = d ++ [(k, v)].
Proof.
  induction d as [|[k' v'] d IH]; simpl; [reflexivity|].
  destruct (Str.eqb k' k); [discriminate|].
  intros H. rewrite IH by assumption. reflexivity.
Qed.

Lemma get_app_fresh {V} (d : dict V) (k k' : str) (v : V) :
  get d k' = None -> k <> k' -> get (d ++ [(k, v)]) k' = None.
Proof.
  intros Hd Hk. induction d as [|[k0 v0] d IH]; simpl in *.
  - destruct (Str.eqb k k') eqn:E; [apply eqb_eq in E; congruence | reflexivity].
  - destruct (Str.eqb k0 k'); [discriminate | auto].
Qed.

Lemma update_spec {V} (d : dict V) (k : str) (f : V -> result V) (v v' : V) :
  get d k = Some v -> f v = Ok v' -> update d k f = Ok (set d k v').
Proof.
  intros Hg Hf. unfold update, item. rewrite Hg. simpl. rewrite Hf. reflexivity.
Qed.

(** ** The BSI Grundschutz parser *)

Lemma set_threat_spec bb c t k v topic :
  topic_of bb c t = Some topic ->
  exists bb',
    BSI.set_threat bb c t k v = Ok bb'
    /\ topic_of bb' c t
       = Some (BSI.mkTopic (BSI.topic_title topic)
                           (set (BSI.threats topic) k v)
                           (BSI.requirements topic)).
Proof.
  unfold topic_of, BSI.set_threat. intros H.
  destruct (get bb c) as [b|] eqn:Hb; [|discriminate].
  eexists. split.
  - eapply update_spec; [exact Hb|].
    erewrite update_spec; [|exact H|reflexivity]. reflexivity.
  - rewrite get_set_same. simpl. apply get_set_same.
Qed.

Lemma set_requirement_spec bb c t k v topic :
  topic_of bb c t = Some topic ->
  exists bb',
    BSI.set_requirement bb c t k v = Ok bb'
    /\ topic_of bb' c t
       = Some (BSI.mkTopic (BSI.topic_title topic)
                           (BSI.threats topic)
                           (set (BSI.requirements topic) k v)).
Proof.
  unfold topic_of, BSI.set_requirement. intros H.
  destruct (get bb c) as [b|] eqn:Hb; [|discriminate].
  eexists. split.
  - eapply update_spec; [exact Hb|].
    erewrite update_spec; [|exact H|reflexivity]. reflexivity.
  - rewrite get_set_same. simpl. apply get_set_same.
Qed.

(** *** Splitting a heading at its first space *)

Lemma split_aux_exhausted (sep s : str) :
  split_aux sep (Some 0) 0 s = [s].
Proof.
  induction s as [|a s IH]; [reflexivity|].
  simpl. rewrite IH. reflexivity.
Qed.

Lemma split_heading (c : char) (code rest : str) :
  ~ In c code -> split_max (code ++ c :: rest) [c] 1 = [code; rest].
Proof.
  unfold split_max. induction code as [|a code IH]; intros H; simpl.
  - rewrite N.eqb_refl, startswith_nil. simpl.
    rewrite split_aux_exhausted. reflexivity.
  - destruct (N.eqb_spec c a) as [->|Hne]; [exfalso; apply H; left; reflexivity|].
    simpl. rewrite IH by (intros H'; apply H; right; exact H'). reflexivity.
Qed.

(** What the loop over [requirementSections] does with one heading
    [code title]: the entry it stores keeps the text after the first space
    as it is. *)
Lemma readRequirement_stores c t bb topic code title inline more p secs key
      description :
  ~ In space code ->
  topic_of bb c t = Some topic ->
  BSI.requirementKey
    (if Str.eqb code BSI.malformedCode then BSI.correctedCode else code)
  = Ok key ->
  BSI.convertXMLDescriptionToMD (BSI.Elem (headed (code ++ space :: title) inline more) p secs)
  = Ok description ->
  exists bb',
    BSI.readRequirement c t bb (BSI.Elem (headed (code ++ space :: title) inline more) p secs)
    = Ok bb'
    /\ topic_of bb' c t
       = Some (BSI.mkTopic (BSI.topic_title topic) (BSI.threats topic)
                 (set (BSI.requirements topic) key
                    (BSI.mkRequirement title (BSI.requirementTag title)
                                       description))).
Proof.
  intros Hcode Htopic Hkey Hdesc.
  unfold headed in *.
  unfold BSI.readRequirement, BSI.title_line, BSI.title_text.
  cbn [BSI.titles BSI.text rbind].
  change (u " ") with [space]. rewrite split_heading by assumption.
  unfold subscript. cbn [nth_error rbind].
  rewrite Hkey. cbn [rbind]. rewrite Hdesc. cbn [rbind].
  apply set_requirement_spec. exact Htopic.
Qed.

(** *** The classification tag *)

Lemma star_greedy_prefix {X} (a : Re.atom) (p rest : str)
      (k : str -> option X) (x : X) :
  Forall (fun c => Re.accepts a c = true) p ->
  Re.star_greedy a rest k = Some x ->
  Re.star_greedy a (p ++ rest) k = Some x.
Proof.
  intros Hp Hrest. induction Hp as [|c p Hc Hp IH]; simpl; [exact Hrest|].
  rewrite Hc, IH. reflexivity.
Qed.

Lemma requirementTag_suffix (p : str) (x : char) :
  classification x -> ~ In newline p ->
  BSI.requirementTag (p ++ u " (" ++ [x] ++ u ")") = Some [x].
Proof.
  intros Hx Hp.
  assert (Hdots : Forall (fun c => Re.accepts Re.Dot c = true) p).
  { apply Forall_forall. intros c Hc. simpl.
    destruct (N.eqb_spec c 10) as [->|]; [contradiction | reflexivity]. }
  unfold BSI.requirementTag, Re.match_, BSI.tagRe.
  cbn [Re.run Re.star].
  destruct Hx as [->|[->| ->]];
    (erewrite star_greedy_prefix; [| exact Hdots |]; cycle 1;
     [reflexivity | reflexivity]).
Qed.

Lemma requirementTag_unmatched (title : str) :
  Re.match_ BSI.tagRe title = None -> BSI.requirementTag title = None.
Proof. unfold BSI.requirementTag. intros ->. reflexivity. Qed.

Lemma star_greedy_fails {X} (a : Re.atom) (k : str -> option X)
      (Q : str -> Prop) :
  (forall c s, Q (c :: s) -> Q s) ->
  (forall s, Q s -> k s = None) ->
  forall s, Q s -> Re.star_greedy a s k = None.
Proof.
  intros Htail Hk s. induction s as [|c s IH]; intros H; simpl.
  - apply Hk, H.
  - rewrite IH by (eapply Htail, H). rewrite Hk by exact H.
    destruct (Re.accepts a c); reflexivity.
Qed.

Lemma run_seq_star {X} (a : Re.atom) (r : Re.re) (s : str) (g : Re.groups)
      (k : str -> Re.groups -> option X) :
  Re.run (Re.Seq (Re.Star true a) r) s g k
  = Re.star_greedy a s (fun s' => Re.run r s' g k).
Proof. reflexivity. Qed.

Lemma tagRe_needs_parenthesis (title : str) :
  ~ In (ch "(") title -> Re.match_ BSI.tagRe title = None.
Proof.
  unfold Re.match_, BSI.tagRe. rewrite run_seq_star.
  apply star_greedy_fails with (Q := fun s => ~ In (ch "(") s).
  - intros c s H H'. apply H. right. exact H'.
  - intros [|c s] H; [reflexivity|].
    cbn [Re.run Re.accepts].
    destruct (N.eqb_spec c (ch "(")) as [->|]; [|reflexivity].
    exfalso. apply H. left. reflexivity.
Qed.


(** C5, as the code has it. A title that ends in [ (X)], with [X] one of the
    letters B, S and H and no line break before it, gets the tag [X]; a title
    the pattern does not match, and so every title without an opening
    parenthesis, gets no tag; in both cases the requirement is stored, and
    its title is the text of the heading after the code as it stands, the
    parenthetical included. *)
Theorem requirement_tag_recorded_title_kept :
  (forall p x, classification x -> ~ In newline p ->
               BSI.requirementTag (p ++ u " (" ++ [x] ++ u ")") = Some [x])
  /\ (forall title, Re.match_ BSI.tagRe title = None ->
                    BSI.requirementTag title = None)
  /\ (forall title, ~ In (ch "(") title -> BSI.requirementTag title = None)
  /\ (forall c t bb topic code title inline more p secs key description,
         ~ In space code ->
         topic_of bb c t = Some topic ->
         BSI.requirementKey
           (if Str.eqb code BSI.malformedCode then BSI.correctedCode else code)
         = Ok key ->
         BSI.convertXMLDescriptionToMD
           (BSI.Elem (headed (code ++ space :: title) inline more) p secs)
         = Ok description ->
         exists bb',
           BSI.readRequirement c t bb
             (BSI.Elem (headed (code ++ space :: title) inline more) p secs)
           = Ok bb'
           /\ topic_of bb' c t
              = Some (BSI.mkTopic (BSI.topic_title topic) (BSI.threats topic)
                        (set (BSI.requirements topic) key
                           (BSI.mkRequirement title (BSI.requirementTag title)
                                              description)))).
Proof.
  split; [exact requirementTag_suffix|].
  split; [exact requirementTag_unmatched|].
  split.
  - intros title H. apply requirementTag_unmatched, tagRe_needs_parenthesis, H.
  - intros. eapply readRequirement_stores; eassumption.
Qed.

(** C5 as the specification words it fails: the parenthetical stays in the
    stored title. *)
Lemma classification_left_in_title :
  exists bb topic r,
    BSI.readBSIBuildingBlocks [sampleChapter] = Ok bb
    /\ topic_of bb (u "SYS") (u "SYS.01.01") = Some topic
    /\ get (BSI.requirements topic) (u "SYS.01.01.A01") = Some r
    /\ BSI.requirement_tag r = Some (u "B")
    /\ BSI.requirement_title r = u "Zugriffsschutz (B)"
    /\ BSI.requirement_title r <> u "Zugriffsschutz".
Proof.
  do 3 eexists.
  split; [vm_compute; reflexivity|].
  split; [vm_compute; reflexivity|].
  split; [vm_compute; reflexivity|].
  split; [reflexivity|].
  split; [reflexivity|].
  vm_compute. discriminate.
Qed.

(** *** Threat keys *)

Lemma of_uint_inj (a b : Decimal.uint) :
  Str.of_uint a = Str.of_uint b -> a = b.
Proof.
  revert b. induction a as [|a IH|a IH|a IH|a IH|a IH|a IH|a IH|a IH|a IH|a IH];
    intros [|b|b|b|b|b|b|b|b|b|b] H; cbn in H;
    try discriminate; try reflexivity;
    injection H as H; f_equal; apply IH; exact H.
Qed.

Lemma zeros_of_uint (k : nat) (d : Decimal.uint) :
  repeat (ch "0") k ++ Str.of_uint d = Str.of_uint (Nat.iter k Decimal.D0 d).
Proof.
  induction k as [|k IH]; [reflexivity|].
  cbn [repeat app Nat.iter nat_rect]. rewrite IH. reflexivity.
Qed.

Lemma of_uint_zeros (k : nat) (d : Decimal.uint) :
  Nat.of_uint (Nat.iter k Decimal.D0 d) = Nat.of_uint d.
Proof.
  induction k as [|k IH]; [reflexivity|].
  cbn [Nat.iter nat_rect]. rewrite <- IH. reflexivity.
Qed.

Lemma format_02_inj (i j : nat) : format_02 i = format_02 j -> i = j.
Proof.
  unfold format_02, of_nat. rewrite !zeros_of_uint. intros H.
  apply of_uint_inj in H. apply (f_equal Nat.of_uint) in H.
  rewrite !of_uint_zeros, !DecimalNat.Unsigned.of_to in H. exact H.
Qed.

Lemma threatKey_inj (t : str) (i j : nat) :
  BSI.threatKey t i = BSI.threatKey t j -> i = j.
Proof.
  unfold BSI.threatKey. intros H.
  apply app_inv_head in H. apply app_inv_head in H.
  apply format_02_inj, H.
Qed.

Lemma readThreats_from c t ths : forall entries bb topic i,
  topic_of bb c t = Some topic ->
  (forall j, i <= j -> get (BSI.threats topic) (BSI.threatKey t j) = None) ->
  Forall2 (fun th e =>
             BSI.title_text th = Ok (BSI.threat_title e)
             /\ BSI.convertXMLDescriptionToMD th
                = Ok (BSI.threat_description e))
          ths entries ->
  exists bb',
    rfold (BSI.readThreat c t) ths (bb, i) = Ok (bb', i + length ths)
    /\ topic_of bb' c t
       = Some (BSI.mkTopic (BSI.topic_title topic)
                 (BSI.threats topic
                  ++ combine (map (BSI.threatKey t) (seq i (length ths)))
                             entries)
                 (BSI.requirements topic)).
Proof.
  induction ths as [|th ths IH]; intros entries bb topic i Htopic Hfresh Hall.
  - inversion Hall; subst. exists bb. simpl.
    rewrite Nat.add_0_r, app_nil_r. destruct topic; auto.
  - inversion Hall as [|? e ? entries' [Htitle Hmd] Hrest]; subst.
    destruct (set_threat_spec bb c t (BSI.threatKey t i) e Htopic)
      as [bb1 [Hset Htopic1]].
    assert (Hstep : BSI.readThreat c t (bb, i) th = Ok (bb1, i + 1)).
    { unfold BSI.readThreat. rewrite Htitle.
      cbn [rbind]. rewrite Hmd. cbn [rbind].
      destruct e as [tt dd]; simpl in *. rewrite Hset. reflexivity. }
    rewrite set_fresh in Htopic1 by (apply Hfresh; lia).
    destruct (IH entries' bb1 _ (i + 1) Htopic1) as [bb' [Hrun Htopic']].
    + intros j Hj. simpl. apply get_app_fresh; [apply Hfresh; lia|].
      intros E. apply threatKey_inj in E. lia.
    + exact Hrest.
    + exists bb'. split.
      * cbn [rfold]. rewrite Hstep. cbn [rbind]. rewrite Hrun.
        f_equal. f_equal. simpl. lia.
      * rewrite Htopic'. simpl. rewrite <- app_assoc.
        replace (i + 1) with (S i) by lia. reflexivity.
Qed.

Lemma rbind_ok {A B} (r : result A) (f : A -> result B) (b : B) :
  rbind r f = Ok b -> exists a, r = Ok a /\ f a = Ok b.
Proof. destruct r as [a|e]; simpl; [eauto | discriminate]. Qed.

Lemma set_topic_spec bb c t topic bb' :
  BSI.set_topic bb c t topic = Ok bb' -> topic_of bb' c t = Some topic.
Proof.
  unfold BSI.set_topic, update, item, topic_of.
  destruct (get bb c) as [b|]; simpl; [|discriminate].
  intros H. injection H as <-.
  rewrite get_set_same. simpl. apply get_set_same.
Qed.

Lemma readThreats_readable c t ths : forall bb i st,
  rfold (BSI.readThreat c t) ths (bb, i) = Ok st ->
  exists entries,
    Forall2 (fun th e =>
               BSI.title_text th = Ok (BSI.threat_title e)
               /\ BSI.convertXMLDescriptionToMD th
                  = Ok (BSI.threat_description e))
            ths entries.
Proof.
  induction ths as [|th ths IH]; intros bb i st H.
  - exists []. constructor.
  - cbn [rfold] in H. apply rbind_ok in H. destruct H as [[bb1 i1] [Hstep Hrest]].
    unfold BSI.readThreat in Hstep.
    destruct (BSI.title_text th) as [titleLine|] eqn:Htitle; [|discriminate].
    cbn [rbind] in Hstep.
    destruct (BSI.convertXMLDescriptionToMD th) as [d|] eqn:Hmd; [|discriminate].
    destruct (IH _ _ _ Hrest) as [entries Hall].
    exists (BSI.mkThreat titleLine d :: entries).
    constructor; [split; [exact Htitle | exact Hmd] | exact Hall].
Qed.

Lemma readRequirement_keeps_threats c t r bb bb' topic :
  BSI.readRequirement c t bb r = Ok bb' ->
  topic_of bb c t = Some topic ->
  exists topic',
    topic_of bb' c t = Some topic'
    /\ BSI.threats topic' = BSI.threats topic.
Proof.
  unfold BSI.readRequirement. intros H Htopic.
  do 5 (apply rbind_ok in H; destruct H as [? [_ H]]).
  edestruct set_requirement_spec as [bb1 [Hset Htopic1]]; [exact Htopic|].
  rewrite Hset in H. injection H as <-.
  eexists. split; [exact Htopic1 | reflexivity].
Qed.

Lemma readRequirements_keep_threats c t rs : forall bb bb' topic,
  rfold (BSI.readRequirement c t) rs bb = Ok bb' ->
  topic_of bb c t = Some topic ->
  exists topic',
    topic_of bb' c t = Some topic'
    /\ BSI.threats topic' = BSI.threats topic.
Proof.
  induction rs as [|r rs IH]; intros bb bb' topic H Htopic.
  - injection H as <-. eauto.
  - cbn [rfold] in H. apply rbind_ok in H. destruct H as [bb1 [Hstep Hrest]].
    destruct (readRequirement_keeps_threats _ _ _ _ Hstep Htopic)
      as [topic1 [Htopic1 Hsame1]].
    destruct (IH _ _ _ Hrest Htopic1) as [topic' [Htopic' Hsame']].
    exists topic'. split; [exact Htopic' | congruence].
Qed.

(** The same for a whole topic section: whenever [readTopic] returns, the
    topic it stored has exactly the positional threat keys. *)
Lemma readTopic_threat_keys c bb t bb' :
  BSI.readTopic c bb t = Ok bb' ->
  exists text rawKey entries topic,
    BSI.title_line t = Ok text
    /\ nth_error (split_max text (u " ") 1) 0 = Some rawKey
    /\ Forall2 (fun th e =>
                  BSI.title_text th = Ok (BSI.threat_title e)
                  /\ BSI.convertXMLDescriptionToMD th
                     = Ok (BSI.threat_description e))
               (BSI.titled_subsections BSI.Gefaehrdungslage t) entries
    /\ topic_of bb' c (zeroPadKey rawKey) = Some topic
    /\ BSI.threats topic
       = combine (map (fun i => zeroPadKey rawKey ++ u ".G" ++ format_02 i)
                      (seq 1 (length (BSI.titled_subsections
                                        BSI.Gefaehrdungslage t))))
                 entries.
Proof.
  unfold BSI.readTopic. intros H.
  destruct (BSI.title_line t) as [text|] eqn:Htitle; [|discriminate].
  cbn [rbind] in H.
  apply rbind_ok in H. destruct H as [rawKey [Hraw H]].
  apply rbind_ok in H. destruct H as [topicTitle [_ H]].
  apply rbind_ok in H. destruct H as [bb1 [Hset H]].
  apply rbind_ok in H. destruct H as [[bb2 n] [Hthreats Hreqs]].
  apply set_topic_spec in Hset.
  destruct (readThreats_readable _ _ _ _ _ Hthreats) as [entries Hall].
  edestruct readThreats_from with (i := 1) as [bb2' [Hrun Htopic2]];
    [exact Hset | | exact Hall |].
  { intros j _. reflexivity. }
  rewrite Hthreats in Hrun. injection Hrun as <- _.
  destruct (readRequirements_keep_threats _ _ _ _ Hreqs Htopic2)
    as [topic' [Htopic' Hsame]].
  exists text, rawKey, entries, topic'.
  split; [reflexivity|].
  split.
  { unfold subscript in Hraw.
    destruct (nth_error (split_max text (u " ") 1) 0); [|discriminate].
    injection Hraw as ->. reflexivity. }
  split; [exact Hall|].
  split; [exact Htopic'|].
  rewrite Hsame. reflexivity.
Qed.

Lemma readThreats_positional c t bb topic ths entries :
  topic_of bb c t = Some topic ->
  BSI.threats topic = [] ->
  Forall2 (fun th e =>
             BSI.title_text th = Ok (BSI.threat_title e)
             /\ BSI.convertXMLDescriptionToMD th
                = Ok (BSI.threat_description e))
          ths entries ->
  exists bb',
    rfold (BSI.readThreat c t) ths (bb, 1) = Ok (bb', 1 + length ths)
    /\ topic_of bb' c t
       = Some (BSI.mkTopic (BSI.topic_title topic)
                 (combine (map (fun i => t ++ u ".G" ++ format_02 i)
                               (seq 1 (length ths)))
                          entries)
                 (BSI.requirements topic)).
Proof.
  intros Htopic Hempty Hall.
  edestruct readThreats_from with (i := 1) as [bb' [Hrun Htopic']];
    [exact Htopic | | exact Hall |].
  - intros j _. rewrite Hempty. reflexivity.
  - exists bb'. split; [exact Hrun|].
    rewrite Htopic', Hempty. reflexivity.
Qed.

(** C3. In a topic whose threats section has the leaf sections [ths], the
    parser gives them the keys [{topicKey}.G01], [{topicKey}.G02], ... (the
    position, zero-filled to width 2) in document order: the dictionary of
    threats pairs the key of each position with the title and the
    description of the section at that position, so another order of the
    sections puts other contents under the same keys. The title is the
    [.text] of the heading as it is, so a leaf whose heading has no text of
    its own is keyed like any other, with the title [None]. The first part
    is the loop over the threat sections of a topic that has just been
    entered, the second part a whole topic section that the parser reads to
    its end; its threat sections are the [section] children of those
    children that have a [title] child with the joined text
    [Gefaehrdungslage]. *)
Theorem threat_keys_follow_document_order :
  (forall c t bb topic ths entries,
      topic_of bb c t = Some topic ->
      BSI.threats topic = [] ->
      Forall2 (fun th e =>
                 BSI.title_text th = Ok (BSI.threat_title e)
                 /\ BSI.convertXMLDescriptionToMD th
                    = Ok (BSI.threat_description e))
              ths entries ->
      exists bb',
        rfold (BSI.readThreat c t) ths (bb, 1) = Ok (bb', 1 + length ths)
        /\ topic_of bb' c t
           = Some (BSI.mkTopic (BSI.topic_title topic)
                     (combine (map (fun i => t ++ u ".G" ++ format_02 i)
                                   (seq 1 (length ths)))
                              entries)
                     (BSI.requirements topic)))
  /\ (forall c bb t bb',
         BSI.readTopic c bb t = Ok bb' ->
         exists text rawKey entries topic,
           BSI.title_line t = Ok text
           /\ nth_error (split_max text (u " ") 1) 0 = Some rawKey
           /\ Forall2 (fun th e =>
                         BSI.title_text th = Ok (BSI.threat_title e)
                         /\ BSI.convertXMLDescriptionToMD th
                            = Ok (BSI.threat_description e))
                      (BSI.titled_subsections BSI.Gefaehrdungslage t) entries
           /\ topic_of bb' c (zeroPadKey rawKey) = Some topic
           /\ BSI.threats topic
              = combine
                  (map (fun i => zeroPadKey rawKey ++ u ".G" ++ format_02 i)
                       (seq 1 (length (BSI.titled_subsections
                                         BSI.Gefaehrdungslage t))))
                  entries).
Proof.
  split.
  - intros. eapply readThreats_positional; eassumption.
  - intros. eapply readTopic_threat_keys; eassumption.
Qed.

Lemma threat_keys_follow_document_order_witness :
  exists bb',
    rfold (BSI.readThreat (u "SYS") (u "SYS.01.01")) sampleThreats
          (sampleBlocks, 1)
    = Ok (bb', 4)
    /\ topic_of bb' (u "SYS") (u "SYS.01.01")
       = Some (BSI.mkTopic (u "Allgemeiner Server")
                 [(u "SYS.01.01.G01",
                   BSI.mkThreat (Some (u "Datenverlust")) (u "text"));
                  (u "SYS.01.01.G02", BSI.mkThreat None (u "text"));
                  (u "SYS.01.01.G03",
                   BSI.mkThreat (Some (u "Fehlbedienung")) (u "text"))]
                 []).
Proof.
  apply (proj1 threat_keys_follow_document_order
               (u "SYS") (u "SYS.01.01") sampleBlocks
               (BSI.mkTopic (u "Allgemeiner Server") [] [])
               sampleThreats
               [BSI.mkThreat (Some (u "Datenverlust")) (u "text");
                BSI.mkThreat None (u "text");
                BSI.mkThreat (Some (u "Fehlbedienung")) (u "text")]).
  - reflexivity.
  - reflexivity.
  - repeat constructor.
Defined.


Lemma requirement_tag_recorded_title_kept_witness :
  BSI.requirementTag (u "Zugriffsschutz" ++ u " (" ++ [ch "B"] ++ u ")")
  = Some [ch "B"].
Proof.
  apply (proj1 requirement_tag_recorded_title_kept (u "Zugriffsschutz")
               (ch "B")).
  - left. reflexivity.
  - vm_compute. intuition discriminate.
Defined.

(** ** The session lists *)

Lemma recorded_at_once_inside scope tr n i m :
  recorded_at_once scope tr ->
  nth_error tr n = Some (Create i m) ->
  scope n m = true ->
  S n < length tr.
Proof.
  intros H Hn Hs. apply nth_error_Some. rewrite (H n i m Hn Hs). discriminate.
Qed.

Section Preserves.

Variable P : State -> Prop.

Lemma preserves_ret {A} (a : A) : preserves P (ret a).
Proof. intros st H. exact H. Qed.

Lemma preserves_lift {A} (r : result A) : preserves P (lift r).
Proof. intros st H. exact H. Qed.

Lemma preserves_raise {A} (e : exn) : preserves P (@raise A e).
Proof. intros st H. exact H. Qed.

Lemma preserves_bind {A B} (m : M A) (f : A -> M B) :
  preserves P m -> (forall a, preserves P (f a)) -> preserves P (bind m f).
Proof.
  intros Hm Hf st H. unfold bind.
  specialize (Hm st H). destruct (m st) as [[a|e] st']; simpl in *.
  - apply Hf, Hm.
  - exact Hm.
Qed.

Lemma preserves_try_except {A} (body : M A) (handler : exn -> M A) :
  preserves P body -> (forall e, preserves P (handler e)) ->
  preserves P (try_except body handler).
Proof.
  intros Hb Hh st H. unfold try_except.
  specialize (Hb st H). destruct (body st) as [[a|e] st']; simpl in *.
  - exact Hb.
  - destruct (is_Exception e); [apply Hh, Hb | exact Hb].
Qed.

Lemma preserves_foldM {A S} (body : S -> A -> M S) (l : list A) :
  (forall s a, preserves P (body s a)) -> forall s, preserves P (foldM body l s).
Proof.
  intros Hbody. induction l as [|a l IH]; intros s; simpl.
  - apply preserves_ret.
  - apply preserves_bind; [apply Hbody | exact IH].
Qed.

Lemma preserves_forM {A} (l : list A) (body : A -> M unit) :
  (forall a, preserves P (body a)) -> preserves P (forM l body).
Proof. intros H. apply preserves_foldM. intros _ a. apply H. Qed.

End Preserves.

Lemma recorded_record_id rb k i k' :
  recorded (record_id rb k i) k'
  = recorded rb k' ++ (if Kind_eqb k k' then [i] else []).
Proof. destruct k, k'; simpl; rewrite ?app_nil_r; reflexivity. Qed.

Lemma appended_app k tr tr' :
  appended k (tr ++ tr') = appended k tr ++ appended k tr'.
Proof. apply flat_map_app. Qed.

Lemma bind_Ok {A B} (m : M A) (f : A -> M B) st a st1 :
  m st = (Ok a, st1) -> bind m f st = f a st1.
Proof. intros E. unfold bind. rewrite E. reflexivity. Qed.

Lemma bind_Raise {A B} (m : M A) (f : A -> M B) st e st1 :
  m st = (Raise e, st1) -> bind m f st = (Raise e, st1).
Proof. intros E. unfold bind. rewrite E. reflexivity. Qed.

Lemma add_obj_cases {B} (inj : B -> Model) (b : B) st :
  add_obj inj b st = (Raise RemoteError, st)
  \/ exists st1,
       add_obj inj b st
       = (Ok (mkObj (next_id st (kind_of (inj b))) b), st1)
       /\ trace st1
          = trace st ++ [Create (next_id st (kind_of (inj b))) (inj b)]
       /\ rollback st1 = rollback st.
Proof.
  unfold add_obj, bind, add, ret.
  destruct (fail_after st) as [[|budget]|];
    [left; reflexivity | right; eexists; repeat split; reflexivity ..].
Qed.

Lemma item_set_same {V} (d : dict V) (k : str) (v : V) :
  item (set d k v) k = Ok v.
Proof. unfold item. rewrite get_set_same. reflexivity. Qed.

Lemma item_set_other {V} (d : dict V) (k k' : str) (v other : V) :
  k <> k' -> get d k' = Some other -> item (set d k v) k' = Ok other.
Proof.
  intros Hk Hget. unfold item. rewrite get_set_other by exact Hk.
  rewrite Hget. reflexivity.
Qed.

Section Law.

Variable scope : nat -> Model -> bool.
Variable never : Kind -> bool.
Variable rb0 : Rollback.
Variable n : nat.

Local Abbreviation law := (law scope never).
Local Abbreviation harmless := (harmless scope never).
Local Abbreviation kept := (kept scope never rb0 n).
Local Abbreviation keeps := (preserves kept).

Lemma law_nil : law [].
Proof.
  split.
  - intros [|j] i m H; discriminate.
  - intros k i [].
Qed.

Lemma law_snoc tr e : law tr -> harmless (length tr) e -> law (tr ++ [e]).
Proof.
  intros [Hrec Hnever] He. split.
  - intros j i m Hj Hs.
    destruct (Nat.lt_ge_cases j (length tr)) as [Hlt|Hge].
    + rewrite nth_error_app1 in Hj by assumption.
      pose proof (@recorded_at_once_inside _ _ _ _ _ Hrec Hj Hs) as Hin.
      rewrite nth_error_app1 by assumption. apply Hrec; assumption.
    + rewrite nth_error_app2 in Hj by assumption.
      destruct (j - length tr) as [|k] eqn:E; simpl in Hj.
      * injection Hj as ->. simpl in He.
        assert (Ej : j = length tr) by lia. subst j. congruence.
      * destruct k; discriminate.
  - intros k i Hin. apply in_app_or in Hin. destruct Hin as [Hin|[E|[]]].
    + eapply Hnever, Hin.
    + subst e. exact He.
Qed.

Lemma law_pair tr i m :
  law tr -> never (kind_of m) = false ->
  law (tr ++ [Create i m; Append (kind_of m) i]).
Proof.
  intros [Hrec Hnever] Hk. split.
  - intros j i' m' Hj Hs.
    destruct (Nat.lt_ge_cases j (length tr)) as [Hlt|Hge].
    + rewrite nth_error_app1 in Hj by assumption.
      pose proof (@recorded_at_once_inside _ _ _ _ _ Hrec Hj Hs) as Hin.
      rewrite nth_error_app1 by assumption. apply Hrec; assumption.
    + rewrite nth_error_app2 in Hj by assumption.
      rewrite nth_error_app2 by lia.
      replace (S j - length tr) with (S (j - length tr)) by lia.
      destruct (j - length tr) as [|[|k]]; simpl in *.
      * injection Hj as -> ->. reflexivity.
      * discriminate.
      * destruct k; discriminate.
  - intros k j Hin. apply in_app_or in Hin.
    destruct Hin as [Hin|[E|[E|[]]]].
    + eapply Hnever, Hin.
    + discriminate.
    + injection E as <- <-. exact Hk.
Qed.

Lemma since_app st st' evs :
  n <= length (trace st) -> trace st' = trace st ++ evs ->
  since n st' = since n st ++ evs.
Proof.
  unfold since. intros Hn ->. rewrite skipn_app.
  replace (n - length (trace st)) with 0 by lia. reflexivity.
Qed.

(** An event that changes no list. *)
Lemma kept_event st st' e :
  kept st -> trace st' = trace st ++ [e] -> rollback st' = rollback st ->
  harmless (length (since n st)) e -> appended_nothing e -> kept st'.
Proof.
  intros (Hn & Hlaw & Hlists) Htr Hrb He Hno.
  split; [rewrite Htr, length_app; lia|].
  unfold lists_follow in *. rewrite (@since_app st st' _ Hn Htr). split.
  - apply law_snoc; assumption.
  - intros k. rewrite Hrb, Hlists, appended_app.
    destruct e; simpl in *; try contradiction; rewrite app_nil_r; reflexivity.
Qed.

Lemma kept_append st k i :
  kept st -> never k = false -> kept (snd (append k i st)).
Proof.
  intros (Hn & Hlaw & Hlists) Hk. simpl.
  split; [simpl; rewrite length_app; lia|].
  unfold lists_follow in *. erewrite since_app; [| exact Hn | reflexivity]. split.
  - apply law_snoc; assumption.
  - intros k'. simpl. rewrite recorded_record_id, Hlists, appended_app.
    simpl. rewrite app_nil_r, <- app_assoc. reflexivity.
Qed.

Lemma keeps_add (m : Model) :
  (forall pos, scope pos m = false) -> keeps (add m).
Proof.
  intros Hs st H. unfold add.
  destruct (fail_after st) as [[|budget]|]; simpl; try exact H;
    (eapply kept_event; [exact H | reflexivity | reflexivity | apply Hs
                        | exact I]).
Qed.

Lemma keeps_add_obj {B} (inj : B -> Model) (b : B) :
  (forall pos, scope pos (inj b) = false) -> keeps (add_obj inj b).
Proof.
  intros Hs. apply preserves_bind;
    [apply keeps_add, Hs | intros; apply preserves_ret].
Qed.

Lemma keeps_append (k : Kind) (i : nat) : never k = false -> keeps (append k i).
Proof. intros Hk st H. apply kept_append; assumption. Qed.

Lemma kept_add_append st st' i m :
  kept st -> never (kind_of m) = false ->
  trace st' = trace st ++ [Create i m; Append (kind_of m) i] ->
  rollback st' = record_id (rollback st) (kind_of m) i ->
  kept st'.
Proof.
  intros (Hn & Hlaw & Hlists) Hk Htr Hrb.
  split; [rewrite Htr, length_app; lia|].
  unfold lists_follow in *. rewrite (@since_app st st' _ Hn Htr). split.
  - apply law_pair; assumption.
  - intros k'. rewrite Hrb, recorded_record_id, Hlists, appended_app.
    simpl. rewrite app_nil_r, <- app_assoc. reflexivity.
Qed.

Lemma keeps_add_append {B C} (inj : B -> Model) (b : B) (k : Kind)
      (f : Obj B -> M C) :
  kind_of (inj b) = k -> never k = false ->
  (forall x, keeps (f x)) ->
  keeps (bind (add_obj inj b) (fun x => bind (append k (id x)) (fun _ => f x))).
Proof.
  intros <- Hk Hf st H.
  unfold bind, add_obj, add, ret, append, bind.
  destruct (fail_after st) as [[|budget]|]; simpl; try exact H;
    (apply Hf; eapply kept_add_append;
     [exact H | exact Hk | simpl; rewrite <- app_assoc; reflexivity
     | reflexivity]).
Qed.

Lemma keeps_add_append_last {B} (inj : B -> Model) (b : B) (k : Kind) :
  kind_of (inj b) = k -> never k = false ->
  keeps (bind (add_obj inj b) (fun x => append k (id x))).
Proof.
  intros <- Hk st H.
  unfold bind, add_obj, add, ret, append, bind.
  destruct (fail_after st) as [[|budget]|]; simpl; try exact H;
    (eapply kept_add_append;
     [exact H | exact Hk | simpl; rewrite <- app_assoc; reflexivity
     | reflexivity]).
Qed.

(** A create whose object is put into a dictionary and looked up there
    under the same key for the append. *)
Lemma kept_pair_via_item {B C} (inj : B -> Model) (b : B) (k : Kind)
      (d : dict (Obj B)) (key : str) (f : Obj B -> M C) (L : nat) st :
  kind_of (inj b) = k -> never k = false ->
  kept st -> length (since n st) = L ->
  (forall x st', kept st' -> length (since n st') = L + 2 ->
                 kept (snd (f x st'))) ->
  kept (snd (bind (add_obj inj b)
               (fun x => bind (lift (item (set d key x) key))
                  (fun r => bind (append k (id r)) (fun _ => f x))) st)).
Proof.
  intros <- Hk K HL Hf.
  destruct (add_obj_cases inj b st) as [E|(st1 & E & T1 & R1)].
  - erewrite bind_Raise by exact E. exact K.
  - erewrite bind_Ok by exact E.
    erewrite bind_Ok by (unfold lift; rewrite item_set_same; reflexivity).
    erewrite bind_Ok by reflexivity. cbn [id].
    assert (T2 : forall st2,
               trace st2 = trace st1 ++ [Append (kind_of (inj b))
                                           (next_id st (kind_of (inj b)))] ->
               trace st2
               = trace st ++ [Create (next_id st (kind_of (inj b))) (inj b);
                              Append (kind_of (inj b))
                                     (next_id st (kind_of (inj b)))]).
    { intros st2 ->. rewrite T1, <- app_assoc. reflexivity. }
    apply Hf.
    + eapply kept_add_append;
        [exact K | exact Hk | apply T2; reflexivity
        | cbn [rollback]; rewrite R1; reflexivity].
    + destruct K as (Hn & _).
      erewrite since_app; [| exact Hn | apply T2; reflexivity].
      rewrite length_app, HL. reflexivity.
Qed.

(** A create that is followed by the append of the identifier of another
    object, the one the dictionary holds under another key. *)
Lemma kept_slip_via_item {B C} (inj : B -> Model) (b : B) (k : Kind)
      (d : dict (Obj B)) (key key' : str) (other : Obj B)
      (f : Obj B -> M C) st :
  key <> key' -> get d key' = Some other -> never k = false ->
  scope (length (since n st)) (inj b) = false ->
  kept st ->
  (forall x st', kept st' -> kept (snd (f x st'))) ->
  kept (snd (bind (add_obj inj b)
               (fun x => bind (lift (item (set d key x) key'))
                  (fun r => bind (append k (id r)) (fun _ => f x))) st)).
Proof.
  intros Hkey Hget Hk Hs K Hf.
  destruct (add_obj_cases inj b st) as [E|(st1 & E & T1 & R1)].
  - erewrite bind_Raise by exact E. exact K.
  - erewrite bind_Ok by exact E.
    erewrite bind_Ok
      by (unfold lift; erewrite item_set_other by eassumption; reflexivity).
    erewrite bind_Ok by reflexivity.
    apply Hf. apply kept_append; [|exact Hk].
    eapply kept_event; [exact K | exact T1 | exact R1 | exact Hs | exact I].
Qed.

Lemma keeps_delete (k : Kind) (i : nat) : keeps (delete k i).
Proof.
  intros st H. unfold delete.
  destruct (existsb (is_entity k i) (entities st)); simpl;
    (eapply kept_event; [exact H | reflexivity | reflexivity | exact I
                        | exact I]).
Qed.

Lemma keeps_rollbackKind (k : Kind) : keeps (rollbackKind k).
Proof.
  intros st H. unfold rollbackKind.
  apply preserves_forM; [|exact H].
  intros i. apply preserves_try_except; [apply keeps_delete|].
  intros e. apply preserves_ret.
Qed.

Lemma keeps_rollbackAll : keeps rollbackAll.
Proof.
  unfold rollbackAll.
  repeat (apply preserves_bind; [apply keeps_rollbackKind | intros _]).
  apply keeps_rollbackKind.
Qed.

Lemma keeps_panic {A} (e : exn) : keeps (@panic A e).
Proof.
  unfold panic, sys_exit.
  apply preserves_bind;
    [apply keeps_rollbackAll | intros; apply preserves_raise].
Qed.

End Law.

(** One step of a proof that an importer keeps the law: the shape of the
    computation decides the lemma. *)
Ltac keep_step :=
  first
    [ apply preserves_ret
    | apply preserves_lift
    | apply keeps_panic
    | apply keeps_rollbackAll
    | apply preserves_raise
    | apply preserves_try_except; [| intro]
    | apply preserves_foldM; intros
    | apply preserves_forM; intros
    | eapply keeps_add_append; [reflexivity | reflexivity | intro]
    | eapply keeps_add_append_last; [reflexivity | reflexivity]
    | apply keeps_append; reflexivity
    | apply keeps_add_obj; intro; reflexivity
    | progress cbv zeta
    | apply preserves_bind; [| intro]
    | match goal with
      | |- preserves _ (match ?e with _ => _ end) => destruct e
      end ].

Create HintDb importers.

#[local] Hint Unfold
  Tags_add Topics_add Requirements_add ExtraTypes_add ExtraEntries_add
  Catalogues_add
  asvs asvs_setup asvs_upload asvs_itemL1 asvs_itemL2 asvs_itemL3
  nistcsf nistcsf_upload nistcsf_itemL1 nistcsf_itemL2 nistcsf_itemL3
  bsic5 bsic5_upload bsic5_area bsic5_item
  samm samm_upload samm_itemL1 samm_itemL2 samm_itemL3 samm_itemL4
  csaccm csaccm_upload csaccm_domain csaccm_control
  ciscontrols ciscontrols_upload ciscontrols_tag ciscontrols_domain
  ciscontrols_requirement
  bsigrundschutz writeBSIRequirements writeBSIBuildingBlock writeBSITopic
  writeBSIRequirement writeBSIGrundschutzThreats writeElementalThreat
  writeBSIThreatBlock writeBSIThreatTopic writeBSIThreat
  : importers.

Ltac keep := repeat (progress autounfold with importers || keep_step).

(** What comes after the three tags of the implementation groups. *)
Lemma ciscontrols_rest_keeps data rb0 n (igs : dict (Obj Tag)) o assets
      functions :
  preserves (kept (own_list (Ciscontrols data)) (no_list (Ciscontrols data))
                  rb0 n)
    (assets <- foldM ciscontrols_tag (map fst assets) assets ;;
     functions <- foldM ciscontrols_tag (map fst functions) functions ;;
     rootTopics <- foldM (ciscontrols_domain igs assets functions) o [] ;;
     catalogue <- Catalogues_add
       (mkCatalogue ciscontrols_catalogue_title
                    ciscontrols_catalogue_description rootTopics) ;;
     ret tt).
Proof. keep. Qed.

(** The [try] block of [ciscontrols], from the start of a run. *)
Lemma ciscontrols_upload_keeps data rb0 n o assets functions st :
  kept (own_list (Ciscontrols data)) (no_list (Ciscontrols data)) rb0 n st ->
  length (since n st) = 0 ->
  kept (own_list (Ciscontrols data)) (no_list (Ciscontrols data)) rb0 n
       (snd (ciscontrols_upload o assets functions st)).
Proof.
  intros K L. unfold ciscontrols_upload, Tags_add. cbv zeta.
  eapply kept_pair_via_item with (L := 0);
    [reflexivity | reflexivity | exact K | exact L |].
  intros ig1 st1 K1 L1.
  eapply kept_pair_via_item with (L := 2);
    [reflexivity | reflexivity | exact K1 | exact L1 |].
  intros ig2 st2 K2 L2.
  eapply kept_slip_via_item with (other := ig2);
    [ intros E; vm_compute in E; discriminate E
    | apply get_set_same
    | reflexivity
    | rewrite L2; reflexivity
    | exact K2
    | ].
  intros ig3 st3 K3. apply ciscontrols_rest_keeps. exact K3.
Qed.

Lemma run_keeps isdecimal src rb0 n st :
  kept (own_list src) (no_list src) rb0 n st ->
  length (since n st) = 0 ->
  kept (own_list src) (no_list src) rb0 n (snd (run isdecimal src st)).
Proof.
  intros K L.
  destruct src;
    try (revert st K L;
         match goal with
         | |- forall st, ?P st -> _ -> ?P (snd (?m st)) =>
             intros st K _; revert st K; change (preserves P m)
         end;
         unfold run; keep; fail).
  unfold run, ciscontrols, bind, lift.
  destruct (ciscontrols_read data) as [[[o assets] functions]|e];
    [|exact K].
  unfold try_except.
  pose proof (@ciscontrols_upload_keeps data rb0 n o assets functions st K L)
    as K'.
  destruct (ciscontrols_upload o assets functions st) as [[[]|e] st1];
    cbn [fst snd] in *; [exact K'|].
  destruct (is_Exception e); [apply keeps_panic | ]; exact K'.
Qed.

(** C2, as the code has it. In a run of any importer, every create is at
    once followed by the append of the returned identifier to the list of
    its own kind, but for these: the creates of extra entries; the creates
    of catalogues outside the BSI Grundschutz run; the creates of
    requirements in the NIST CSF and BSI C5 runs; and the one create that is
    the fifth event of a CIS Controls run, that of the tag [IG3]. Nothing is
    appended to the list of extra entries, nor, outside the BSI Grundschutz
    run, to the list of catalogues; and the session lists grow by exactly
    the appends of the run, in their order. *)
Theorem creates_recorded_in_own_list :
  forall isdecimal src st,
    let n := length (trace st) in
    let st' := snd (run isdecimal src st) in
    recorded_at_once (own_list src) (since n st')
    /\ never_appended (no_list src) (since n st')
    /\ (forall k, recorded (rollback st') k
                  = recorded (rollback st) k ++ appended k (since n st')).
Proof.
  intros isdecimal src st n st'.
  assert (L : since n st = []).
  { unfold since. subst n. apply skipn_all. }
  assert (H : kept (own_list src) (no_list src) (rollback st) n st).
  { unfold kept, lists_follow. rewrite L.
    split; [subst n; lia|]. split; [apply law_nil|].
    intros k. simpl. rewrite app_nil_r. reflexivity. }
  apply (@run_keeps isdecimal) in H; [|rewrite L; reflexivity].
  destruct H as (_ & [Hrec Hnever] & Hlists).
  split; [exact Hrec|]. split; [exact Hnever | exact Hlists].
Qed.

(** C2 as the specification words it fails, once for each kind of create
    the statement above leaves out. The ASVS run creates an extra entry and
    a catalogue and appends neither identifier to any list. The NIST CSF
    and BSI C5 runs append the identifier of their requirement to the list
    of topics and leave the list of requirements empty. The CIS Controls
    run has the create of the tag [IG3], which the repository numbers 3, as
    its fifth event and the append of 2, the identifier of [IG2], as its
    sixth. *)
Lemma creates_not_recorded_under_own_kind :
  (let st' := snd (asvs sampleAsvs (start None)) in
   ~ recorded_at_once every_create (trace st')
   /\ count KExtraEntry st' = 1
   /\ extraEntries (rollback st') = []
   /\ count KCatalogue st' = 1
   /\ catalogues (rollback st') = [])
  /\ (let st' := snd (nistcsf asciiDigit sampleNist (start None)) in
      created KRequirement (trace st')
      = [(1, MRequirement
               (mkRequirement (u "GV.OC-01") (Some (u "The mission is known"))
                  (u "* Share the mission")
                  (mkObj 2 (mkTopic (u "GV.OC") (u "Organizational Context")
                              (u "The circumstances are understood")
                              (Some (mkObj 1 (mkTopic (u "GV") (u "GOVERN")
                                                (u "The strategy is set")
                                                None)))))
                  [] (Some true)))]
      /\ requirements (rollback st') = []
      /\ topics (rollback st') = [1; 2; 1])
  /\ (let st' := snd (bsic5 [exampleC5Row [] [] [] [] [] []] (start None)) in
      count KRequirement st' = 1
      /\ requirements (rollback st') = []
      /\ topics (rollback st') = [1; 1]
      /\ count KExtraEntry st' = 5
      /\ extraEntries (rollback st') = [])
  /\ (let st' := snd (ciscontrols sampleCis (start None)) in
      nth_error (trace st') 4 = Some (Create 3 (MTag (mkTag (u "IG3"))))
      /\ nth_error (trace st') 5 = Some (Append KTag 2)
      /\ tags (rollback st') = [1; 2; 2; 4; 5]).
Proof.
  split; [|repeat split; vm_compute; reflexivity].
  split; [|repeat split; vm_compute; reflexivity].
  intros H.
  pose proof (H 16 1
                (MExtraEntry (mkExtraEntry (u "1053") 2 1))
                eq_refl eq_refl) as E.
  vm_compute in E. discriminate.
Qed.

(** ** Failures *)



(** C1 on a run of the CIS Controls importer in which the repository
    rejects the seventh create, that of the requirement: the handler runs,
    the tag [IG3] is still in the repository afterwards, since the identifier
    of [IG2] was appended in its place, and [sys.exit()] ends the process
    with status 0. *)
Theorem ciscontrols_failure_leaves_tag_and_exits_zero :
  let before := start (Some 6) in
  let after := ciscontrols sampleCis before in
  fst after = Raise (SystemExit None)
  /\ exit_status (fst after) = 0%Z
  /\ count KTag before = 0
  /\ count KTag (snd after) = 1
  /\ held KTag (snd after) = [(3, MTag (mkTag (u "IG3")))]
  /\ tags (rollback (snd after)) = [1; 2; 2; 4; 5]
  /\ created KTag (trace (snd after))
     = [(1, MTag (mkTag (u "IG1"))); (2, MTag (mkTag (u "IG2")));
        (3, MTag (mkTag (u "IG3"))); (4, MTag (mkTag (u "Devices")));
        (5, MTag (mkTag (u "Identify")))].
Proof. repeat split; vm_compute; reflexivity. Qed.


(** A data set of another shape is no failure of the reading: [json.load]
    returns it, the first subscript of the [try] block raises, and the
    handler ends the run with an exit. *)
Lemma csaccm_other_shape_fails_inside_try :
  let archive := Ok [(u "v4/CCM/primary-dataset.json", Ok emptyDocument)] in
  csaccm_read archive = Ok emptyDocument
  /\ csaccm archive (start None) = (Raise (SystemExit None), start None).
Proof. split; vm_compute; reflexivity. Qed.

(** ** The tabular importer *)

Lemma since_trace_app st st' evs :
  trace st' = trace st ++ evs -> since (length (trace st)) st' = evs.
Proof.
  unfold since. intros ->. rewrite skipn_app, skipn_all, Nat.sub_diag.
  reflexivity.
Qed.

(** C8, as the code has it. The row with Area [A (A1)], ID [A1.1] and Title
    [T], whatever its other cells, makes the importer create exactly one
    topic, with key [C5-A1] and title [A], and exactly one requirement, with
    key [A1.1], title [T] and that topic as its parent. *)
Theorem bsic5_example_row :
  forall basic additional about customer feasibility auditing st,
    fail_after st = None ->
    let row := exampleC5Row basic additional about customer feasibility
                            auditing in
    let after := bsic5 [row] st in
    let events := since (length (trace st)) (snd after) in
    let topic := mkObj (next_id st KTopic)
                       (mkTopic (u "C5-A1") (u "A") (u "-") None) in
    fst after = Ok tt
    /\ created KTopic events = [(id topic, MTopic (body topic))]
    /\ created KRequirement events
       = [(next_id st KRequirement,
           MRequirement
             (mkRequirement (u "A1.1") (Some (u "T")) (plainText (u "*") basic)
                            topic [] None))].
Proof.
  intros basic additional about customer feasibility auditing st Hbudget.
  destruct st as [ents next budget rb tr]. simpl in Hbudget. subst budget.
  cbv zeta.
  assert (Htr : exists evs,
             trace (snd (bsic5 [exampleC5Row basic additional about customer
                                             feasibility auditing]
                               (mkState ents next None rb tr)))
             = tr ++ evs
             /\ created KTopic evs
                = [(next KTopic,
                    MTopic (mkTopic (u "C5-A1") (u "A") (u "-") None))]
             /\ created KRequirement evs
                = [(next KRequirement,
                    MRequirement
                      (mkRequirement (u "A1.1") (Some (u "T"))
                         (plainText (u "*") basic)
                         (mkObj (next KTopic)
                                (mkTopic (u "C5-A1") (u "A") (u "-") None))
                         [] None))]).
  { eexists. split.
    - cbv -[app plainText]. rewrite <- !app_assoc. cbn [app]. reflexivity.
    - split; cbv -[plainText]; reflexivity. }
  destruct Htr as (evs & Htr & Htopics & Hreqs).
  split; [cbv -[plainText]; reflexivity|].
  rewrite (@since_trace_app (mkState ents next None rb tr) _ evs Htr).
  split; assumption.
Qed.

Lemma bsic5_example_row_witness :
  let st := start None in
  let row := exampleC5Row [] [] [] [] [] [] in
  let after := bsic5 [row] st in
  let events := since (length (trace st)) (snd after) in
  let topic := mkObj (next_id st KTopic)
                     (mkTopic (u "C5-A1") (u "A") (u "-") None) in
  fst after = Ok tt
  /\ created KTopic events = [(id topic, MTopic (body topic))]
  /\ created KRequirement events
     = [(next_id st KRequirement,
         MRequirement
           (mkRequirement (u "A1.1") (Some (u "T")) (plainText (u "*") []) topic []
                          None))].
Proof.
  exact (bsic5_example_row [] [] [] [] [] [] (start None) eq_refl).
Defined.

(** C8 as the specification words it fails: the key of the topic is
    [C5-A1], not [A1]. *)
Lemma bsic5_topic_key_is_prefixed :
  let after := bsic5 [exampleC5Row [] [] [] [] [] []] (start None) in
  exists topic,
    held KTopic (snd after) = [(1, MTopic topic)]
    /\ topic_key topic = u "C5-A1"
    /\ topic_key topic <> u "A1".
Proof.
  eexists. split; [vm_compute; reflexivity|].
  split; [reflexivity | vm_compute; discriminate].
Qed.

(** ** The writer of the BSI requirements *)

Lemma created_app k tr tr' :
  created k (tr ++ tr') = created k tr ++ created k tr'.
Proof. apply flat_map_app. Qed.

Lemma writes_ret {A} (a : A) st : fail_after st = None -> writes (ret a) st [].
Proof.
  intros H. exists a, st, []. rewrite app_nil_r.
  repeat split; [exact H | constructor].
Qed.

Lemma writes_bind {A B} (m : M A) (f : A -> M B) st items items' :
  writes m st items ->
  (forall a st', fail_after st' = None -> writes (f a) st' items') ->
  writes (bind m f) st (items ++ items').
Proof.
  intros (a & st1 & evs & Hm & Hfail & Htr & Hall) Hf.
  destruct (Hf a st1 Hfail) as (b & st2 & evs' & Hfa & Hfail' & Htr' & Hall').
  exists b, st2, (evs ++ evs'). unfold bind. rewrite Hm.
  split; [exact Hfa|]. split; [exact Hfail'|]. split.
  - rewrite Htr', Htr, app_assoc. reflexivity.
  - rewrite created_app. apply Forall2_app; assumption.
Qed.

Lemma writes_other {B} (inj : B -> Model) (b : B) st :
  fail_after st = None -> kind_of (inj b) <> KRequirement ->
  writes (add_obj inj b) st [].
Proof.
  intros Hfail Hkind. unfold writes, add_obj, add, bind, ret.
  rewrite Hfail. simpl. do 3 eexists.
  split; [reflexivity|]. split; [reflexivity|]. split; [reflexivity|].
  simpl. destruct (kind_of (inj b)); try constructor. congruence.
Qed.

Lemma writes_append k i st :
  fail_after st = None -> writes (append k i) st [].
Proof.
  intros Hfail. unfold writes, append. do 3 eexists.
  split; [reflexivity|]. split; [exact Hfail|]. split; [reflexivity|].
  constructor.
Qed.

(** The pair of a create that is no requirement and its append. *)
Lemma writes_recorded {B C} (inj : B -> Model) (b : B) (k : Kind)
      (f : Obj B -> M C) st items :
  fail_after st = None -> kind_of (inj b) <> KRequirement ->
  (forall x st', fail_after st' = None -> writes (f x) st' items) ->
  writes (bind (add_obj inj b) (fun x => bind (append k (id x)) (fun _ => f x)))
         st items.
Proof.
  intros Hfail Hkind Hf.
  change items with ([] ++ ([] ++ items)).
  apply writes_bind; [apply writes_other; assumption|].
  intros x st' Hfail'. apply writes_bind; [apply writes_append; assumption|].
  intros _ st'' Hfail''. apply Hf, Hfail''.
Qed.

Lemma writes_forM {A} (items : A -> list (str * BSI.Requirement))
      (body : A -> M unit) (l : list A) :
  (forall a st, In a l -> fail_after st = None -> writes (body a) st (items a)) ->
  forall st, fail_after st = None -> writes (forM l body) st (flat_map items l).
Proof.
  unfold forM. induction l as [|a l IH]; intros Hbody st Hfail; simpl.
  - apply writes_ret, Hfail.
  - apply writes_bind; [apply Hbody; [left; reflexivity | exact Hfail]|].
    intros [] st' Hfail'. apply IH; [|exact Hfail'].
    intros a' st'' Hin. apply Hbody. right. exact Hin.
Qed.

Lemma flat_map_single {A} (l : list A) : flat_map (fun x => [x]) l = l.
Proof. induction l as [|a l IH]; simpl; [|rewrite IH]; reflexivity. Qed.

Lemma writes_forM_each (body : str * BSI.Requirement -> M unit)
      (l : list (str * BSI.Requirement)) :
  (forall a st, In a l -> fail_after st = None -> writes (body a) st [a]) ->
  forall st, fail_after st = None -> writes (forM l body) st l.
Proof.
  intros Hbody st Hfail.
  pose proof (writes_forM (fun x => [x]) body l Hbody st Hfail) as H.
  rewrite flat_map_single in H. exact H.
Qed.

Lemma writes_foldM {A S} (items : A -> list (str * BSI.Requirement))
      (body : S -> A -> M S) (l : list A) :
  (forall s a st, In a l -> fail_after st = None ->
                  writes (body s a) st (items a)) ->
  forall s st, fail_after st = None ->
               writes (foldM body l s) st (flat_map items l).
Proof.
  induction l as [|a l IH]; intros Hbody s st Hfail; simpl.
  - apply writes_ret, Hfail.
  - apply writes_bind; [apply Hbody; [left; reflexivity | exact Hfail]|].
    intros s' st' Hfail'. apply IH; [|exact Hfail'].
    intros s'' a' st'' Hin. apply Hbody. right. exact Hin.
Qed.

Lemma bsi_tag_known b s h entry :
  known_tag entry ->
  exists tag,
    bsi_tag [(u "B", b); (u "S", s); (u "H", h)]
            (BSI.requirement_tag (snd entry))
    = Ok tag
    /\ (BSI.requirement_tag (snd entry) = None <-> tag = None).
Proof.
  unfold known_tag. destruct (BSI.requirement_tag (snd entry)) as [t|].
  - intros [<-|[<-|[<-|[]]]]; eexists; (split; [reflexivity|]);
      split; discriminate.
  - intros _. exists None. split; [reflexivity | tauto].
Qed.

Lemma writeBSIRequirement_writes b s h parentTopic entry st :
  fail_after st = None -> known_tag entry ->
  writes (writeBSIRequirement [(u "B", b); (u "S", s); (u "H", h)]
                              parentTopic entry)
         st [entry].
Proof.
  intros Hfail Hknown.
  destruct (bsi_tag_known b s h entry Hknown) as (tag & Htag & Hnone).
  destruct entry as [requirementKey requirement]. simpl in *.
  unfold writes, writeBSIRequirement, Requirements_add, add_obj, add, append,
    bind, lift, ret.
  rewrite Htag, Hfail. simpl. do 3 eexists.
  split; [reflexivity|]. split; [reflexivity|]. split.
  - rewrite <- app_assoc. reflexivity.
  - simpl. constructor; [|constructor].
    exists parentTopic, tag. split; [|exact Hnone]. simpl.
    destruct (startswith (BSI.requirement_title requirement) superseded);
      reflexivity.
Qed.

Lemma Forall_flat_map_in {A B} (P : B -> Prop) (f : A -> list B) (l : list A)
      (a : A) :
  Forall P (flat_map f l) -> In a l -> Forall P (f a).
Proof.
  intros H Hin. apply Forall_forall. intros x Hx.
  rewrite Forall_forall in H. apply H. apply in_flat_map. exists a. auto.
Qed.

(** What [writeBSIRequirements] creates on a repository that rejects
    nothing. *)
Lemma writeBSIRequirements_writes buildingBlocks st :
  fail_after st = None ->
  Forall known_tag (bsi_requirements buildingBlocks) ->
  writes (writeBSIRequirements buildingBlocks) st
         (bsi_requirements buildingBlocks).
Proof.
  intros Hfail Hknown. unfold writeBSIRequirements, Tags_add, Catalogues_add.
  cbv zeta. simpl set.
  apply writes_recorded; [exact Hfail | discriminate|]. intros b st1 Hfail1.
  apply writes_recorded; [exact Hfail1 | discriminate|]. intros s st2 Hfail2.
  apply writes_recorded; [exact Hfail2 | discriminate|]. intros h st3 Hfail3.
  rewrite <- (app_nil_r (bsi_requirements buildingBlocks)).
  apply writes_bind.
  - unfold bsi_requirements.
    apply writes_foldM; [|exact Hfail3].
    intros roots [buildingBlockKey buildingBlock] st4 Hin4 Hfail4.
    unfold writeBSIBuildingBlock, Topics_add.
    apply writes_recorded; [exact Hfail4 | discriminate|].
    intros buildingBlockRoot st5 Hfail5. cbv zeta.
    rewrite <- (app_nil_r (flat_map _ _)).
    apply writes_bind; [|intros; apply writes_ret; assumption].
    apply writes_forM; [|exact Hfail5].
    intros [topicKey topic] st6 Hin6 Hfail6.
    unfold writeBSITopic, Topics_add.
    apply writes_recorded; [exact Hfail6 | discriminate|].
    intros parentTopic st7 Hfail7.
    apply writes_forM_each; [|exact Hfail7].
    intros entry st8 Hin8 Hfail8.
    apply writeBSIRequirement_writes; [exact Hfail8|].
    pose proof (Forall_flat_map_in _ _ _ Hknown Hin4) as H4.
    pose proof (Forall_flat_map_in _ _ _ H4 Hin6) as H6.
    rewrite Forall_forall in H6. apply H6, Hin8.
  - intros roots st4 Hfail4.
    change (@nil (str * BSI.Requirement)) with
      (@nil (str * BSI.Requirement) ++ []).
    apply writes_bind; [apply writes_other; [exact Hfail4 | discriminate]|].
    intros catalogue st5 Hfail5. apply writes_append, Hfail5.
Qed.

Lemma writes_since {A} (m : M A) st items :
  writes m st items ->
  exists a st',
    m st = (Ok a, st')
    /\ Forall2 written_as items
               (created KRequirement (since (length (trace st)) st')).
Proof.
  intros (a & st' & evs & Hm & _ & Htr & Hall).
  exists a, st'. split; [exact Hm|].
  rewrite (@since_trace_app st st' evs Htr). exact Hall.
Qed.

(** C6. On a repository that rejects nothing, [writeBSIRequirements] issues
    one create for every requirement of the dictionary, in its order, and
    the requirement is created with [visible=False] when its title begins
    with [ENTFALLEN (] and with [visible=True] when it does not. *)
Theorem superseded_requirements_created_invisible :
  forall buildingBlocks st,
    fail_after st = None ->
    Forall known_tag (bsi_requirements buildingBlocks) ->
    exists st',
      writeBSIRequirements buildingBlocks st = (Ok tt, st')
      /\ Forall2
           (fun entry c =>
              exists r,
                snd c = MRequirement r
                /\ req_key r = fst entry
                /\ req_title r = Some (BSI.requirement_title (snd entry))
                /\ (startswith (BSI.requirement_title (snd entry)) superseded
                    = true -> req_visible r = Some false)
                /\ (startswith (BSI.requirement_title (snd entry)) superseded
                    = false -> req_visible r = Some true))
           (bsi_requirements buildingBlocks)
           (created KRequirement (since (length (trace st)) st')).
Proof.
  intros buildingBlocks st Hfail Hknown.
  destruct (writes_since (writeBSIRequirements_writes buildingBlocks st
                                                      Hfail Hknown))
    as ([] & st' & Hrun & Hall).
  exists st'. split; [exact Hrun|].
  eapply Forall2_impl; [|exact Hall].
  intros entry c (parent & tag & Hc & _).
  eexists. split; [exact Hc|]. simpl.
  split; [reflexivity|]. split; [reflexivity|].
  split; intros H; rewrite H; reflexivity.
Qed.

Lemma superseded_requirements_created_invisible_witness :
  exists st',
    writeBSIRequirements sampleWritten (start None) = (Ok tt, st')
    /\ Forall2
         (fun entry c =>
            exists r,
              snd c = MRequirement r
              /\ req_key r = fst entry
              /\ req_title r = Some (BSI.requirement_title (snd entry))
              /\ (startswith (BSI.requirement_title (snd entry)) superseded
                  = true -> req_visible r = Some false)
              /\ (startswith (BSI.requirement_title (snd entry)) superseded
                  = false -> req_visible r = Some true))
         (bsi_requirements sampleWritten)
         (created KRequirement (since (length (trace (start None))) st')).
Proof.
  apply (superseded_requirements_created_invisible sampleWritten (start None)).
  - reflexivity.
  - repeat constructor.
Defined.

(** C10. On a repository that rejects nothing, [writeBSIRequirements]
    creates every requirement whose tag is [None] with the list [[None]] as
    its tags, which is not the empty list. *)
Theorem absent_tag_sent_as_list_of_none :
  forall buildingBlocks st,
    fail_after st = None ->
    Forall known_tag (bsi_requirements buildingBlocks) ->
    exists st',
      writeBSIRequirements buildingBlocks st = (Ok tt, st')
      /\ Forall2
           (fun entry c =>
              exists r,
                snd c = MRequirement r
                /\ req_key r = fst entry
                /\ (BSI.requirement_tag (snd entry) = None ->
                    req_tags r = [None] /\ req_tags r <> []))
           (bsi_requirements buildingBlocks)
           (created KRequirement (since (length (trace st)) st')).
Proof.
  intros buildingBlocks st Hfail Hknown.
  destruct (writes_since (writeBSIRequirements_writes buildingBlocks st
                                                      Hfail Hknown))
    as ([] & st' & Hrun & Hall).
  exists st'. split; [exact Hrun|].
  eapply Forall2_impl; [|exact Hall].
  intros entry c (parent & tag & Hc & Hnone).
  eexists. split; [exact Hc|]. simpl.
  split; [reflexivity|]. intros Habsent. apply Hnone in Habsent. subst tag.
  split; [reflexivity | discriminate].
Qed.

Lemma absent_tag_sent_as_list_of_none_witness :
  exists st',
    writeBSIRequirements sampleWritten (start None) = (Ok tt, st')
    /\ Forall2
         (fun entry c =>
            exists r,
              snd c = MRequirement r
              /\ req_key r = fst entry
              /\ (BSI.requirement_tag (snd entry) = None ->
                  req_tags r = [None] /\ req_tags r <> []))
         (bsi_requirements sampleWritten)
         (created KRequirement (since (length (trace (start None))) st')).
Proof.
  apply (absent_tag_sent_as_list_of_none sampleWritten (start None)).
  - reflexivity.
  - repeat constructor.
Defined.

(** ** Further properties of the BSI Grundschutz parser *)

Lemma split_aux_exhausted_skip (sep : str) : forall s skip,
  exists x, split_aux sep (Some 0) skip s = [x].
Proof.
  induction s as [|c s IH]; intros skip; simpl; [eauto|].
  destruct skip as [|k]; [|apply IH].
  destruct (IH 0) as [x ->]. simpl. eauto.
Qed.

Lemma length_cons_hd c l : l <> [] -> length (cons_hd c l) = length l.
Proof. destruct l; [congruence | reflexivity]. Qed.

Lemma split_max_one_length (sep s : str) :
  sep <> [] ->
  length (split_max s sep 1) = if contains s sep then 2 else 1.
Proof.
  intros Hsep. unfold split_max. induction s as [|c s IH].
  - destruct sep; [congruence | reflexivity].
  - cbn [split_aux contains]. simpl allowed. cbn [andb].
    destruct (startswith (c :: s) sep) eqn:E.
    + simpl. destruct (split_aux_exhausted_skip sep s (length sep - 1))
        as [x ->]. reflexivity.
    + cbn [orb]. rewrite length_cons_hd; [exact IH|].
      intros Hnil. rewrite Hnil in IH. simpl in IH.
      destruct (contains s sep); discriminate.
Qed.

(** X1. The key of a requirement code: without the marker [.A] in the code
    the derivation raises [IndexError] ([titleKeySplit[1]] does not exist);
    with it, the derivation returns a key all of whose dot-delimited
    segments have at least two characters. *)
Theorem requirementKey_needs_marker :
  forall code,
    (contains code (u ".A") = false ->
     BSI.requirementKey code = Raise IndexError)
    /\ (contains code (u ".A") = true ->
        exists key, BSI.requirementKey code = Ok key /\ normalized key).
Proof.
  intros code.
  pose proof (@split_max_one_length (u ".A") code ltac:(discriminate)) as Hlen.
  unfold BSI.requirementKey, subscript.
  destruct (split_max code (u ".A") 1) as [|a [|b [|c l]]] eqn:E;
    simpl in Hlen; destruct (contains code (u ".A")); try discriminate;
    split; intros H; try discriminate; simpl.
  - reflexivity.
  - eexists. split; [reflexivity | apply zeroPadKey_normalized].
Qed.

Lemma requirementKey_needs_marker_witness :
  BSI.requirementKey (u "SYS11") = Raise IndexError.
Proof.
  apply (proj1 (requirementKey_needs_marker (u "SYS11"))). reflexivity.
Defined.

Lemma lstrip_snoc (l : str) (c : char) :
  isspace c = false -> lstrip (l ++ [c]) = lstrip l ++ [c].
Proof.
  intros Hc. induction l as [|a l IH]; simpl.
  - rewrite Hc. reflexivity.
  - destruct (isspace a); [exact IH | reflexivity].
Qed.

Lemma lstrip_head (s : str) :
  match lstrip s with [] => True | c :: _ => isspace c = false end.
Proof.
  induction s as [|a s IH]; simpl; [exact I|].
  destruct (isspace a) eqn:E; [exact IH | exact E].
Qed.

Lemma strip_trimmed (s : str) : trimmed (strip s).
Proof.
  unfold trimmed, strip, rstrip. split.
  - pose proof (lstrip_head s) as H.
    destruct (lstrip s) as [|c t]; [exact I|].
    simpl rev. rewrite lstrip_snoc by exact H.
    rewrite rev_app_distr. exact H.
  - rewrite rev_involutive. apply lstrip_head.
Qed.

(** X2. [convertXMLDescriptionToMD] raises [IndexError] exactly when what
    pandoc returns has no blank line after its first paragraph; otherwise it
    returns a text that neither starts nor ends with whitespace. *)
Theorem convertXMLDescriptionToMD_first_paragraph :
  forall e,
    (contains (BSI.pandoc e) [newline; newline] = false ->
     BSI.convertXMLDescriptionToMD e = Raise IndexError)
    /\ (contains (BSI.pandoc e) [newline; newline] = true ->
        exists md, BSI.convertXMLDescriptionToMD e = Ok md /\ trimmed md).
Proof.
  intros e.
  pose proof (@split_max_one_length [newline; newline] (BSI.pandoc e)
                ltac:(discriminate)) as Hlen.
  unfold BSI.convertXMLDescriptionToMD, subscript.
  change [BSI.newline; BSI.newline] with [newline; newline].
  destruct (split_max (BSI.pandoc e) [newline; newline] 1)
    as [|a [|b [|c l]]] eqn:E;
    simpl in Hlen; destruct (contains (BSI.pandoc e) [newline; newline]);
    try discriminate; split; intros H; try discriminate; simpl.
  - reflexivity.
  - eexists. split; [reflexivity | apply strip_trimmed].
Qed.

Lemma convertXMLDescriptionToMD_first_paragraph_witness :
  BSI.convertXMLDescriptionToMD (BSI.Elem [] (u "one paragraph") [])
  = Raise IndexError.
Proof.
  apply (proj1 (convertXMLDescriptionToMD_first_paragraph
                  (BSI.Elem [] (u "one paragraph") []))).
  reflexivity.
Defined.

(** ** Further properties of the CSA CCM importer *)

Lemma find_snoc {A} (P : A -> bool) (l : list A) (a : A) :
  find P (l ++ [a])
  = match find P l with
    | Some x => Some x
    | None => if P a then Some a else None
    end.
Proof.
  induction l as [|b l IH]; simpl; [reflexivity|].
  destruct (P b); [reflexivity | exact IH].
Qed.

Lemma csaccm_path_from (names : list str) : forall path,
  fold_left (fun path name =>
               if endswith name primaryDataset then Some name else path)
            names path
  = match find (fun name => endswith name primaryDataset) (rev names) with
    | Some name => Some name
    | None => path
    end.
Proof.
  induction names as [|name names IH]; intros path; simpl; [reflexivity|].
  rewrite IH, find_snoc.
  destruct (find (fun n => endswith n primaryDataset) (rev names));
    [reflexivity|].
  destruct (endswith name primaryDataset); reflexivity.
Qed.

Lemma csaccm_path_last (names : list str) :
  csaccm_path names
  = find (fun name => endswith name primaryDataset) (rev names).
Proof.
  unfold csaccm_path. rewrite csaccm_path_from.
  destruct (find _ (rev names)); reflexivity.
Qed.

Lemma find_none_forall {A} (P : A -> bool) (l : list A) :
  find P l = None <-> Forall (fun a => P a = false) l.
Proof.
  induction l as [|a l IH]; simpl.
  - split; [constructor | reflexivity].
  - destruct (P a) eqn:E.
    + split; [discriminate | intros H; inversion H; congruence].
    + rewrite IH. split; [intros H; constructor; assumption
                         | intros H; inversion H; assumption].
Qed.

Lemma find_skip {A} (P : A -> bool) (l1 l2 : list A) :
  Forall (fun a => P a = false) l1 -> find P (l1 ++ l2) = find P l2.
Proof.
  intros H. induction H as [|a l1 Ha Hl IH]; simpl; [reflexivity|].
  rewrite Ha. exact IH.
Qed.

(** X3. The [with] block of [csaccm]. When [ZipFile] rejects the download,
    its exception is that of the block. Of an archive it opens, the block
    takes the last member whose name ends in [/CCM/primary-dataset.json]:
    with no such member it raises [FileNotFoundError], and otherwise its
    outcome is what opening and loading that member gives, the document or
    the exception. *)
Theorem csaccm_read_opens_last_dataset :
  (forall e, csaccm_read (Raise e) = Raise e)
  /\ forall zip,
       csaccm_path (map fst zip)
       = find (fun name => endswith name primaryDataset) (rev (map fst zip))
       /\ (Forall (fun member => endswith (fst member) primaryDataset = false)
                  zip ->
           csaccm_read (Ok zip) = Raise FileNotFoundError)
       /\ (forall pre member post,
              zip = pre ++ member :: post ->
              endswith (fst member) primaryDataset = true ->
              Forall (fun other => endswith (fst other) primaryDataset = false)
                     post ->
              csaccm_read (Ok zip) = snd member).
Proof.
  split; [reflexivity|].
  intros zip. split; [apply csaccm_path_last|].
  unfold csaccm_read. cbn [rbind]. rewrite csaccm_path_last. split.
  - intros Hall.
    assert (E : find (fun name => endswith name primaryDataset)
                     (rev (map fst zip)) = None).
    { apply find_none_forall. apply Forall_forall. intros name Hin.
      apply in_rev in Hin. apply in_map_iff in Hin.
      destruct Hin as [member [<- Hin]].
      rewrite Forall_forall in Hall. apply Hall, Hin. }
    rewrite E. reflexivity.
  - intros pre member post -> Hmember Hpost.
    rewrite map_app, rev_app_distr. cbn [map rev].
    rewrite <- app_assoc, find_skip.
    + cbn [app find]. rewrite Hmember. unfold csaccm_load.
      rewrite rev_app_distr. cbn [rev]. rewrite <- app_assoc, find_skip.
      * cbn [app find]. rewrite eqb_refl. destruct member; reflexivity.
      * apply Forall_forall. intros other Hin. apply in_rev in Hin.
        rewrite Forall_forall in Hpost. specialize (Hpost other Hin).
        apply eqb_neq. intros E. rewrite E in Hpost. congruence.
    + apply Forall_forall. intros name Hin. apply in_rev in Hin.
      apply in_map_iff in Hin. destruct Hin as [other [<- Hin]].
      rewrite Forall_forall in Hpost. apply Hpost, Hin.
Qed.

Lemma csaccm_read_opens_last_dataset_witness :
  csaccm_read
    (Ok [(u "bundle/CCM/primary-dataset.json", Raise RuntimeError);
         (u "v4/CCM/primary-dataset.json", Raise BadZipFile);
         (u "README.md", Raise ValueError)])
  = Raise BadZipFile.
Proof.
  apply (proj2 (proj2 (proj2 csaccm_read_opens_last_dataset _))
               [(u "bundle/CCM/primary-dataset.json", Raise RuntimeError)]
               (u "v4/CCM/primary-dataset.json", Raise BadZipFile)
               [(u "README.md", Raise ValueError)]).
  - reflexivity.
  - reflexivity.
  - repeat constructor.
Defined.

(** ** What the parser hands to the writer *)

Lemma star_greedy_result {X} (a : Re.atom) (k : str -> option X) (x : X) :
  forall s, Re.star_greedy a s k = Some x -> exists s', k s' = Some x.
Proof.
  induction s as [|c s IH]; simpl; intros H; [eauto|].
  destruct (Re.accepts a c); [|eauto].
  destruct (Re.star_greedy a s k) as [y|] eqn:E; [|eauto].
  injection H as ->. apply IH. reflexivity.
Qed.

Lemma star_greedy_constant {X} (a : Re.atom) (x : X) :
  forall s, Re.star_greedy a s (fun _ => Some x) = Some x.
Proof.
  induction s as [|c s IH]; simpl; [reflexivity|].
  rewrite IH. destruct (Re.accepts a c); reflexivity.
Qed.

Lemma firstn_head {A} (c : A) (s : list A) :
  firstn (length (c :: s) - length s) (c :: s) = [c].
Proof.
  replace (length (c :: s) - length s) with 1 by (cbn [length]; lia).
  reflexivity.
Qed.

Lemma requirementTag_classification (title t : str) :
  BSI.requirementTag title = Some t -> In t [u "B"; u "S"; u "H"].
Proof.
  unfold BSI.requirementTag, Re.match_, BSI.tagRe. rewrite run_seq_star.
  destruct (Re.star_greedy _ _ _) as [g|] eqn:E; [|discriminate].
  intros Hgroup. apply star_greedy_result in E. destruct E as [s' Hk].
  cbn [Re.run Re.accepts Re.star] in Hk.
  destruct s' as [|c0 [|c1 [|c2 s3]]]; try discriminate;
    destruct (N.eqb c0 (ch "(")); try discriminate.
  - destruct (N.eqb c1 (ch "B")), (N.eqb c1 (ch "S")), (N.eqb c1 (ch "H"));
      discriminate.
  - rewrite firstn_head in Hk.
    destruct (N.eqb_spec c1 (ch "B")) as [->|_].
    { destruct (N.eqb c2 (ch ")")).
      - rewrite star_greedy_constant in Hk. injection Hk as <-.
        injection Hgroup as <-. simpl. auto.
      - destruct (N.eqb (ch "B") (ch "S")) eqn:F; [discriminate F|].
        destruct (N.eqb (ch "B") (ch "H")) eqn:F'; [discriminate F'|].
        discriminate. }
    destruct (N.eqb_spec c1 (ch "S")) as [->|_].
    { destruct (N.eqb c2 (ch ")")).
      - rewrite star_greedy_constant in Hk. injection Hk as <-.
        injection Hgroup as <-. simpl. auto.
      - destruct (N.eqb (ch "S") (ch "H")) eqn:F'; [discriminate F'|].
        discriminate. }
    destruct (N.eqb_spec c1 (ch "H")) as [->|_]; [|discriminate].
    destruct (N.eqb c2 (ch ")")); [|discriminate].
    rewrite star_greedy_constant in Hk. injection Hk as <-.
    injection Hgroup as <-. simpl. auto.
Qed.

Lemma set_Forall {V} (Q : V -> Prop) (d : dict V) (k : str) (v : V) :
  Forall (fun e => Q (snd e)) d -> Q v ->
  Forall (fun e => Q (snd e)) (set d k v).
Proof.
  intros Hd Hv. induction Hd as [|[k' v'] d Hhead Htail IH]; simpl.
  - constructor; [exact Hv | constructor].
  - destruct (Str.eqb k' k); constructor; assumption.
Qed.

Lemma get_Forall {V} (Q : V -> Prop) (d : dict V) (k : str) (v : V) :
  Forall (fun e => Q (snd e)) d -> get d k = Some v -> Q v.
Proof.
  intros Hd. induction Hd as [|[k' v'] d Hhead Htail IH]; simpl;
    [discriminate|].
  destruct (Str.eqb k' k); [|exact IH].
  intros H. injection H as <-. exact Hhead.
Qed.

Lemma update_Forall {V} (Q : V -> Prop) (d d' : dict V) (k : str)
      (f : V -> result V) :
  Forall (fun e => Q (snd e)) d ->
  (forall v v', Q v -> f v = Ok v' -> Q v') ->
  update d k f = Ok d' ->
  Forall (fun e => Q (snd e)) d'.
Proof.
  intros Hd Hf. unfold update, item.
  destruct (get d k) as [v|] eqn:Hget; [|discriminate]. simpl.
  destruct (f v) as [v'|] eqn:Hfv; [|discriminate]. simpl.
  intros H. injection H as <-.
  apply set_Forall; [exact Hd|].
  eapply Hf; [|exact Hfv]. eapply get_Forall; eassumption.
Qed.

Lemma rfold_invariant {A S} (P : S -> Prop) (body : S -> A -> result S)
      (l : list A) :
  (forall s a s', P s -> body s a = Ok s' -> P s') ->
  forall s s', P s -> rfold body l s = Ok s' -> P s'.
Proof.
  intros Hbody. induction l as [|a l IH]; intros s s' Hs H; simpl in H.
  - injection H as <-. exact Hs.
  - apply rbind_ok in H. destruct H as [s1 [Hstep Hrest]].
    eapply IH; [|exact Hrest]. eapply Hbody; eassumption.
Qed.

Lemma readThreat_classified c t st th st' :
  classified_blocks (fst st) -> BSI.readThreat c t st th = Ok st' ->
  classified_blocks (fst st').
Proof.
  destruct st as [bb i]. unfold BSI.readThreat. intros Hbb H.
  do 3 (apply rbind_ok in H; destruct H as [? [? H]]).
  injection H as <-. simpl.
  match goal with Hset : BSI.set_threat _ _ _ _ _ = Ok _ |- _ =>
    unfold BSI.set_threat in Hset;
    eapply (@update_Forall _ classified_block); [exact Hbb | | exact Hset]
  end.
  intros b b' Hb Hupd. apply rbind_ok in Hupd.
  destruct Hupd as [children' [Hchildren Hb']]. injection Hb' as <-.
  unfold classified_block in *. simpl.
  eapply (@update_Forall _ classified_topic); [exact Hb | | exact Hchildren].
  intros topic topic' Htopic Htopic'. injection Htopic' as <-. exact Htopic.
Qed.

Lemma readRequirement_classified c t bb r bb' :
  classified_blocks bb -> BSI.readRequirement c t bb r = Ok bb' ->
  classified_blocks bb'.
Proof.
  unfold BSI.readRequirement. intros Hbb H.
  do 5 (apply rbind_ok in H; destruct H as [? [? H]]).
  unfold BSI.set_requirement in H.
  eapply (@update_Forall _ classified_block); [exact Hbb | | exact H].
  intros b b' Hb Hupd. apply rbind_ok in Hupd.
  destruct Hupd as [children' [Hchildren Hb']]. injection Hb' as <-.
  unfold classified_block in *. simpl.
  eapply (@update_Forall _ classified_topic); [exact Hb | | exact Hchildren].
  intros topic topic' Htopic Htopic'. injection Htopic' as <-.
  unfold classified_topic in *. simpl.
  apply set_Forall; [exact Htopic|].
  unfold classified. simpl.
  destruct (BSI.requirementTag _) as [tag|] eqn:E; [|exact I].
  eapply requirementTag_classification, E.
Qed.

Lemma readTopic_classified c bb t bb' :
  classified_blocks bb -> BSI.readTopic c bb t = Ok bb' ->
  classified_blocks bb'.
Proof.
  unfold BSI.readTopic. intros Hbb H.
  apply rbind_ok in H. destruct H as [text [_ H]].
  apply rbind_ok in H. destruct H as [rawKey [_ H]].
  apply rbind_ok in H. destruct H as [topicTitle [_ H]].
  apply rbind_ok in H. destruct H as [bb1 [Hset H]].
  apply rbind_ok in H. destruct H as [st [Hthreats Hreqs]].
  assert (Hbb1 : classified_blocks bb1).
  { unfold BSI.set_topic in Hset.
    eapply (@update_Forall _ classified_block); [exact Hbb | | exact Hset].
    intros b b' Hb Hb'. injection Hb' as <-.
    unfold classified_block in *. simpl.
    apply set_Forall; [exact Hb | constructor]. }
  assert (Hst : classified_blocks (fst st)).
  { eapply (rfold_invariant (fun s => classified_blocks (fst s)));
      [| | exact Hthreats]; [|exact Hbb1].
    intros s a s'. apply readThreat_classified. }
  eapply (rfold_invariant classified_blocks); [| exact Hst | exact Hreqs].
  intros s a s'. apply readRequirement_classified.
Qed.

Lemma readBSIBuildingBlocks_classified topicsET bb :
  BSI.readBSIBuildingBlocks topicsET = Ok bb -> classified_blocks bb.
Proof.
  unfold BSI.readBSIBuildingBlocks.
  apply (rfold_invariant classified_blocks); [|constructor].
  intros s e s' Hs H. unfold BSI.readChapter in H.
  apply rbind_ok in H. destruct H as [text [_ H]].
  apply rbind_ok in H. destruct H as [blockTitle [_ H]].
  apply rbind_ok in H. destruct H as [chapterKey [_ H]].
  eapply (rfold_invariant classified_blocks); [| | exact H].
  - intros s0 t s0'. apply readTopic_classified.
  - apply set_Forall; [exact Hs | constructor].
Qed.

Lemma classified_blocks_known bb :
  classified_blocks bb -> Forall known_tag (bsi_requirements bb).
Proof.
  unfold classified_blocks, bsi_requirements. intros H.
  apply Forall_flat_map. eapply Forall_impl; [|exact H].
  intros [k b] Hb. apply Forall_flat_map. eapply Forall_impl; [|exact Hb].
  intros [k' t] Ht. exact Ht.
Qed.

(** X4. Every tag the parser stores is absent or one of the letters B, S
    and H; so on a repository that rejects nothing the writer of the
    requirements, fed with what the parser returned, finds every tag it looks
    up and ends normally, with one create for every requirement of the
    dictionary, in its order. *)
Theorem parsed_requirements_are_written :
  forall topicsET buildingBlocks st,
    BSI.readBSIBuildingBlocks topicsET = Ok buildingBlocks ->
    fail_after st = None ->
    Forall known_tag (bsi_requirements buildingBlocks)
    /\ exists st',
         writeBSIRequirements buildingBlocks st = (Ok tt, st')
         /\ Forall2 written_as (bsi_requirements buildingBlocks)
                    (created KRequirement (since (length (trace st)) st')).
Proof.
  intros topicsET buildingBlocks st Hread Hfail.
  pose proof (classified_blocks_known
                (readBSIBuildingBlocks_classified _ Hread)) as Hknown.
  split; [exact Hknown|].
  destruct (writes_since (writeBSIRequirements_writes buildingBlocks st
                                                      Hfail Hknown))
    as ([] & st' & Hrun & Hall).
  exists st'. split; assumption.
Qed.

Lemma parsed_requirements_are_written_witness :
  Forall known_tag (bsi_requirements sampleParsed)
  /\ exists st',
       writeBSIRequirements sampleParsed (start None) = (Ok tt, st')
       /\ Forall2 written_as (bsi_requirements sampleParsed)
                  (created KRequirement
                           (since (length (trace (start None))) st')).
Proof.
  apply (@parsed_requirements_are_written [sampleChapter] sampleParsed
                                          (start None)).
  - vm_compute. reflexivity.
  - reflexivity.
Defined.

(** ** Further properties of the BSI C5 importer *)

Lemma c5_lookup_set o area items id :
  c5_lookup (set o area items) area id = get items id.
Proof. unfold c5_lookup. rewrite get_set_same. reflexivity. Qed.

Lemma bsic5_row_spec o row :
  exists o',
    bsic5_row o row = Ok o'
    /\ forall area id,
         c5_lookup o' area id
         = if c5_row_of area id row then Some (c5_item row)
           else c5_lookup o area id.
Proof.
  unfold bsic5_row.
  set (o1 := if negb (mem o (c5_Area row)) then set o (c5_Area row) [] else o).
  assert (H1 : exists items,
             get o1 (c5_Area row) = Some items
             /\ forall id, get items id = c5_lookup o (c5_Area row) id).
  { subst o1. unfold mem, c5_lookup.
    destruct (get o (c5_Area row)) as [items|] eqn:E; simpl.
    - exists items. split; [exact E | reflexivity].
    - exists []. split; [apply get_set_same | reflexivity]. }
  assert (H2 : forall area, area <> c5_Area row -> get o1 area = get o area).
  { intros area Hne. subst o1.
    destruct (negb (mem o (c5_Area row))); [|reflexivity].
    apply get_set_other. congruence. }
  destruct H1 as (items & Hitems & Hsame).
  eexists. split.
  - eapply update_spec; [exact Hitems | reflexivity].
  - intros area id. unfold c5_row_of, c5_lookup.
    destruct (Str.eqb (c5_Area row) area) eqn:Earea; simpl.
    + apply eqb_eq in Earea. subst area. rewrite get_set_same.
      destruct (Str.eqb (c5_ID row) id) eqn:Eid.
      * apply eqb_eq in Eid. subst id. rewrite get_set_same. reflexivity.
      * apply eqb_neq in Eid. rewrite get_set_other by exact Eid.
        rewrite Hsame. reflexivity.
    + apply eqb_neq in Earea. rewrite get_set_other by exact Earea.
      rewrite H2 by congruence. reflexivity.
Qed.

Lemma bsic5_rows_spec data : forall o,
  exists o',
    rfold bsic5_row data o = Ok o'
    /\ forall area id,
         c5_lookup o' area id
         = match find (c5_row_of area id) (rev data) with
           | Some row => Some (c5_item row)
           | None => c5_lookup o area id
           end.
Proof.
  induction data as [|row data IH]; intros o.
  - exists o. split; reflexivity.
  - destruct (bsic5_row_spec o row) as (o1 & Hrow & Hlook1).
    destruct (IH o1) as (o' & Hrest & Hlook).
    exists o'. split.
    + cbn [rfold]. rewrite Hrow. exact Hrest.
    + intros area id. rewrite Hlook. simpl rev. rewrite find_snoc.
      destruct (find (c5_row_of area id) (rev data)); [reflexivity|].
      rewrite Hlook1. destruct (c5_row_of area id row); reflexivity.
Qed.

(** X5. Reading the rows of the BSI C5 sheet never raises, and the
    dictionary it builds holds under [o[area][id]] the entry of the last row
    with that Area and that ID, and nothing where there is no such row: of
    two rows with the same Area and ID only the later one is uploaded. *)
Theorem bsic5_read_last_row_wins :
  forall data,
    exists o,
      bsic5_read data = Ok o
      /\ forall area id,
           c5_lookup o area id
           = option_map c5_item (find (c5_row_of area id) (rev data)).
Proof.
  intros data. destruct (bsic5_rows_spec data []) as (o & Hread & Hlook).
  exists o. split; [exact Hread|].
  intros area id. rewrite Hlook.
  destruct (find (c5_row_of area id) (rev data)); reflexivity.
Qed.

(** ** Further properties of the OWASP SAMM importer *)

Lemma samm_in_L1_ok o k1 f l1 t' :
  get o k1 = Some l1 -> f (s1_topics l1) = Ok t' ->
  samm_in_L1 o k1 f = Ok (set o k1 (mkSammL1 (s1_title l1) t')).
Proof.
  intros Hget Hf. unfold samm_in_L1.
  eapply update_spec; [exact Hget|]. rewrite Hf. reflexivity.
Qed.

Lemma samm_in_L2_ok o k1 k2 f l1 l2 t' :
  get o k1 = Some l1 -> get (s1_topics l1) k2 = Some l2 ->
  f (s2_topics l2) = Ok t' ->
  samm_in_L2 o k1 k2 f
  = Ok (set o k1 (mkSammL1 (s1_title l1)
                    (set (s1_topics l1) k2 (mkSammL2 (s2_title l2) t')))).
Proof.
  intros H1 H2 Hf. unfold samm_in_L2.
  eapply samm_in_L1_ok; [exact H1|].
  eapply update_spec; [exact H2|]. rewrite Hf. reflexivity.
Qed.

Lemma samm_in_L3_ok o k1 k2 k3 f l1 l2 l3 r' :
  get o k1 = Some l1 -> get (s1_topics l1) k2 = Some l2 ->
  get (s2_topics l2) k3 = Some l3 -> f (s3_requirements l3) = Ok r' ->
  exists o', samm_in_L3 o k1 k2 k3 f = Ok o'.
Proof.
  intros H1 H2 H3 Hf. unfold samm_in_L3. eexists.
  eapply samm_in_L2_ok; [exact H1 | exact H2|].
  eapply update_spec; [exact H3|]. rewrite Hf. reflexivity.
Qed.

Lemma samm_level1 o ids0 title :
  exists l1,
    get (if negb (mem o ids0) then set o ids0 (mkSammL1 title []) else o) ids0
    = Some l1.
Proof.
  unfold mem. destruct (get o ids0) as [l1|] eqn:E; simpl.
  - eauto.
  - rewrite get_set_same. eauto.
Qed.

Lemma samm_level2 o1 ids0 l1 k2 title :
  get o1 ids0 = Some l1 ->
  exists o2 l1' l2,
    (if negb (mem (s1_topics l1) k2)
     then samm_in_L1 o1 ids0 (fun topics =>
            Ok (set topics k2 (mkSammL2 title [])))
     else Ok o1) = Ok o2
    /\ get o2 ids0 = Some l1'
    /\ get (s1_topics l1') k2 = Some l2.
Proof.
  intros Hl1. unfold mem.
  destruct (get (s1_topics l1) k2) as [l2|] eqn:E; simpl.
  - exists o1, l1, l2. auto.
  - erewrite samm_in_L1_ok; [|exact Hl1|reflexivity].
    do 3 eexists. split; [reflexivity|]. rewrite get_set_same.
    split; [reflexivity|]. simpl. apply get_set_same.
Qed.

Lemma samm_level3 o2 ids0 l1 k2 l2 k3 title :
  get o2 ids0 = Some l1 -> get (s1_topics l1) k2 = Some l2 ->
  exists o3 m1 m2 m3,
    (if negb (mem (s2_topics l2) k3)
     then samm_in_L2 o2 ids0 k2 (fun topics =>
            Ok (set topics k3 (mkSammL3 title [])))
     else Ok o2) = Ok o3
    /\ get o3 ids0 = Some m1
    /\ get (s1_topics m1) k2 = Some m2
    /\ get (s2_topics m2) k3 = Some m3.
Proof.
  intros Hl1 Hl2. unfold mem.
  destruct (get (s2_topics l2) k3) as [l3|] eqn:E; simpl.
  - exists o2, l1, l2, l3. auto.
  - erewrite samm_in_L2_ok; [|exact Hl1|exact Hl2|reflexivity].
    do 4 eexists. split; [reflexivity|]. rewrite get_set_same.
    split; [reflexivity|]. simpl. rewrite get_set_same.
    split; [reflexivity|]. simpl. apply get_set_same.
Qed.

Lemma samm_row_cases o row :
  match split (samm_ID row) (u "-") with
  | _ :: _ :: _ :: _ => exists o', samm_row o row = Ok o'
  | _ => samm_row o row = Raise IndexError
  end.
Proof.
  unfold samm_row.
  pose proof (split_not_nil (ch "-") (samm_ID row)) as Hne.
  change [ch "-"] with (u "-") in Hne.
  destruct (split (samm_ID row) (u "-")) as [|ids0 [|ids1 [|ids2 rest]]];
    [congruence | reflexivity | |];
    unfold subscript; cbn [nth_error rbind];
    destruct (samm_level1 o ids0 (samm_BusinessFunction row)) as [l1 Hl1];
    unfold item at 1; rewrite Hl1; cbn [rbind];
    destruct (@samm_level2 _ ids0 l1 (ids0 ++ u "-" ++ ids1)
                           (samm_SecurityPractice row) Hl1)
      as (o2 & l1' & l2 & Ho2 & Hl1' & Hl2);
    rewrite Ho2; cbn [rbind]; [reflexivity|].
  unfold item at 1. rewrite Hl1'. cbn [rbind].
  unfold item at 1. rewrite Hl2. cbn [rbind].
  destruct (@samm_level3 o2 ids0 l1' (ids0 ++ u "-" ++ ids1) l2
                         (ids0 ++ u "-" ++ ids1 ++ u "-" ++ ids2)
                         (samm_Activity row) Hl1' Hl2)
    as (o3 & m1 & m2 & m3 & Ho3 & Hm1 & Hm2 & Hm3).
  rewrite Ho3. cbn [rbind].
  eapply samm_in_L3_ok; [exact Hm1 | exact Hm2 | exact Hm3 | reflexivity].
Qed.

Lemma samm_row_outcome o row :
  (3 <= samm_parts row /\ exists o', samm_row o row = Ok o')
  \/ (samm_parts row < 3 /\ samm_row o row = Raise IndexError).
Proof.
  pose proof (samm_row_cases o row) as H. unfold samm_parts.
  destruct (split (samm_ID row) (u "-")) as [|a [|b [|c rest]]]; simpl.
  - right. split; [lia | exact H].
  - right. split; [lia | exact H].
  - right. split; [lia | exact H].
  - left. split; [lia | exact H].
Qed.

Lemma samm_rows_outcome data : forall o,
  (Forall (fun row => 3 <= samm_parts row) data
   /\ exists o', rfold samm_row data o = Ok o')
  \/ (Exists (fun row => samm_parts row < 3) data
      /\ rfold samm_row data o = Raise IndexError).
Proof.
  induction data as [|row data IH]; intros o.
  - left. split; [constructor | eexists; reflexivity].
  - cbn [rfold].
    destruct (samm_row_outcome o row) as [[Hlong [o1 Hrow]]|[Hshort Hrow]];
      rewrite Hrow; cbn [rbind].
    + destruct (IH o1) as [[Hall Hok]|[Hex Hraise]].
      * left. split; [constructor; assumption | exact Hok].
      * right. split; [apply Exists_cons_tl, Hex | exact Hraise].
    + right. split; [apply Exists_cons_hd, Hshort | reflexivity].
Qed.

(** X6. Reading the rows of the SAMM sheet returns a dictionary when the ID
    of every row has at least three parts between hyphens, and raises
    [IndexError] when the ID of some row has fewer; it raises nothing
    else. *)
Theorem samm_read_needs_three_parts :
  forall data,
    (Forall (fun row => 3 <= samm_parts row) data
     /\ exists o, samm_read data = Ok o)
    \/ (Exists (fun row => samm_parts row < 3) data
        /\ samm_read data = Raise IndexError).
Proof. intros data. apply samm_rows_outcome. Qed.

(** ** Further properties of the CIS Controls importer *)

Lemma mem_set {V} (d : dict V) (k k' : str) (v : V) :
  mem (set d k v) k' = Str.eqb k k' || mem d k'.
Proof.
  unfold mem. destruct (Str.eqb k k') eqn:E.
  - apply eqb_eq in E. subst k'. rewrite get_set_same. reflexivity.
  - apply eqb_neq in E. rewrite get_set_other by assumption. reflexivity.
Qed.

Lemma eqb_app_prefix (p a b : str) : Str.eqb (p ++ a) (p ++ b) = Str.eqb a b.
Proof.
  destruct (Str.eqb a b) eqn:E.
  - apply eqb_eq in E. subst b. apply eqb_refl.
  - apply eqb_neq. apply eqb_neq in E. intros H. apply app_inv_head in H.
    contradiction.
Qed.

(** The keys of [o] are the controls read so far. *)
Lemma ciscontrols_rows_headed data : forall o assets functions seen,
  (forall c, mem o (u "CIS-" ++ c) = existsb (fun c' => Str.eqb c' c) seen) ->
  if cis_headed seen data
  then exists parsed, rfold ciscontrols_row data (o, assets, functions)
                      = Ok parsed
  else rfold ciscontrols_row data (o, assets, functions) = Raise KeyError.
Proof.
  induction data as [|row data IH]; intros o assets functions seen Ho.
  - simpl. eexists. reflexivity.
  - cbn [cis_headed rfold].
    destruct (Str.eqb (cis_Safeguard row) []) eqn:Eblank.
    + assert (E : ciscontrols_row (o, assets, functions) row
                  = Ok (set o (u "CIS-" ++ cis_Control row)
                          (mkCisDomain (cis_Title row) (cis_Description row)
                                       []),
                        assets, functions)).
      { unfold ciscontrols_row. rewrite Eblank. reflexivity. }
      rewrite E. cbn [rbind]. apply IH. intros c.
      rewrite mem_set, eqb_app_prefix, Ho. reflexivity.
    + pose proof (Ho (cis_Control row)) as Hrow. unfold mem in Hrow.
      destruct (get o (u "CIS-" ++ cis_Control row)) as [domain|] eqn:Hget.
      * assert (E : exists domain' assets' functions',
                   ciscontrols_row (o, assets, functions) row
                   = Ok (set o (u "CIS-" ++ cis_Control row) domain',
                         assets', functions')).
        { unfold ciscontrols_row. rewrite Eblank. cbv zeta.
          unfold update, item. rewrite Hget. cbn [rbind].
          do 3 eexists. reflexivity. }
        destruct E as (domain' & assets' & functions' & E).
        rewrite E, <- Hrow. cbn [rbind andb]. apply IH. intros c.
        rewrite mem_set, eqb_app_prefix, Ho.
        destruct (Str.eqb (cis_Control row) c) eqn:Ec; [|reflexivity].
        apply eqb_eq in Ec. subst c. rewrite <- Hrow. reflexivity.
      * rewrite <- Hrow. cbn [andb].
        unfold ciscontrols_row. rewrite Eblank. cbv zeta.
        unfold update, item. rewrite Hget. reflexivity.
Qed.

(** X7. Reading the sheet of CIS Controls fails only with [KeyError], and
    it does so exactly when some safeguard row has no row of its control
    (a row with a blank safeguard cell and the same control number) above
    it; any other sheet is read into the three dictionaries. *)
Theorem ciscontrols_read_needs_control_rows :
  forall data,
    (cis_headed [] data = true
     /\ exists parsed, ciscontrols_read data = Ok parsed)
    \/ (cis_headed [] data = false
        /\ ciscontrols_read data = Raise KeyError).
Proof.
  intros data. unfold ciscontrols_read.
  pose proof (@ciscontrols_rows_headed data [] [] [] []
                (fun c => eq_refl)) as H.
  destruct (cis_headed [] data); [left | right]; split;
    try reflexivity; exact H.
Qed.

(** ** The order of zero-padded keys *)

Lemma of_uint_no_dot (d : Decimal.uint) : ~ In dot (of_uint d).
Proof.
  induction d; simpl; [intros [] | ..];
    (intros [E|H]; [discriminate E | exact (IHd H)]).
Qed.

Lemma zfill_two_digits (n : nat) :
  n < 100 ->
  zfill (of_nat n) 2
  = [(48 + N.of_nat (n / 10))%N; (48 + N.of_nat (n mod 10))%N].
Proof.
  intros H.
  assert (Hall : forallb
                   (fun n => Str.eqb (zfill (of_nat n) 2)
                               [(48 + N.of_nat (n / 10))%N;
                                (48 + N.of_nat (n mod 10))%N])
                   (seq 0 100) = true) by (vm_compute; reflexivity).
  rewrite forallb_forall in Hall. apply eqb_eq, Hall, in_seq. lia.
Qed.

Lemma str_lt_two_digits (n m : nat) (r r' : str) :
  n < 100 -> m < 100 ->
  str_lt (zfill (of_nat n) 2 ++ r) (zfill (of_nat m) 2 ++ r')
  = (n <? m) || ((n =? m) && str_lt r r').
Proof.
  intros Hn Hm. rewrite !zfill_two_digits by assumption. cbn [app str_lt].
  pose proof (Nat.div_mod_eq n 10) as En.
  pose proof (Nat.div_mod_eq m 10) as Em.
  pose proof (Nat.mod_upper_bound n 10 ltac:(lia)) as Bn.
  pose proof (Nat.mod_upper_bound m 10 ltac:(lia)) as Bm.
  destruct (N.ltb_spec (48 + N.of_nat (n / 10)) (48 + N.of_nat (m / 10)));
    destruct (N.eqb_spec (48 + N.of_nat (n / 10)) (48 + N.of_nat (m / 10)));
    destruct (N.ltb_spec (48 + N.of_nat (n mod 10))
                         (48 + N.of_nat (m mod 10)));
    destruct (N.eqb_spec (48 + N.of_nat (n mod 10))
                         (48 + N.of_nat (m mod 10)));
    destruct (Nat.ltb_spec n m); destruct (Nat.eqb_spec n m);
    cbn [orb andb]; try reflexivity; try lia.
Qed.

Lemma join_cons (c : char) (x : str) (l : list str) :
  join [c] (x :: l)
  = x ++ match l with [] => [] | _ :: _ => c :: join [c] l end.
Proof. destruct l; simpl; [rewrite app_nil_r|]; reflexivity. Qed.

Lemma padded_tails_ordered (ns : list nat) : forall ms,
  Forall (fun n => n < 100) ns -> Forall (fun n => n < 100) ms ->
  str_lt
    match ns with
    | [] => []
    | _ :: _ => dot :: join [dot] (map (fun n => zfill (of_nat n) 2) ns)
    end
    match ms with
    | [] => []
    | _ :: _ => dot :: join [dot] (map (fun n => zfill (of_nat n) 2) ms)
    end
  = numbering_lt ns ms.
Proof.
  induction ns as [|n ns IH]; intros [|m ms] Hns Hms; try reflexivity.
  inversion Hns as [|? ? Hn Hns']; subst.
  inversion Hms as [|? ? Hm Hms']; subst.
  cbn [map numbering_lt]. rewrite !join_cons.
  cbn [str_lt]. rewrite N.ltb_irrefl, N.eqb_refl. cbn [orb andb].
  rewrite str_lt_two_digits by assumption.
  specialize (IH ms Hns' Hms').
  destruct ns, ms; cbn [map] in *; rewrite IH; reflexivity.
Qed.

Lemma zeroPadKey_numbering (ns : list nat) :
  ns <> [] ->
  zeroPadKey (numbering ns)
  = join [dot] (map (fun n => zfill (of_nat n) 2) ns).
Proof.
  intros Hne. unfold zeroPadKey, numbering. change (u ".") with [dot].
  rewrite split_join.
  - rewrite map_map. reflexivity.
  - destruct ns; [congruence | discriminate].
  - clear Hne. induction ns; simpl; constructor;
      [apply of_uint_no_dot | assumption].
Qed.

(** X8. On numberings whose numbers are all below 100, zero-padding makes
    the order of the keys as strings the order of the numberings: one padded
    key sorts before another exactly when its numbering comes first. *)
Theorem zeroPadKey_orders_numberings :
  forall ns ms,
    ns <> [] -> ms <> [] ->
    Forall (fun n => n < 100) ns -> Forall (fun n => n < 100) ms ->
    str_lt (zeroPadKey (numbering ns)) (zeroPadKey (numbering ms))
    = numbering_lt ns ms.
Proof.
  intros [|n ns] [|m ms] Hne Hme Hns Hms; try congruence.
  rewrite !zeroPadKey_numbering by discriminate.
  inversion Hns as [|? ? Hn Hns']; subst.
  inversion Hms as [|? ? Hm Hms']; subst.
  cbn [map numbering_lt]. rewrite !join_cons.
  rewrite str_lt_two_digits by assumption.
  pose proof (padded_tails_ordered Hns' Hms') as IH.
  destruct ns, ms; cbn [map] in *; rewrite IH; reflexivity.
Qed.

Lemma zeroPadKey_orders_numberings_witness :
  str_lt (zeroPadKey (numbering [2; 10])) (zeroPadKey (numbering [10; 1]))
  = numbering_lt [2; 10] [10; 1].
Proof.
  apply zeroPadKey_orders_numberings;
    try discriminate; repeat constructor; lia.
Defined.

(** ** References between the entities of a run *)

Lemma returned_app {B} (inj : B -> Model) tr evs (o : Obj B) :
  returned inj tr o -> returned inj (tr ++ evs) o.
Proof. intros H. apply in_or_app. left. exact H. Qed.

Lemma returned_if_app {B} (inj : B -> Model) tr evs (o : option (Obj B)) :
  returned_if inj tr o -> returned_if inj (tr ++ evs) o.
Proof. destruct o; simpl; [apply returned_app | trivial]. Qed.

Lemma assigned_app k tr evs i : assigned k tr i -> assigned k (tr ++ evs) i.
Proof.
  intros (m & Hk & Hin). exists m. split; [exact Hk|].
  apply in_or_app. left. exact Hin.
Qed.

Lemma returned_assigned {B} (inj : B -> Model) tr (o : Obj B) :
  returned inj tr o -> assigned (kind_of (inj (body o))) tr (id o).
Proof. intros H. exists (inj (body o)). split; [reflexivity | exact H]. Qed.

Lemma well_referenced_nil : well_referenced [].
Proof. intros [|e pre] i m post H; discriminate. Qed.

Lemma well_referenced_snoc tr e :
  well_referenced tr ->
  match e with Create _ m => resolved tr m | _ => True end ->
  well_referenced (tr ++ [e]).
Proof.
  intros Htr He pre i m post E.
  destruct post as [|x post] using rev_ind.
  - apply app_inj_tail in E. destruct E as [<- ->]. exact He.
  - clear IHpost. rewrite app_comm_cons, app_assoc in E.
    apply app_inj_tail in E. destruct E as [E _].
    eapply Htr. exact E.
Qed.

Lemma grows_refl n st : grows n st st.
Proof. exists []. rewrite app_nil_r. reflexivity. Qed.

Lemma grows_trans n st1 st2 st3 :
  grows n st1 st2 -> grows n st2 st3 -> grows n st1 st3.
Proof.
  intros [e1 H1] [e2 H2]. exists (e1 ++ e2).
  rewrite H2, H1, app_assoc. reflexivity.
Qed.

(** What was known of the events of [st] is known of those of [st']. *)
Lemma carry n st st' (F : list Event -> Prop) :
  grows n st st' -> F (since n st) -> stable F -> F (since n st').
Proof. intros [evs ->] H Hs. apply Hs, H. Qed.

Lemma referenced_event n st st' e :
  referenced n st -> trace st' = trace st ++ [e] ->
  match e with Create _ m => resolved (since n st) m | _ => True end ->
  referenced n st' /\ grows n st st'.
Proof.
  intros [Hn Hw] Htr He.
  pose proof (@since_app n st st' [e] Hn Htr) as Hs.
  split; [split|].
  - rewrite Htr, length_app. lia.
  - rewrite Hs. apply well_referenced_snoc; assumption.
  - exists [e]. exact Hs.
Qed.

Section Sound.

Variable n : nat.

Local Abbreviation fine := (referenced n).
Local Abbreviation later := (grows n).
Local Abbreviation safe := (sound n).

Lemma sound_ret {A} (a : A) st (Q : A -> State -> Prop) :
  fine st -> Q a st -> safe st (ret a) Q.
Proof.
  intros H HQ. split; [exact H|]. split; [apply grows_refl|].
  simpl. intros a' E. injection E as <-. exact HQ.
Qed.

Lemma sound_lift {A} (r : result A) st :
  fine st -> safe st (lift r) (fun a _ => r = Ok a).
Proof.
  intros H. split; [exact H|]. split; [apply grows_refl|].
  simpl. intros a E. exact E.
Qed.

Lemma sound_raise {A} (e : exn) st (Q : A -> State -> Prop) :
  fine st -> safe st (raise e) Q.
Proof.
  intros H. split; [exact H|]. split; [apply grows_refl|].
  simpl. intros a E. discriminate.
Qed.

Lemma sound_bind {A B} (m : M A) (f : A -> M B) st
      (Q1 : A -> State -> Prop) (Q : B -> State -> Prop) :
  safe st m Q1 ->
  (forall a st1, fine st1 -> later st st1 -> Q1 a st1 ->
                 safe st1 (f a) Q) ->
  safe st (bind m f) Q.
Proof.
  unfold sound, bind. intros (Href & Hgr & HQ1) Hf.
  destruct (m st) as [[a|e] st1]; simpl in *.
  - destruct (Hf a st1 Href Hgr (HQ1 a eq_refl)) as (Href' & Hgr' & HQ).
    split; [exact Href'|]. split; [|exact HQ].
    eapply grows_trans; eassumption.
  - split; [exact Href|]. split; [exact Hgr|]. intros b E. discriminate.
Qed.

Lemma sound_weaken {A} (m : M A) st (Q Q' : A -> State -> Prop) :
  safe st m Q -> (forall a st', Q a st' -> Q' a st') -> safe st m Q'.
Proof.
  intros (Href & Hgr & HQ) H. split; [exact Href|]. split; [exact Hgr|].
  intros a E. apply H, HQ, E.
Qed.

Lemma sound_try_except {A} (body : M A) (handler : exn -> M A) st
      (Q : A -> State -> Prop) :
  safe st body Q ->
  (forall e st1, fine st1 -> later st st1 -> safe st1 (handler e) Q) ->
  safe st (try_except body handler) Q.
Proof.
  unfold sound, try_except. intros (Href & Hgr & HQ) Hh.
  destruct (body st) as [[a|e] st1]; simpl in *.
  - split; [exact Href|]. split; [exact Hgr | exact HQ].
  - destruct (is_Exception e).
    + destruct (Hh e st1 Href Hgr) as (Href' & Hgr' & HQ').
      split; [exact Href'|]. split; [|exact HQ'].
      eapply grows_trans; eassumption.
    + split; [exact Href|]. split; [exact Hgr|]. intros b E. discriminate.
Qed.

Lemma sound_foldM {A S} (body : S -> A -> M S) (l : list A)
      (Inv : S -> State -> Prop) :
  forall s st,
    fine st -> Inv s st ->
    (forall s a st1, fine st1 -> later st st1 -> Inv s st1 ->
                     safe st1 (body s a) Inv) ->
    safe st (foldM body l s) Inv.
Proof.
  induction l as [|a l IH]; intros s st Href Hinv Hbody; simpl.
  - apply sound_ret; assumption.
  - eapply sound_bind.
    + apply Hbody; [exact Href | apply grows_refl | exact Hinv].
    + intros s1 st1 Href1 Hgr1 Hinv1. apply IH; [assumption | assumption|].
      intros s2 a2 st2 Href2 Hgr2 Hinv2. apply Hbody; [assumption | | assumption].
      eapply grows_trans; eassumption.
Qed.

Lemma sound_forM {A} (l : list A) (body : A -> M unit) st :
  fine st ->
  (forall a st1, fine st1 -> later st st1 ->
                 safe st1 (body a) (fun _ _ => True)) ->
  safe st (forM l body) (fun _ _ => True).
Proof.
  intros Href Hbody. unfold forM.
  apply sound_foldM; [exact Href | exact I|].
  intros _ a st1 Href1 Hgr1 _. apply Hbody; assumption.
Qed.

Lemma sound_add_obj {B} (inj : B -> Model) (b : B) st :
  fine st -> resolved (since n st) (inj b) ->
  safe st (add_obj inj b) (fun x st' => returned inj (since n st') x).
Proof.
  intros Href Hres. unfold sound, add_obj, bind, add, ret.
  destruct (fail_after st) as [[|budget]|]; simpl.
  - split; [exact Href|]. split; [apply grows_refl|]. intros a E. discriminate.
  - match goal with
    | |- referenced n ?s /\ _ =>
        destruct (@referenced_event n st s
                    (Create (next_id st (kind_of (inj b))) (inj b))
                    Href eq_refl Hres) as [Href' [evs Hgr]]
    end.
    split; [exact Href'|]. split; [exists evs; exact Hgr|].
    intros a E. injection E as <-. unfold returned.
    pose proof Href as [Hn _].
    erewrite since_app; [| exact Hn | reflexivity].
    apply in_or_app. right. left. reflexivity.
  - match goal with
    | |- referenced n ?s /\ _ =>
        destruct (@referenced_event n st s
                    (Create (next_id st (kind_of (inj b))) (inj b))
                    Href eq_refl Hres) as [Href' [evs Hgr]]
    end.
    split; [exact Href'|]. split; [exists evs; exact Hgr|].
    intros a E. injection E as <-. unfold returned.
    pose proof Href as [Hn _].
    erewrite since_app; [| exact Hn | reflexivity].
    apply in_or_app. right. left. reflexivity.
Qed.

Lemma sound_append (k : Kind) (i : nat) st :
  fine st -> safe st (append k i) (fun _ _ => True).
Proof.
  intros Href. unfold sound, append. simpl.
  match goal with
  | |- referenced n ?s /\ _ =>
      destruct (@referenced_event n st s (Append k i) Href eq_refl I)
        as [Href' Hgr]
  end.
  split; [exact Href'|]. split; [exact Hgr | trivial].
Qed.

Lemma sound_delete (k : Kind) (i : nat) st :
  fine st -> safe st (delete k i) (fun _ _ => True).
Proof.
  intros Href. unfold sound, delete.
  destruct (existsb (is_entity k i) (entities st)); simpl;
    match goal with
    | |- referenced n ?s /\ _ =>
        destruct (@referenced_event n st s (Delete k i _) Href eq_refl I)
          as [Href' Hgr]
    end;
    (split; [exact Href'|]; split; [exact Hgr | trivial]).
Qed.

Lemma sound_rollbackKind (k : Kind) st :
  fine st -> safe st (rollbackKind k) (fun _ _ => True).
Proof.
  intros Href.
  change (safe st (forM (recorded (rollback st) k)
                         (fun i => try_except (delete k i)
                                              (fun _ => ret tt)))
                (fun _ _ => True)).
  apply sound_forM; [exact Href|].
  intros i st1 Href1 _. apply sound_try_except.
  - apply sound_delete. exact Href1.
  - intros e st2 Href2 _. apply sound_ret; [exact Href2 | exact I].
Qed.

Lemma sound_rollbackAll st :
  fine st -> safe st rollbackAll (fun _ _ => True).
Proof.
  intros Href. unfold rollbackAll.
  repeat (eapply sound_bind;
          [apply sound_rollbackKind; assumption | intros _ ? ? _ _]).
  apply sound_rollbackKind. assumption.
Qed.

Lemma sound_exit {A} st (Q : A -> State -> Prop) :
  fine st -> safe st (rollbackAll ;; sys_exit None) Q.
Proof.
  intros Href. eapply sound_bind; [apply sound_rollbackAll, Href|].
  intros _ st1 Href1 _ _. apply sound_raise. exact Href1.
Qed.

Lemma sound_panic {A} (e : exn) st (Q : A -> State -> Prop) :
  fine st -> safe st (panic e) Q.
Proof. apply sound_exit. Qed.

End Sound.

(** A stable property, of one of the shapes the proofs below carry along. *)
Ltac stable_tac :=
  let tr := fresh "tr" in
  let evs := fresh "evs" in
  let H := fresh "H" in
  intros tr evs H; cbv beta in H |- *;
  first
    [ apply returned_app; exact H
    | apply returned_if_app; exact H
    | apply assigned_app; exact H
    | eapply Forall_impl; [|exact H]; cbv beta; intros;
      first [apply returned_app | apply returned_if_app | apply assigned_app];
      assumption ].

(** Moves what is known of the events of the older state of [G] to the
    newer one. *)
Ltac carry_all G :=
  match type of G with
  | grows ?n ?s ?s' =>
      repeat match goal with
      | H : context [since n s] |- _ =>
          let T := type of H in
          match eval pattern (since n s) in T with
          | ?F _ =>
              let H' := fresh "K" in
              assert (H' : F (since n s'))
                by (apply (@carry n s s' F G H); stable_tac);
              cbv beta in H'; clear H
          end
      end;
      repeat match goal with
      | H : referenced n s |- _ => clear H
      end
  end.

(** After a bind: the value, the new state and what is known there. *)
Ltac s_next :=
  let a := fresh "x" in
  let st1 := fresh "st" in
  let Href := fresh "Href" in
  let G := fresh "G" in
  let HQ := fresh "HQ" in
  intros a st1 Href G HQ; cbv beta in HQ; carry_all G; clear G.

(** Inside the body of a [forM] and of a [foldM]. *)
Ltac s_each :=
  let G := fresh "G" in intros ? ? ? G; carry_all G; clear G.

Ltac s_fold :=
  let G := fresh "G" in
  let HI := fresh "HI" in
  intros ? ? ? ? G HI; cbv beta in HI; carry_all G; clear G.

(** What a model refers to is known. *)
Ltac resolve_tac :=
  cbn [resolved topic_parent req_parent req_tags ee_extraTypeId
       ee_requirementId cat_topics];
  repeat match goal with
         | |- True => exact I
         | |- _ /\ _ => split
         | |- returned _ _ _ => assumption
         | |- returned_if _ _ (Some _) => cbn [returned_if]; assumption
         | |- returned_if _ _ None => exact I
         | |- returned_if _ _ _ => assumption
         | |- Forall _ [] => constructor
         | |- Forall _ (_ :: _) => constructor
         | |- Forall _ (_ ++ _) => apply Forall_app; split
         | |- Forall _ _ => assumption
         | |- assigned KExtraType _ _ =>
             eapply (@returned_assigned _ MExtraType); eassumption
         | |- assigned KRequirement _ _ =>
             eapply (@returned_assigned _ MRequirement); eassumption
         end.

Ltac s_unfold :=
  unfold Tags_add, Topics_add, Requirements_add, ExtraTypes_add,
    ExtraEntries_add, Catalogues_add.

Ltac s_add :=
  eapply sound_bind; [apply sound_add_obj; [assumption | resolve_tac] | s_next].

Ltac s_append :=
  eapply sound_bind; [apply sound_append; assumption | s_next].

Ltac s_lift :=
  eapply sound_bind; [apply sound_lift; assumption | s_next].

Ltac s_forM lem :=
  eapply sound_bind;
  [ apply sound_forM; [assumption | s_each; apply lem; assumption]
  | s_next ].

Ltac s_roots lem :=
  eapply sound_bind;
  [ match goal with
    | |- sound ?n _ _ _ =>
        apply sound_foldM
          with (Inv := fun roots st' =>
                         Forall (returned MTopic (since n st')) roots);
        [assumption | resolve_tac | s_fold; apply lem; assumption]
    end
  | s_next ].

Ltac s_steps := repeat first [progress cbv zeta | s_add | s_append | s_lift].

Ltac s_done :=
  first
    [ apply sound_append; assumption
    | apply sound_ret; [assumption | resolve_tac]
    | apply sound_add_obj; [assumption | resolve_tac] ].

(** *** CSA CCM *)

Lemma csaccm_control_sound n parentL1 control st :
  referenced n st -> returned MTopic (since n st) parentL1 ->
  sound n st (csaccm_control parentL1 control) (fun _ _ => True).
Proof. intros. unfold csaccm_control. s_unfold. s_steps. s_done. Qed.

Lemma csaccm_domain_sound n rootTopics domain st :
  referenced n st -> Forall (returned MTopic (since n st)) rootTopics ->
  sound n st (csaccm_domain rootTopics domain)
        (fun roots st' => Forall (returned MTopic (since n st')) roots).
Proof.
  intros. unfold csaccm_domain. s_unfold. s_steps.
  s_forM csaccm_control_sound. s_done.
Qed.

Lemma csaccm_upload_sound n ccm st :
  referenced n st -> sound n st (csaccm_upload ccm) (fun _ _ => True).
Proof.
  intros. unfold csaccm_upload. s_unfold. s_steps.
  s_roots csaccm_domain_sound. s_steps. s_done.
Qed.

Lemma csaccm_sound n zip st :
  referenced n st -> sound n st (csaccm zip) (fun _ _ => True).
Proof.
  intros. unfold csaccm. s_steps.
  apply sound_try_except; [apply csaccm_upload_sound; assumption|].
  intros. apply sound_exit. assumption.
Qed.

Lemma item_Forall {V} (Q : V -> Prop) (d : dict V) (k : str) (v : V) :
  Forall (fun e => Q (snd e)) d -> item d k = Ok v -> Q v.
Proof.
  intros Hd. unfold item. destruct (get d k) as [x|] eqn:E; [|discriminate].
  intros H. injection H as <-. eapply get_Forall; eassumption.
Qed.

Ltac s_ret :=
  eapply sound_bind;
  [ apply sound_ret with (Q := fun _ _ => True); [assumption | exact I]
  | s_next ].

Ltac s_tree lem :=
  eapply sound_bind;
  [ apply sound_forM; [assumption | s_each; apply lem; assumption]
  | s_next ].

(** *** OWASP ASVS *)

Lemma asvs_setup_sound n st :
  referenced n st ->
  sound n st asvs_setup
        (fun setup st' =>
           let '(l1, l2, l3, nist, cve) := setup in
           returned MTag (since n st') l1
           /\ returned MTag (since n st') l2
           /\ returned MTag (since n st') l3
           /\ returned MExtraType (since n st') nist
           /\ returned MExtraType (since n st') cve).
Proof.
  intros. unfold asvs_setup. s_unfold. s_steps.
  apply sound_ret; [assumption | repeat split; assumption].
Qed.

Lemma asvs_itemL3_sound n l1 l2 l3 nist cve itemL2 parentL2 itemL3 st :
  returned MTag (since n st) l1 ->
  returned MTag (since n st) l2 ->
  returned MTag (since n st) l3 ->
  returned MExtraType (since n st) nist ->
  returned MExtraType (since n st) cve ->
  returned MTopic (since n st) parentL2 ->
  referenced n st ->
  sound n st (asvs_itemL3 l1 l2 l3 nist cve itemL2 parentL2 itemL3)
        (fun _ _ => True).
Proof.
  intros. unfold asvs_itemL3. s_unfold. cbv zeta.
  eapply sound_bind;
    [ apply sound_add_obj;
      [ assumption
      | destruct (l3_L1_Required itemL3), (l3_L2_Required itemL3),
          (l3_L3_Required itemL3); cbn [app]; resolve_tac ]
    | s_next ].
  s_append.
  eapply sound_bind;
    [ destruct (l3_CWE itemL3);
      [ apply sound_ret with (Q := fun _ _ => True); [assumption | exact I]
      | s_add; apply sound_ret; [assumption | exact I] ]
    | s_next ].
  destruct (l3_NIST itemL3);
    [ apply sound_ret; [assumption | exact I]
    | s_add; apply sound_ret; [assumption | exact I] ].
Qed.

Lemma asvs_itemL2_sound n l1 l2 l3 nist cve parentL1 itemL2 st :
  returned MTag (since n st) l1 ->
  returned MTag (since n st) l2 ->
  returned MTag (since n st) l3 ->
  returned MExtraType (since n st) nist ->
  returned MExtraType (since n st) cve ->
  returned MTopic (since n st) parentL1 ->
  referenced n st ->
  sound n st (asvs_itemL2 l1 l2 l3 nist cve parentL1 itemL2)
        (fun _ _ => True).
Proof.
  intros. unfold asvs_itemL2. s_unfold. s_steps.
  apply sound_forM; [assumption|]. s_each.
  apply asvs_itemL3_sound; assumption.
Qed.

Lemma asvs_itemL1_sound n l1 l2 l3 nist cve rootTopics itemL1 st :
  returned MTag (since n st) l1 ->
  returned MTag (since n st) l2 ->
  returned MTag (since n st) l3 ->
  returned MExtraType (since n st) nist ->
  returned MExtraType (since n st) cve ->
  referenced n st ->
  Forall (returned MTopic (since n st)) rootTopics ->
  sound n st (asvs_itemL1 l1 l2 l3 nist cve rootTopics itemL1)
        (fun roots st' => Forall (returned MTopic (since n st')) roots).
Proof.
  intros. unfold asvs_itemL1. s_unfold. s_steps.
  s_tree asvs_itemL2_sound. s_done.
Qed.

Lemma asvs_upload_sound n asvsData l1 l2 l3 nist cve st :
  returned MTag (since n st) l1 ->
  returned MTag (since n st) l2 ->
  returned MTag (since n st) l3 ->
  returned MExtraType (since n st) nist ->
  returned MExtraType (since n st) cve ->
  referenced n st ->
  sound n st (asvs_upload asvsData l1 l2 l3 nist cve) (fun _ _ => True).
Proof.
  intros. unfold asvs_upload. s_unfold.
  s_roots asvs_itemL1_sound. s_steps. s_done.
Qed.

Lemma asvs_sound n asvsData st :
  referenced n st -> sound n st (asvs asvsData) (fun _ _ => True).
Proof.
  intros. unfold asvs.
  eapply sound_bind;
    [ apply sound_try_except;
      [ apply asvs_setup_sound; assumption
      | intros; apply sound_panic; assumption ]
    | s_next ].
  destruct x as [[[[l1 l2] l3] nist] cve].
  destruct HQ as (? & ? & ? & ? & ?).
  apply sound_try_except; [apply asvs_upload_sound; assumption|].
  intros. apply sound_panic. assumption.
Qed.

(** *** NIST CSF *)

Lemma nistcsf_itemL3_sound n parentL2 entry st :
  returned MTopic (since n st) parentL2 ->
  referenced n st ->
  sound n st (nistcsf_itemL3 parentL2 entry) (fun _ _ => True).
Proof.
  intros. destruct entry. unfold nistcsf_itemL3. s_unfold. s_steps. s_done.
Qed.

Lemma nistcsf_itemL2_sound n parentL1 entry st :
  returned MTopic (since n st) parentL1 ->
  referenced n st ->
  sound n st (nistcsf_itemL2 parentL1 entry) (fun _ _ => True).
Proof.
  intros. destruct entry. unfold nistcsf_itemL2. s_unfold. s_steps.
  apply sound_forM; [assumption|]. s_each.
  apply nistcsf_itemL3_sound; assumption.
Qed.

Lemma nistcsf_itemL1_sound n rootTopics entry st :
  referenced n st ->
  Forall (returned MTopic (since n st)) rootTopics ->
  sound n st (nistcsf_itemL1 rootTopics entry)
        (fun roots st' => Forall (returned MTopic (since n st')) roots).
Proof.
  intros. destruct entry. unfold nistcsf_itemL1. s_unfold. s_steps.
  s_tree nistcsf_itemL2_sound. s_done.
Qed.

Lemma nistcsf_sound n isdecimal data st :
  referenced n st -> sound n st (nistcsf isdecimal data) (fun _ _ => True).
Proof.
  intros. unfold nistcsf. s_steps.
  apply sound_try_except; [|intros; apply sound_panic; assumption].
  unfold nistcsf_upload. s_unfold.
  s_roots nistcsf_itemL1_sound. s_steps. s_done.
Qed.

(** *** BSI C5 *)

Lemma bsic5_item_sound n ac si1 si2 si3 si4 parent entry st :
  returned MExtraType (since n st) ac ->
  returned MExtraType (since n st) si1 ->
  returned MExtraType (since n st) si2 ->
  returned MExtraType (since n st) si3 ->
  returned MExtraType (since n st) si4 ->
  returned MTopic (since n st) parent ->
  referenced n st ->
  sound n st (bsic5_item ac si1 si2 si3 si4 parent entry) (fun _ _ => True).
Proof.
  intros. destruct entry. unfold bsic5_item. s_unfold. s_steps. s_done.
Qed.

Lemma bsic5_area_sound n ac si1 si2 si3 si4 rootTopics entry st :
  returned MExtraType (since n st) ac ->
  returned MExtraType (since n st) si1 ->
  returned MExtraType (since n st) si2 ->
  returned MExtraType (since n st) si3 ->
  returned MExtraType (since n st) si4 ->
  referenced n st ->
  Forall (returned MTopic (since n st)) rootTopics ->
  sound n st (bsic5_area ac si1 si2 si3 si4 rootTopics entry)
        (fun roots st' => Forall (returned MTopic (since n st')) roots).
Proof.
  intros. destruct entry. unfold bsic5_area. s_unfold. s_steps.
  s_tree bsic5_item_sound. s_done.
Qed.

Lemma bsic5_sound n data st :
  referenced n st -> sound n st (bsic5 data) (fun _ _ => True).
Proof.
  intros. unfold bsic5. s_steps.
  apply sound_try_except; [|intros; apply sound_panic; assumption].
  unfold bsic5_upload. s_unfold. s_steps.
  s_roots bsic5_area_sound. s_steps. s_done.
Qed.

(** *** OWASP SAMM *)

Lemma samm_itemL4_sound n maturity parentL3 entry st :
  Forall (fun e => returned MTag (since n st) (snd e)) maturity ->
  returned MTopic (since n st) parentL3 ->
  referenced n st ->
  sound n st (samm_itemL4 maturity parentL3 entry) (fun _ _ => True).
Proof.
  intros Hm ? ?. destruct entry. unfold samm_itemL4. s_unfold. s_lift.
  match goal with
  | Hi : item _ _ = Ok _, Hd : Forall _ maturity |- _ =>
      pose proof (@item_Forall _ (returned MTag _) _ _ _ Hd Hi)
  end.
  s_steps. s_done.
Qed.

Lemma samm_itemL3_sound n maturity parentL2 entry st :
  Forall (fun e => returned MTag (since n st) (snd e)) maturity ->
  returned MTopic (since n st) parentL2 ->
  referenced n st ->
  sound n st (samm_itemL3 maturity parentL2 entry) (fun _ _ => True).
Proof.
  intros. destruct entry. unfold samm_itemL3. s_unfold. s_steps.
  apply sound_forM; [assumption|]. s_each.
  apply samm_itemL4_sound; assumption.
Qed.

Lemma samm_itemL2_sound n maturity parentL1 entry st :
  Forall (fun e => returned MTag (since n st) (snd e)) maturity ->
  returned MTopic (since n st) parentL1 ->
  referenced n st ->
  sound n st (samm_itemL2 maturity parentL1 entry) (fun _ _ => True).
Proof.
  intros. destruct entry. unfold samm_itemL2. s_unfold. s_steps.
  apply sound_forM; [assumption|]. s_each.
  apply samm_itemL3_sound; assumption.
Qed.

Lemma samm_itemL1_sound n maturity rootTopics entry st :
  Forall (fun e => returned MTag (since n st) (snd e)) maturity ->
  referenced n st ->
  Forall (returned MTopic (since n st)) rootTopics ->
  sound n st (samm_itemL1 maturity rootTopics entry)
        (fun roots st' => Forall (returned MTopic (since n st')) roots).
Proof.
  intros. destruct entry. unfold samm_itemL1. s_unfold. s_steps.
  s_tree samm_itemL2_sound. s_done.
Qed.

Lemma samm_sound n data st :
  referenced n st -> sound n st (samm data) (fun _ _ => True).
Proof.
  intros. unfold samm. s_steps.
  apply sound_try_except; [|intros; apply sound_panic; assumption].
  unfold samm_upload. s_unfold. s_steps.
  match goal with
  | |- sound _ ?s (bind (foldM (samm_itemL1 ?m) _ _) _) _ =>
      assert (Forall (fun e => returned MTag (since n s) (snd e)) m)
        by (repeat apply set_Forall; [constructor | assumption..])
  end.
  s_roots samm_itemL1_sound. s_steps. s_done.
Qed.

(** *** CIS Controls *)

Lemma ciscontrols_row_unfilled st row st' :
  unfilled (snd (fst st)) /\ unfilled (snd st) ->
  ciscontrols_row st row = Ok st' ->
  unfilled (snd (fst st')) /\ unfilled (snd st').
Proof.
  destruct st as [[o assets] functions]. unfold ciscontrols_row, unfilled.
  destruct (Str.eqb (cis_Safeguard row) []).
  - intros H E. injection E as <-. exact H.
  - cbv zeta. intros [Ha Hf] E. apply rbind_ok in E.
    destruct E as (o' & _ & E). injection E as <-. simpl. split.
    + match goal with
      | |- Forall _ (if ?c then _ else _) => destruct c
      end; [apply (@set_Forall _ (fun v => v = None)); trivial | exact Ha].
    + match goal with
      | |- Forall _ (if ?c then _ else _) => destruct c
      end; [apply (@set_Forall _ (fun v => v = None)); trivial | exact Hf].
Qed.

Lemma ciscontrols_read_unfilled data o assets functions :
  ciscontrols_read data = Ok (o, assets, functions) ->
  unfilled assets /\ unfilled functions.
Proof.
  intros H. unfold ciscontrols_read in H.
  eapply rfold_invariant
    with (P := fun st => unfilled (snd (fst st)) /\ unfilled (snd st)) in H;
    [ exact H
    | intros; eapply ciscontrols_row_unfilled; eassumption
    | split; constructor ].
Qed.

Lemma unfilled_known tr (table : TagTable) :
  unfilled table -> Forall (fun e => returned_if MTag tr (snd e)) table.
Proof.
  intros H. eapply Forall_impl; [|exact H].
  intros e E. simpl in E. rewrite E. exact I.
Qed.

Lemma ciscontrols_tag_sound n table k st :
  referenced n st ->
  Forall (fun e => returned_if MTag (since n st) (snd e)) table ->
  sound n st (ciscontrols_tag table k)
        (fun table' st' =>
           Forall (fun e => returned_if MTag (since n st') (snd e)) table').
Proof.
  intros. unfold ciscontrols_tag. s_unfold. s_steps.
  apply sound_ret; [assumption|].
  apply (@set_Forall _ (returned_if MTag _)); [assumption|].
  cbn [returned_if]. assumption.
Qed.

Lemma ciscontrols_levels_known tr igs tags level tags' :
  Forall (fun e => returned MTag tr (snd e)) igs ->
  Forall (returned_if MTag tr) tags ->
  ciscontrols_levels igs tags level = Ok tags' ->
  Forall (returned_if MTag tr) tags'.
Proof.
  intros Higs Htags H. unfold ciscontrols_levels in H.
  eapply rfold_invariant
    with (P := Forall (returned_if (B:=Tag) MTag tr)); [| exact Htags | exact H].
  intros s a s' Hs E. apply rbind_ok in E. destruct E as (tag & Hi & E).
  injection E as <-. apply Forall_app. split; [exact Hs|].
  constructor; [|constructor]. cbn [returned_if].
  exact (@item_Forall _ (returned MTag tr) _ _ _ Higs Hi).
Qed.

Lemma ciscontrols_requirement_sound n igs assets functions parentL1 entry st :
  Forall (fun e => returned MTag (since n st) (snd e)) igs ->
  Forall (fun e => returned_if MTag (since n st) (snd e)) assets ->
  Forall (fun e => returned_if MTag (since n st) (snd e)) functions ->
  returned MTopic (since n st) parentL1 ->
  referenced n st ->
  sound n st (ciscontrols_requirement igs assets functions parentL1 entry)
        (fun _ _ => True).
Proof.
  intros. destruct entry. unfold ciscontrols_requirement. s_unfold.
  cbv zeta. s_lift.
  match goal with
  | Hi : item functions _ = Ok _, Hd : Forall _ functions |- _ =>
      pose proof (@item_Forall _ (returned_if MTag _) _ _ _ Hd Hi)
  end.
  s_lift.
  match goal with
  | Hi : item assets _ = Ok _, Hd : Forall _ assets |- _ =>
      pose proof (@item_Forall _ (returned_if MTag _) _ _ _ Hd Hi)
  end.
  s_lift.
  match goal with
  | Hl : ciscontrols_levels igs _ _ = Ok ?r,
    Hd : Forall (fun e => returned MTag ?tr (snd e)) igs |- _ =>
      assert (Forall (returned_if MTag tr) r)
        by (eapply ciscontrols_levels_known;
            [exact Hd | | exact Hl]; resolve_tac)
  end.
  s_steps. s_done.
Qed.

Lemma ciscontrols_domain_sound n igs assets functions rootTopics entry st :
  Forall (fun e => returned MTag (since n st) (snd e)) igs ->
  Forall (fun e => returned_if MTag (since n st) (snd e)) assets ->
  Forall (fun e => returned_if MTag (since n st) (snd e)) functions ->
  referenced n st ->
  Forall (returned MTopic (since n st)) rootTopics ->
  sound n st (ciscontrols_domain igs assets functions rootTopics entry)
        (fun roots st' => Forall (returned MTopic (since n st')) roots).
Proof.
  intros. destruct entry. unfold ciscontrols_domain. s_unfold. s_steps.
  s_tree ciscontrols_requirement_sound. s_done.
Qed.

Ltac s_table :=
  eapply sound_bind;
  [ match goal with
    | |- sound ?n _ _ _ =>
        apply sound_foldM
          with (Inv := fun table st' =>
                         Forall (fun e => returned_if MTag (since n st')
                                                      (snd e)) table);
        [ assumption
        | apply unfilled_known; assumption
        | s_fold; apply ciscontrols_tag_sound; assumption ]
    end
  | s_next ].

Lemma ciscontrols_upload_sound n o assets functions st :
  unfilled assets -> unfilled functions ->
  referenced n st ->
  sound n st (ciscontrols_upload o assets functions) (fun _ _ => True).
Proof.
  intros. unfold ciscontrols_upload. s_unfold. s_steps.
  s_table. s_table.
  match goal with
  | |- sound _ ?s (bind (foldM (ciscontrols_domain ?igs _ _) _ _) _) _ =>
      assert (Forall (fun e => returned MTag (since n s) (snd e)) igs)
        by (repeat apply set_Forall; [constructor | assumption..])
  end.
  s_roots ciscontrols_domain_sound. s_steps. s_done.
Qed.

Lemma ciscontrols_sound n data st :
  referenced n st -> sound n st (ciscontrols data) (fun _ _ => True).
Proof.
  intros. unfold ciscontrols. s_lift.
  destruct x as [[o assets] functions].
  apply ciscontrols_read_unfilled in HQ. destruct HQ.
  apply sound_try_except; [|intros; apply sound_panic; assumption].
  apply ciscontrols_upload_sound; assumption.
Qed.

(** *** BSI Grundschutz *)

Lemma bsi_tag_returned tr tags t tag :
  Forall (fun e => returned MTag tr (snd e)) tags ->
  bsi_tag tags t = Ok tag -> returned_if MTag tr tag.
Proof.
  intros Htags. destruct t as [t|]; simpl.
  - intros E. apply rbind_ok in E. destruct E as (x & Hi & E).
    injection E as <-. cbn [returned_if].
    exact (@item_Forall _ (returned MTag tr) _ _ _ Htags Hi).
  - intros E. injection E as <-. exact I.
Qed.

Lemma writeBSIRequirement_sound n tags parentTopic entry st :
  Forall (fun e => returned MTag (since n st) (snd e)) tags ->
  returned MTopic (since n st) parentTopic ->
  referenced n st ->
  sound n st (writeBSIRequirement tags parentTopic entry) (fun _ _ => True).
Proof.
  intros. destruct entry. unfold writeBSIRequirement. s_unfold. s_lift.
  match goal with
  | Hi : bsi_tag tags _ = Ok _, Hd : Forall _ tags |- _ =>
      pose proof (@bsi_tag_returned _ _ _ _ Hd Hi)
  end.
  s_steps. s_done.
Qed.

Lemma writeBSITopic_sound n tags buildingBlockRoot entry st :
  Forall (fun e => returned MTag (since n st) (snd e)) tags ->
  returned MTopic (since n st) buildingBlockRoot ->
  referenced n st ->
  sound n st (writeBSITopic tags buildingBlockRoot entry) (fun _ _ => True).
Proof.
  intros. destruct entry. unfold writeBSITopic. s_unfold. s_steps.
  apply sound_forM; [assumption|]. s_each.
  apply writeBSIRequirement_sound; assumption.
Qed.

Lemma writeBSIBuildingBlock_sound n tags buildingBlockRoots entry st :
  Forall (fun e => returned MTag (since n st) (snd e)) tags ->
  referenced n st ->
  Forall (returned MTopic (since n st)) buildingBlockRoots ->
  sound n st (writeBSIBuildingBlock tags buildingBlockRoots entry)
        (fun roots st' => Forall (returned MTopic (since n st')) roots).
Proof.
  intros. destruct entry. unfold writeBSIBuildingBlock. s_unfold. s_steps.
  s_tree writeBSITopic_sound. s_done.
Qed.

Lemma writeBSIRequirements_sound n buildingBlocks st :
  referenced n st ->
  sound n st (writeBSIRequirements buildingBlocks) (fun _ _ => True).
Proof.
  intros. unfold writeBSIRequirements. s_unfold. s_steps.
  match goal with
  | |- sound _ ?s (bind (foldM (writeBSIBuildingBlock ?tags) _ _) _) _ =>
      assert (Forall (fun e => returned MTag (since n s) (snd e)) tags)
        by (repeat apply set_Forall; [constructor | assumption..])
  end.
  s_roots writeBSIBuildingBlock_sound. s_steps. s_done.
Qed.

Lemma writeElementalThreat_sound n elementalTag elementalRoot threats e st :
  returned MTag (since n st) elementalTag ->
  returned MTopic (since n st) elementalRoot ->
  referenced n st ->
  sound n st (writeElementalThreat elementalTag elementalRoot threats e)
        (fun _ _ => True).
Proof.
  intros. unfold writeElementalThreat. s_unfold. s_steps.
  apply sound_ret; [assumption | exact I].
Qed.

Lemma writeBSIThreat_sound n topicTag parentTopic entry st :
  returned MTag (since n st) topicTag ->
  returned MTopic (since n st) parentTopic ->
  referenced n st ->
  sound n st (writeBSIThreat topicTag parentTopic entry) (fun _ _ => True).
Proof.
  intros. destruct entry. unfold writeBSIThreat. s_unfold. s_steps. s_done.
Qed.

Lemma writeBSIThreatTopic_sound n topicTag buildingBlockRoot entry st :
  returned MTag (since n st) topicTag ->
  returned MTopic (since n st) buildingBlockRoot ->
  referenced n st ->
  sound n st (writeBSIThreatTopic topicTag buildingBlockRoot entry)
        (fun _ _ => True).
Proof.
  intros. destruct entry. unfold writeBSIThreatTopic. s_unfold. s_steps.
  apply sound_forM; [assumption|]. s_each.
  apply writeBSIThreat_sound; assumption.
Qed.

Lemma writeBSIThreatBlock_sound n topicTag buildingBlockRoots entry st :
  returned MTag (since n st) topicTag ->
  referenced n st ->
  Forall (returned MTopic (since n st)) buildingBlockRoots ->
  sound n st (writeBSIThreatBlock topicTag buildingBlockRoots entry)
        (fun roots st' => Forall (returned MTopic (since n st')) roots).
Proof.
  intros. destruct entry. unfold writeBSIThreatBlock. s_unfold. s_steps.
  s_tree writeBSIThreatTopic_sound. s_done.
Qed.

Lemma writeBSIGrundschutzThreats_sound n elementalThreatsET buildingBlocks st :
  referenced n st ->
  sound n st (writeBSIGrundschutzThreats elementalThreatsET buildingBlocks)
        (fun _ _ => True).
Proof.
  intros. unfold writeBSIGrundschutzThreats. s_unfold. s_steps.
  eapply sound_bind;
    [ apply sound_foldM with (Inv := fun _ _ => True);
      [ assumption | exact I
      | s_fold; apply writeElementalThreat_sound; assumption ]
    | s_next ].
  s_roots writeBSIThreatBlock_sound. s_steps. s_done.
Qed.

Lemma bsigrundschutz_sound n requirementChapters elementalThreats st :
  referenced n st ->
  sound n st (bsigrundschutz requirementChapters elementalThreats)
        (fun _ _ => True).
Proof.
  intros. unfold bsigrundschutz. s_lift.
  apply sound_try_except; [|intros; apply sound_panic; assumption].
  eapply sound_bind; [apply writeBSIRequirements_sound; assumption | s_next].
  apply writeBSIGrundschutzThreats_sound. assumption.
Qed.

Lemma run_sound n isdecimal src st :
  referenced n st -> sound n st (run isdecimal src) (fun _ _ => True).
Proof.
  intros H. destruct src; simpl.
  - apply asvs_sound, H.
  - apply nistcsf_sound, H.
  - apply bsic5_sound, H.
  - apply samm_sound, H.
  - apply csaccm_sound, H.
  - apply ciscontrols_sound, H.
  - apply bsigrundschutz_sound, H.
Qed.

(** X9. In a run of any importer, however it ends, every entity sent to
    the repository refers only to what earlier creates of the same run
    returned: the parent of a topic or of a requirement and the tags of a
    requirement are objects the repository returned before, the topics of a
    catalogue likewise, and the extra type and the requirement of an extra
    entry are identifiers it assigned before. *)
Theorem creates_refer_to_earlier_creates :
  forall isdecimal src st,
    well_referenced (since (length (trace st)) (snd (run isdecimal src st))).
Proof.
  intros isdecimal src st.
  assert (H : referenced (length (trace st)) st).
  { split; [lia|]. unfold since. rewrite skipn_all.
    apply well_referenced_nil. }
  apply (@run_sound _ isdecimal src) in H.
  destruct H as [[_ H] _]. exact H.
Qed.

(** ** Runs that end normally *)

Lemma deletes_app tr tr' : deletes (tr ++ tr') = deletes tr ++ deletes tr'.
Proof. apply filter_app. Qed.

Lemma quiet_ret {A} (a : A) : quiet (ret a).
Proof.
  intros st a' st' E. injection E as <- <-. exists [].
  rewrite app_nil_r. split; reflexivity.
Qed.

Lemma quiet_lift {A} (r : result A) : quiet (lift r).
Proof.
  intros st a st' E. injection E as -> <-. exists [].
  rewrite app_nil_r. split; reflexivity.
Qed.

Lemma quiet_bind {A B} (m : M A) (f : A -> M B) :
  quiet m -> (forall a, quiet (f a)) -> quiet (bind m f).
Proof.
  intros Hm Hf st b st' E. unfold bind in E.
  destruct (m st) as [[a|e] st1] eqn:Em; [|discriminate].
  destruct (Hm st a st1 Em) as (evs1 & Ht1 & Hd1).
  destruct (Hf a st1 b st' E) as (evs2 & Ht2 & Hd2).
  exists (evs1 ++ evs2). split.
  - rewrite Ht2, Ht1, app_assoc. reflexivity.
  - rewrite deletes_app, Hd1, Hd2. reflexivity.
Qed.

Lemma quiet_foldM {A S} (body : S -> A -> M S) (l : list A) :
  (forall s a, quiet (body s a)) -> forall s, quiet (foldM body l s).
Proof.
  intros Hbody. induction l as [|a l IH]; intros s; simpl.
  - apply quiet_ret.
  - apply quiet_bind; [apply Hbody | exact IH].
Qed.

Lemma quiet_forM {A} (l : list A) (body : A -> M unit) :
  (forall a, quiet (body a)) -> quiet (forM l body).
Proof. intros H. apply quiet_foldM. intros _ a. apply H. Qed.

Lemma quiet_add_obj {B} (inj : B -> Model) (b : B) : quiet (add_obj inj b).
Proof.
  intros st a st' E. unfold add_obj, bind, add, ret in E.
  destruct (fail_after st) as [[|budget]|]; try discriminate;
    injection E as <- <-; simpl; eexists; (split; [reflexivity|]);
    reflexivity.
Qed.

Lemma quiet_append (k : Kind) (i : nat) : quiet (append k i).
Proof.
  intros st a st' E. unfold append in E. injection E as <- <-. simpl.
  eexists. split; reflexivity.
Qed.

Lemma quiet_try_except {A} (body : M A) (handler : exn -> M A) :
  quiet body -> fatal handler -> quiet (try_except body handler).
Proof.
  intros Hb Hh st a st' E. unfold try_except in E.
  destruct (body st) as [[a1|e] st1] eqn:Eb.
  - injection E as <- <-. eapply Hb, Eb.
  - destruct (is_Exception e); [|discriminate].
    destruct (Hh e st1) as (e' & st2 & Eh). congruence.
Qed.

Lemma fatal_exit {A} : fatal (fun _ : exn => rollbackAll ;; @sys_exit A None).
Proof.
  intros e st. unfold bind, sys_exit, raise.
  destruct (rollbackAll st) as [[[]|e'] st']; eauto.
Qed.

Lemma fatal_panic {A} : fatal (@panic A).
Proof. apply fatal_exit. Qed.

Ltac quiet_step :=
  first
    [ apply quiet_ret
    | apply quiet_lift
    | apply quiet_append
    | apply quiet_add_obj
    | apply quiet_try_except; [| first [apply fatal_panic | apply fatal_exit]]
    | apply quiet_foldM; intros
    | apply quiet_forM; intros
    | progress cbv zeta
    | apply quiet_bind; [| intro]
    | match goal with
      | |- quiet (match ?e with _ => _ end) => destruct e
      end ].

Lemma run_quiet isdecimal src : quiet (run isdecimal src).
Proof.
  destruct src; unfold run;
    repeat (progress autounfold with importers || quiet_step).
Qed.

(** X10. A run of an importer that ends normally has issued no delete:
    compensation happens only in runs that end in an exit. *)
Theorem normal_end_deletes_nothing :
  forall isdecimal src st st',
    run isdecimal src st = (Ok tt, st') ->
    deletes (since (length (trace st)) st') = [].
Proof.
  intros isdecimal src st st' H.
  destruct (@run_quiet isdecimal src st tt st' H) as (evs & Ht & Hd).
  rewrite (@since_trace_app st st' evs Ht). exact Hd.
Qed.

Lemma normal_end_deletes_nothing_witness :
  deletes (since 0 (snd (run noDigit (Asvs sampleAsvs) (start None)))) = [].
Proof.
  apply (@normal_end_deletes_nothing noDigit (Asvs sampleAsvs) (start None)).
  vm_compute. reflexivity.
Defined.

(** ** The CSA CCM upload on a repository that rejects nothing *)

Lemma add_obj_runs {B} (inj : B -> Model) (b : B) st :
  fail_after st = None ->
  add_obj inj b st
  = (Ok (mkObj (next_id st (kind_of (inj b))) b),
     mkState (entities st ++ [(next_id st (kind_of (inj b)), inj b)])
             (bump (next_id st) (kind_of (inj b))) None (rollback st)
             (trace st ++ [Create (next_id st (kind_of (inj b))) (inj b)])).
Proof.
  intros H. unfold add_obj, bind, add, ret. rewrite H. reflexivity.
Qed.

Lemma csaccm_control_runs p c st :
  fail_after st = None ->
  exists i st',
    csaccm_control p (control_of c) st = (Ok tt, st')
    /\ fail_after st' = None
    /\ trace st'
       = trace st
         ++ [Create i (MRequirement
                         (mkRequirement (the_control_id c)
                            (Some (the_control_title c))
                            (the_control_specification c) p [] None));
             Append KRequirement i].
Proof.
  intros H. unfold csaccm_control, control_of, Requirements_add.
  cbn [control_id control_title control_specification].
  do 3 (erewrite bind_Ok by reflexivity).
  erewrite bind_Ok by (apply add_obj_runs; exact H).
  unfold append. cbn [id trace fail_after].
  do 2 eexists. split; [reflexivity|].
  split; [reflexivity|]. cbn [trace]. rewrite <- app_assoc. reflexivity.
Qed.

Lemma csaccm_controls_run p cs : forall st,
  fail_after st = None ->
  exists evs st',
    forM (map control_of cs) (csaccm_control p) st = (Ok tt, st')
    /\ fail_after st' = None
    /\ trace st' = trace st ++ evs
    /\ created KTopic evs = []
    /\ created KCatalogue evs = []
    /\ map requirement_link (created KRequirement evs)
       = map (fun c => Some (the_control_id c, topic_key (body p))) cs.
Proof.
  induction cs as [|c cs IH]; intros st H.
  - exists [], st. rewrite app_nil_r. repeat split; assumption.
  - destruct (@csaccm_control_runs p c st H) as (i & st1 & E1 & H1 & T1).
    destruct (IH st1 H1) as (evs & st2 & E2 & H2 & T2 & Ht & Hc & Hr).
    eexists (_ ++ evs), st2. split.
    + unfold forM in *. cbn [map foldM]. unfold bind at 1. rewrite E1.
      exact E2.
    + split; [exact H2|]. split; [rewrite T2, T1, <- app_assoc; reflexivity|].
      rewrite !created_app, Ht, Hc, map_app, Hr. repeat split.
Qed.

Lemma csaccm_domain_runs roots d st :
  fail_after st = None ->
  exists p evs st',
    csaccm_domain roots (domain_of d) st = (Ok (roots ++ [p]), st')
    /\ fail_after st' = None
    /\ trace st' = trace st ++ evs
    /\ created KTopic evs = [as_created MTopic p]
    /\ topic_link (as_created MTopic p) = Some (the_domain_id d, None)
    /\ created KCatalogue evs = []
    /\ map requirement_link (created KRequirement evs)
       = map (fun c => Some (the_control_id c, the_domain_id d))
             (the_domain_controls d).
Proof.
  intros H. unfold csaccm_domain, domain_of, Topics_add.
  cbn [domain_id domain_title domain_controls].
  do 2 (erewrite bind_Ok by reflexivity).
  erewrite bind_Ok by (apply add_obj_runs; exact H).
  erewrite bind_Ok by reflexivity. cbv zeta.
  erewrite bind_Ok by reflexivity.
  match goal with
  | |- context [bind (forM _ (csaccm_control ?p)) _ ?s] =>
      destruct (@csaccm_controls_run p (the_domain_controls d) s eq_refl)
        as (evs & st2 & E2 & H2 & T2 & Ht & Hc & Hr);
      exists p, ([Create (id p) (MTopic (body p)); Append KTopic (id p)]
                 ++ evs), st2
  end.
  erewrite bind_Ok by exact E2.
  split; [reflexivity|]. split; [exact H2|].
  split; [rewrite T2; simpl; rewrite <- !app_assoc; reflexivity|].
  rewrite !created_app, Ht, Hc.
  cbn [created flat_map kind_of Kind_eqb app]. rewrite Hr.
  repeat split.
Qed.

Lemma csaccm_domains_run ds : forall roots st,
  fail_after st = None ->
  exists ps evs st',
    foldM csaccm_domain (map domain_of ds) roots st = (Ok (roots ++ ps), st')
    /\ fail_after st' = None
    /\ trace st' = trace st ++ evs
    /\ created KTopic evs = map (as_created MTopic) ps
    /\ map topic_link (created KTopic evs)
       = map (fun d => Some (the_domain_id d, None)) ds
    /\ created KCatalogue evs = []
    /\ map requirement_link (created KRequirement evs)
       = flat_map (fun d => map (fun c => Some (the_control_id c,
                                               the_domain_id d))
                                (the_domain_controls d)) ds.
Proof.
  induction ds as [|d ds IH]; intros roots st H.
  - exists [], [], st. rewrite !app_nil_r. repeat split; assumption.
  - destruct (@csaccm_domain_runs roots d st H)
      as (p & evs1 & st1 & E1 & H1 & T1 & Ht1 & Hl1 & Hc1 & Hr1).
    destruct (IH (roots ++ [p]) st1 H1)
      as (ps & evs2 & st2 & E2 & H2 & T2 & Ht2 & Hl2 & Hc2 & Hr2).
    exists (p :: ps), (evs1 ++ evs2), st2. split.
    + cbn [map foldM]. unfold bind. rewrite E1, E2, <- app_assoc.
      reflexivity.
    + split; [exact H2|].
      split; [rewrite T2, T1, <- app_assoc; reflexivity|].
      rewrite !created_app, Ht1, Hc1, Hc2, !map_app, Hl2, Hr1, Hr2, Ht2.
      cbn [map app flat_map]. rewrite Hl1. repeat split.
Qed.

(** X11. On a repository that rejects nothing the [try] block of [csaccm],
    given a dataset of the expected shape, ends normally and has created
    exactly this: one topic without parent per domain of the dataset, keyed
    by the domain's id, in the order of the dataset; one requirement per
    control, keyed by the control's id, under the topic of its domain; and
    one catalogue, whose topics are the created topics, as the repository
    returned them and in their order. *)
Theorem csaccm_upload_follows_dataset :
  forall ds st,
    fail_after st = None ->
    exists st',
      csaccm_upload (ccm_of ds) st = (Ok tt, st')
      /\ let evs := since (length (trace st)) st' in
         map topic_link (created KTopic evs)
         = map (fun d => Some (the_domain_id d, None)) (the_domains ds)
         /\ map requirement_link (created KRequirement evs)
            = flat_map
                (fun d => map (fun c => Some (the_control_id c,
                                              the_domain_id d))
                              (the_domain_controls d))
                (the_domains ds)
         /\ exists i catalogue,
              created KCatalogue evs = [(i, MCatalogue catalogue)]
              /\ map (as_created MTopic) (cat_topics catalogue)
                 = created KTopic evs.
Proof.
  intros ds st H.
  destruct (@csaccm_domains_run (the_domains ds) [] st H)
    as (ps & evs & st1 & E1 & H1 & T1 & Ht & Hl & Hc & Hr).
  unfold csaccm_upload, ccm_of, Catalogues_add.
  cbn [ccm_name ccm_version ccm_url ccm_domains].
  erewrite bind_Ok by reflexivity.
  erewrite bind_Ok by exact E1.
  do 5 (erewrite bind_Ok by reflexivity).
  erewrite bind_Ok by (apply add_obj_runs; exact H1).
  eexists. split; [reflexivity|].
  cbv zeta.
  erewrite since_trace_app
    by (cbn [trace]; rewrite T1, <- app_assoc; reflexivity).
  rewrite !created_app, Hc. cbn [created flat_map kind_of Kind_eqb app].
  rewrite !app_nil_r. split; [exact Hl|]. split; [exact Hr|].
  do 2 eexists. split; [reflexivity|].
  cbn [cat_topics app]. symmetry. exact Ht.
Qed.

Lemma csaccm_upload_follows_dataset_witness :
  exists st',
    csaccm_upload (ccm_of sampleCcm) (start None) = (Ok tt, st')
    /\ let evs := since (length (trace (start None))) st' in
       map topic_link (created KTopic evs)
       = map (fun d => Some (the_domain_id d, None)) (the_domains sampleCcm)
       /\ map requirement_link (created KRequirement evs)
          = flat_map
              (fun d => map (fun c => Some (the_control_id c,
                                            the_domain_id d))
                            (the_domain_controls d))
              (the_domains sampleCcm)
       /\ exists i catalogue,
            created KCatalogue evs = [(i, MCatalogue catalogue)]
            /\ map (as_created MTopic) (cat_topics catalogue)
               = created KTopic evs.
Proof. apply csaccm_upload_follows_dataset. reflexivity. Defined.

(** ** The catalogue comes last *)

Section Late.

Variable n : nat.

Local Abbreviation no_catalogue := (no_catalogue n).
Local Abbreviation late := (late n).

Lemma no_catalogue_event st st' e :
  no_catalogue st -> trace st' = trace st ++ [e] ->
  created KCatalogue [e] = [] -> no_catalogue st'.
Proof.
  intros [Hn Hc] Ht He. split; [rewrite Ht, length_app; lia|].
  rewrite (@since_app n st st' [e] Hn Ht), created_app, Hc, He. reflexivity.
Qed.

Lemma nc_add_obj {B} (inj : B -> Model) (b : B) :
  Kind_eqb (kind_of (inj b)) KCatalogue = false ->
  preserves no_catalogue (add_obj inj b).
Proof.
  intros Hk st H. unfold add_obj, bind, add, ret.
  destruct (fail_after st) as [[|budget]|]; simpl; try exact H;
    (eapply no_catalogue_event; [exact H | reflexivity|];
     simpl; rewrite Hk; reflexivity).
Qed.

Lemma nc_append (k : Kind) (i : nat) : preserves no_catalogue (append k i).
Proof.
  intros st H. eapply no_catalogue_event; [exact H | reflexivity..].
Qed.

Lemma nc_delete (k : Kind) (i : nat) : preserves no_catalogue (delete k i).
Proof.
  intros st H. unfold delete.
  destruct (existsb (is_entity k i) (entities st)); simpl;
    (eapply no_catalogue_event; [exact H | reflexivity..]).
Qed.

Lemma nc_rollbackKind (k : Kind) : preserves no_catalogue (rollbackKind k).
Proof.
  intros st H. unfold rollbackKind.
  apply preserves_forM; [|exact H].
  intros i. apply preserves_try_except; [apply nc_delete|].
  intros e. apply preserves_ret.
Qed.

Lemma nc_exit {A} :
  preserves no_catalogue (rollbackAll ;; @sys_exit A None).
Proof.
  unfold rollbackAll, sys_exit.
  apply preserves_bind; [|intros _; apply preserves_raise].
  do 5 (apply preserves_bind; [apply nc_rollbackKind | intros _]).
  apply nc_rollbackKind.
Qed.

Lemma nc_panic {A} (e : exn) : preserves no_catalogue (@panic A e).
Proof. apply nc_exit. Qed.

Lemma late_bind {A B} (m : M A) (f : A -> M B) :
  preserves no_catalogue m -> (forall a, late (f a)) -> late (bind m f).
Proof.
  intros Hm Hf st H. specialize (Hm st H). unfold bind.
  destruct (m st) as [[a|e] st1]; simpl in *.
  - apply Hf, Hm.
  - right. exact Hm.
Qed.

Lemma late_last (c : Catalogue) :
  late (bind (add_obj MCatalogue c) (fun _ => ret tt)).
Proof.
  intros st H. unfold bind, add_obj, bind, add, ret.
  destruct (fail_after st) as [[|budget]|]; simpl;
    [right; exact H | left; eexists; reflexivity..].
Qed.

Lemma late_try_except {A} (body : M A) (handler : exn -> M A) :
  late body -> (forall e, preserves no_catalogue (handler e)) ->
  late (try_except body handler).
Proof.
  intros Hb Hh st H. specialize (Hb st H). unfold try_except.
  destruct (body st) as [[a|e] st1]; simpl in *.
  - left. eexists. reflexivity.
  - destruct Hb as [[a E]|Hb]; [discriminate|].
    destruct (is_Exception e); [right; apply Hh, Hb | right; exact Hb].
Qed.

End Late.

Ltac nc_step :=
  first
    [ apply preserves_ret
    | apply preserves_lift
    | apply nc_panic
    | apply nc_exit
    | apply preserves_raise
    | apply preserves_try_except; [| intro]
    | apply preserves_foldM; intros
    | apply preserves_forM; intros
    | apply nc_append
    | apply nc_add_obj; reflexivity
    | progress cbv zeta
    | apply preserves_bind; [| intro]
    | match goal with
      | |- preserves _ (match ?e with _ => _ end) => destruct e
      end ].

Ltac nc := solve [repeat (progress autounfold with importers || nc_step)].

Ltac late_step :=
  first
    [ apply late_last
    | progress cbv zeta
    | apply late_try_except; [| intro; nc]
    | apply late_bind; [nc | intro]
    | match goal with
      | |- late _ (match ?e with _ => _ end) => destruct e
      end ].

Lemma run_late n isdecimal src :
  one_catalogue src = true -> late n (run isdecimal src).
Proof.
  destruct src; intros H; try discriminate H; unfold run;
    repeat (progress autounfold with importers || late_step).
Qed.

(** X12. Each importer other than that of the BSI Grundschutz creates its
    catalogue with the last call of its run: a run of one of them that does
    not end normally has created no catalogue, whatever the rollback then
    does. *)
Theorem catalogue_is_created_last :
  forall isdecimal src st,
    one_catalogue src = true ->
    fst (run isdecimal src st) <> Ok tt ->
    created KCatalogue (since (length (trace st)) (snd (run isdecimal src st)))
    = [].
Proof.
  intros isdecimal src st Hsrc Hend.
  assert (H : no_catalogue (length (trace st)) st).
  { split; [lia|]. unfold since. rewrite skipn_all. reflexivity. }
  destruct (@run_late _ isdecimal src Hsrc st H) as [[[] E]|[_ Hc]];
    [contradiction | exact Hc].
Qed.

Lemma catalogue_is_created_last_witness :
  created KCatalogue
    (since 0 (snd (run noDigit (Asvs sampleAsvs) (start (Some 7))))) = [].
Proof.
  apply (@catalogue_is_created_last noDigit (Asvs sampleAsvs)
           (start (Some 7)));
    [reflexivity | vm_compute; discriminate].
Defined.

(** ** Safeguards without a tag *)

Lemma bind_Ok_inv {A B} (m : M A) (f : A -> M B) st b st' :
  bind m f st = (Ok b, st') ->
  exists a st1, m st = (Ok a, st1) /\ f a st1 = (Ok b, st').
Proof.
  unfold bind. destruct (m st) as [[a|e] st1]; [eauto | discriminate].
Qed.

Lemma foldM_Ok_inv {A S} (body : S -> A -> M S) (l : list A) :
  forall s st s' st',
    foldM body l s st = (Ok s', st') ->
    forall a, In a l ->
              exists s1 st1 s2 st2, body s1 a st1 = (Ok s2, st2).
Proof.
  induction l as [|x l IH]; intros s st s' st' E a Hin; [contradiction|].
  simpl in E. apply bind_Ok_inv in E. destruct E as (s1 & st1 & E1 & E2).
  destruct Hin as [<-|Hin]; [eauto 6 | eapply IH; eassumption].
Qed.

Lemma mem_keys {V} (d : dict V) (k0 : str) :
  existsb (fun k => Str.eqb k k0) (map fst d) = mem d k0.
Proof.
  unfold mem. induction d as [|[k v] d IH]; simpl; [reflexivity|].
  destruct (Str.eqb k k0); [reflexivity | exact IH].
Qed.

Lemma ciscontrols_tag_keys table k st table' st' :
  ciscontrols_tag table k st = (Ok table', st') ->
  forall k0, mem table' k0 = Str.eqb k k0 || mem table k0.
Proof.
  unfold ciscontrols_tag. cbv zeta. intros E k0.
  apply bind_Ok_inv in E. destruct E as (tag & st1 & _ & E).
  apply bind_Ok_inv in E. destruct E as (u1 & st2 & _ & E).
  injection E as <- _. apply mem_set.
Qed.

Lemma ciscontrols_tags_keys ks : forall table st table' st',
  foldM ciscontrols_tag ks table st = (Ok table', st') ->
  forall k0, mem table' k0
             = existsb (fun k => Str.eqb k k0) ks || mem table k0.
Proof.
  induction ks as [|k ks IH]; intros table st table' st' E k0; simpl in *.
  - injection E as <- _. reflexivity.
  - apply bind_Ok_inv in E. destruct E as (t1 & st1 & E1 & E2).
    rewrite (IH _ _ _ _ E2 k0), (ciscontrols_tag_keys _ _ _ E1 k0).
    destruct (Str.eqb k k0), (existsb (fun k => Str.eqb k k0) ks);
      reflexivity.
Qed.

Lemma ciscontrols_table_keys table st table' st' :
  foldM ciscontrols_tag (map fst table) table st = (Ok table', st') ->
  forall k0, mem table' k0 = mem table k0.
Proof.
  intros E k0. rewrite (ciscontrols_tags_keys _ _ _ E k0), mem_keys.
  destruct (mem table k0); reflexivity.
Qed.

Lemma ciscontrols_requirement_tagged igs assets functions p rk r st u0 st' :
  ciscontrols_requirement igs assets functions p (rk, r) st = (Ok u0, st') ->
  mem functions (cr_function r) = true /\ mem assets (cr_asset r) = true.
Proof.
  unfold ciscontrols_requirement. cbv zeta. intros E.
  apply bind_Ok_inv in E. destruct E as (f & st1 & Ef & E).
  apply bind_Ok_inv in E. destruct E as (a & st2 & Ea & E).
  unfold lift, item, mem in *.
  destruct (get functions (cr_function r)); [|discriminate].
  destruct (get assets (cr_asset r)); [|discriminate].
  split; reflexivity.
Qed.

Lemma ciscontrols_upload_tagged o assets functions st st' dk d rk r :
  ciscontrols_upload o assets functions st = (Ok tt, st') ->
  In (dk, d) o -> In (rk, r) (cd_requirements d) ->
  mem functions (cr_function r) = true /\ mem assets (cr_asset r) = true.
Proof.
  unfold ciscontrols_upload. cbv zeta. intros E Hd Hr.
  do 9 (apply bind_Ok_inv in E; destruct E as (? & ? & _ & E)).
  apply bind_Ok_inv in E. destruct E as (assets' & st1 & Ea & E).
  apply bind_Ok_inv in E. destruct E as (functions' & st2 & Ef & E).
  apply bind_Ok_inv in E. destruct E as (roots & st3 & Eo & _).
  destruct (foldM_Ok_inv _ _ _ _ Eo _ Hd) as (s1 & st4 & s2 & st5 & E1).
  unfold ciscontrols_domain in E1. cbv zeta in E1.
  do 2 (apply bind_Ok_inv in E1; destruct E1 as (? & ? & _ & E1)).
  apply bind_Ok_inv in E1. destruct E1 as (u0 & st6 & E1 & _).
  destruct (foldM_Ok_inv _ _ _ _ E1 _ Hr) as (u1 & st7 & u2 & st8 & E2).
  apply ciscontrols_requirement_tagged in E2.
  rewrite (ciscontrols_table_keys _ _ Ea), (ciscontrols_table_keys _ _ Ef)
    in E2.
  exact E2.
Qed.

Lemma ciscontrols_row_no_blank_key st row st' :
  mem (snd (fst st)) [] = false /\ mem (snd st) [] = false ->
  ciscontrols_row st row = Ok st' ->
  mem (snd (fst st')) [] = false /\ mem (snd st') [] = false.
Proof.
  destruct st as [[o assets] functions]. unfold ciscontrols_row.
  destruct (Str.eqb (cis_Safeguard row) []).
  - intros H E. injection E as <-. exact H.
  - cbv zeta. intros [Ha Hf] E. cbn [fst snd] in Ha, Hf.
    apply rbind_ok in E.
    destruct E as (o' & _ & E). injection E as <-. cbn [fst snd]. split.
    + destruct (Str.eqb (cis_AssetType row) []) eqn:Eb; cbn [negb andb];
        [exact Ha|].
      match goal with
      | |- mem (if ?c then _ else _) _ = _ => destruct c
      end; [rewrite mem_set, Eb, Ha; reflexivity | exact Ha].
    + destruct (Str.eqb (cis_SecurityFunction row) []) eqn:Eb;
        cbn [negb andb]; [exact Hf|].
      match goal with
      | |- mem (if ?c then _ else _) _ = _ => destruct c
      end; [rewrite mem_set, Eb, Hf; reflexivity | exact Hf].
Qed.

(** X13. What [ciscontrols] reads from its sheet has no tag table entry for
    a blank Asset Type or Security Function; and when a safeguard it has
    read names a security function or an asset type without an entry in
    its table, as a blank cell does, the run does not end normally. *)
Theorem ciscontrols_needs_a_tag_for_each_cell :
  forall data o assets functions,
    ciscontrols_read data = Ok (o, assets, functions) ->
    (mem assets [] = false /\ mem functions [] = false)
    /\ forall dk d rk r st,
         In (dk, d) o -> In (rk, r) (cd_requirements d) ->
         mem functions (cr_function r) = false
         \/ mem assets (cr_asset r) = false ->
         fst (ciscontrols data st) <> Ok tt.
Proof.
  intros data o assets functions Hread. split.
  - unfold ciscontrols_read in Hread.
    eapply rfold_invariant
      with (P := fun st => mem (snd (fst st)) [] = false
                           /\ mem (snd st) [] = false) in Hread;
      [ exact Hread
      | intros; eapply ciscontrols_row_no_blank_key; eassumption
      | split; reflexivity ].
  - intros dk d rk r st Hd Hr Hmissing.
    unfold ciscontrols, bind at 1, lift. rewrite Hread.
    unfold try_except.
    destruct (ciscontrols_upload o assets functions st) as [[[]|e] st1]
      eqn:E.
    + destruct (@ciscontrols_upload_tagged _ _ _ _ _ _ _ _ _ E Hd Hr)
        as [Hf Ha].
      destruct Hmissing; congruence.
    + destruct (is_Exception e); [|discriminate].
      unfold panic, bind, sys_exit, raise.
      destruct (rollbackAll st1) as [[[]|e'] st2]; discriminate.
Qed.

Lemma ciscontrols_needs_a_tag_for_each_cell_witness :
  fst (ciscontrols sampleCisBlank (start None)) <> Ok tt.
Proof.
  refine (proj2
            (@ciscontrols_needs_a_tag_for_each_cell sampleCisBlank
               _ _ _ eq_refl)
            _ _ (u "CIS-1.1")
            (mkCisRequirement (u "Establish") (u "Keep an inventory.")
                              (u "Devices") [] [u "IG1"; u "IG2"; u "IG3"])
            (start None) _ _ _).
  - vm_compute. left. reflexivity.
  - vm_compute. left. reflexivity.
  - left. reflexivity.
Defined.
